(** * More-Ordered-Lists: marker codecs, classifier, parser and key handler

    A shallow embedding of the TypeScript sources of the plugin
    ([src/types.ts], [src/parser.ts], [src/editor/key-handler.ts]) and the
    properties its specification states about them.

    Conventions of the embedding.
    - A JavaScript string is a Rocq [string]: a sequence of 8-bit characters
      read as Latin-1 code points (the markers, separators and indentation the
      code inspects are all ASCII).
    - A JavaScript number is a double.  The numbers of this code hold
      integers, and such a number is the [Z] it holds.  An integer of more
      than 53 significant bits is not a double: where the result of an
      operation can have as many (the powers, products and sums of the
      alphabetical decoder, the division of the alphabetical generator,
      [parseInt], the successor of a value) it is rounded to the nearest
      double, [fl].  Sums that stay below the length of a string times 1000
      are written without rounding.
    - [throw new Error(...)] is the [Throw] constructor of [result]; every
      throw site has its own [Error] value.
    - Loops are recursive functions: structural ones where the loop runs over
      a string, a list or a number of rounds known on entry, and functions
      defined by well-founded recursion on the quantity the loop consumes
      otherwise.

    Where the code is found in the source tree: the [ParsedListLine] class
    of types.ts in [src/main.ts]; the parser in [src/src/parser.ts]; the
    marker generators [generateAlphabeticalMarker] and [generateRomanMarker]
    in [src/unnamed/part_001], with the parser they belong to; the key
    handler that works on a parsed list in [src/unnamed/part_002]; the key
    handler that dispatches and parses again in
    [src/src/editor/key-handler.ts]. *)

From Stdlib Require Import ZArith String Ascii List Bool Lia Arith DecimalString.
From Equations Require Import Equations.
Import ListNotations.


Open Scope string_scope.
Open Scope Z_scope.

(* ===================================================================== *)
(** * JavaScript primitives                                                *)
(* ===================================================================== *)

Module JS.

(** The messages of the [throw new Error(...)] sites of the sources. *)
Inductive Error : Type :=
| NoIndentationToDecrease      (* types.ts, decreaseIndentationLevel *)
| UnknownListType              (* types.ts, getValue *)
| LettersNotTheSame            (* types.ts, calculateRepeatedLettersValue *)
| AlphabeticalOutOfBounds      (* types.ts, both alphabetical decoders *)
| AlphabeticalEmpty            (* types.ts, calculateBijectiveBase26Value *)
| InvalidRomanNumeral          (* types.ts, calculateRomanValue *)
| RomanEmpty                   (* types.ts, calculateRomanValue *)
| AlphabeticalValueOutOfRange  (* parser.ts, alphabetical generators *)
| TooLargeForRepeatedLetters   (* parser.ts, generateRepeatedLettersMarker *)
| RomanValueOutOfRange         (* parser.ts, generateRomanMarker *)
| NoContextOrParent            (* key-handler.ts, updateMarkerFromContext *)
| RangeError                   (* a position outside the document *)
| TypeError.                   (* a property read on [undefined] *)

Inductive result (A : Type) : Type :=
| Ok (a : A)
| Throw (e : Error).
Arguments Ok {A} a.
Arguments Throw {A} e.

Definition bind {A B} (m : result A) (f : A -> result B) : result B :=
  match m with
  | Ok a => f a
  | Throw e => Throw e
  end.

Definition isOk {A} (m : result A) : bool :=
  match m with Ok _ => true | Throw _ => false end.

(** ** Numbers

    [Number.MAX_SAFE_INTEGER], 2^53 - 1: up to it every integer is a
    double, and the sum, the difference and the product of two integers are
    exact when they do not exceed it. *)
Definition MAX_SAFE_INTEGER : Z := 9007199254740991.

(** The integer nearest to the quotient [n / d], for [d > 0]; of the two
    nearest to a quotient half way between them, the even one. *)
Definition roundQuotient (n d : Z) : Z :=
  let q := n / d in
  let r := n mod d in
  if 2 * r <? d then q
  else if d <? 2 * r then q + 1
  else if Z.even q then q else q + 1.

(** The double nearest to the integer [x], which is the result of an
    addition, a subtraction or a multiplication whose exact result is [x]:
    [x] itself up to 2^53, and beyond it the nearest multiple of [2 ^ e]
    that has a quotient of 53 bits.  The doubles end near 1.8e308, and the
    code has [Infinity] where a result is larger; [fl] has no such end. *)
Definition fl (x : Z) : Z :=
  if Z.abs x <=? 9007199254740992 then x
  else
    let e := Z.log2 (Z.abs x) - 52 in
    Z.sgn x * (roundQuotient (Z.abs x) (2 ^ e) * 2 ^ e).

(** [Math.pow(b, n)] for integers [b] and [n >= 0]: the power when it is a
    double, as every power of 26 up to the fourteenth is, and the double
    nearest to it otherwise (there an engine may return the next one). *)
Definition pow (b n : Z) : Z := fl (b ^ n).

(** [Math.floor(x / d)] for doubles [x >= 0] and [d] that hold integers,
    [0 < d < 2^53]: the quotient is rounded to the nearest double, which has
    53 bits, some of them after the binary point when the quotient is below
    2^52, and [Math.floor] drops those.  A quotient below 1 is not rounded
    up to 1. *)
Definition floorDiv (x d : Z) : Z :=
  if x <? d then 0
  else
    let e := 52 - Z.log2 (x / d) in
    if 0 <=? e then roundQuotient (x * 2 ^ e) d / 2 ^ e
    else roundQuotient x (d * 2 ^ (- e)) * 2 ^ (- e).

(** [s.charCodeAt(i)] of one character. *)
Definition charCode (c : ascii) : Z := Z.of_N (N_of_ascii c).

(** [String.fromCharCode(n)], for a code below 256. *)
Definition fromCharCode (n : Z) : ascii := ascii_of_N (Z.to_N n).

Definition inRange (lo hi : Z) (c : ascii) : bool :=
  (lo <=? charCode c) && (charCode c <=? hi).

Definition isUpper (c : ascii) : bool := inRange 65 90 c.
Definition isLower (c : ascii) : bool := inRange 97 122 c.
Definition isDigit (c : ascii) : bool := inRange 48 57 c.

(** [String.prototype.toLowerCase] on Latin-1: A-Z and the accented capitals
    U+00C0-U+00D6, U+00D8-U+00DE move up by 32, everything else stays. *)
Definition toLowerChar (c : ascii) : ascii :=
  if isUpper c || inRange 192 214 c || inRange 216 222 c
  then fromCharCode (charCode c + 32)
  else c.

Fixpoint toLowerCase (s : string) : string :=
  match s with
  | EmptyString => EmptyString
  | String c rest => String (toLowerChar c) (toLowerCase rest)
  end.

(** [String.prototype.toUpperCase] on Latin-1: a-z and the accented small
    letters U+00E0-U+00F6, U+00F8-U+00FE move down by 32.  The three
    characters whose upper case leaves Latin-1 (U+00B5, U+00DF, U+00FF) are
    outside the model and stay; no marker contains them. *)
Definition toUpperChar (c : ascii) : ascii :=
  if isLower c || inRange 224 246 c || inRange 248 254 c
  then fromCharCode (charCode c - 32)
  else c.

Fixpoint toUpperCase (s : string) : string :=
  match s with
  | EmptyString => EmptyString
  | String c rest => String (toUpperChar c) (toUpperCase rest)
  end.

(** Line terminators (excluded by the regular expression [.]) and the
    characters of [\s], restricted to Latin-1. *)
Definition isLineTerminator (c : ascii) : bool :=
  (charCode c =? 10) || (charCode c =? 13).

Definition isSpace (c : ascii) : bool :=
  inRange 9 13 c || (charCode c =? 32) || (charCode c =? 160).

(** [c.repeat(n)] of a one-character string. *)
Fixpoint repeat (c : ascii) (n : nat) : string :=
  match n with
  | O => EmptyString
  | S n' => String c (repeat c n')
  end.

Fixpoint existsb (p : ascii -> bool) (s : string) : bool :=
  match s with
  | EmptyString => false
  | String c rest => p c || existsb p rest
  end.

Fixpoint forallb (p : ascii -> bool) (s : string) : bool :=
  match s with
  | EmptyString => true
  | String c rest => p c && forallb p rest
  end.

(** ** Regular expressions

    The fragment of JavaScript regular expressions the sources use:
    character classes, greedy quantifiers on a class, concatenation,
    alternation and capturing groups.  [rmatch] is the backtracking matcher:
    it tries the alternatives in the order the engine does (the longest
    repetition first, the left branch of [|] first) and hands the rest of the
    input and the captures so far to its continuation. *)
Inductive regex : Type :=
| Eps
| Cls (p : ascii -> bool)
| Rep (p : ascii -> bool) (min : nat) (max : option nat)
| Cat (r1 r2 : regex)
| Alt (r1 r2 : regex)
| Grp (r : regex).

Definition exhausted (max : option nat) : bool :=
  match max with Some O => true | _ => false end.

Definition predMax (max : option nat) : option nat :=
  option_map Nat.pred max.

Fixpoint repMatch {R} (p : ascii -> bool) (min : nat) (max : option nat)
    (s : string) (k : string -> option R) : option R :=
  let stop := if (min =? 0)%nat then k s else None in
  match s with
  | String c rest =>
      if p c && negb (exhausted max) then
        match repMatch p (Nat.pred min) (predMax max) rest k with
        | Some r => Some r
        | None => stop
        end
      else stop
  | EmptyString => stop
  end.

(** The text a group has consumed: the input at its start without the rest
    left at its end. *)
Definition consumed (s rest : string) : string :=
  substring 0 (String.length s - String.length rest) s.

Fixpoint rmatch (r : regex) (s : string) (caps : list string)
    (k : string -> list string -> option (list string))
  : option (list string) :=
  match r with
  | Eps => k s caps
  | Cls p =>
      match s with
      | String c rest => if p c then k rest caps else None
      | EmptyString => None
      end
  | Rep p min max => repMatch p min max s (fun rest => k rest caps)
  | Cat r1 r2 => rmatch r1 s caps (fun rest caps1 => rmatch r2 rest caps1 k)
  | Alt r1 r2 =>
      match rmatch r1 s caps k with
      | Some res => Some res
      | None => rmatch r2 s caps k
      end
  | Grp r1 =>
      rmatch r1 s caps (fun rest caps1 => k rest (caps1 ++ [consumed s rest])%list)
  end.

(** [/^r$/.exec(s)]: the captured groups, in order; [/^r/.exec(s)] likewise
    without the end anchor. *)
Definition exec (r : regex) (s : string) : option (list string) :=
  rmatch r s []
    (fun rest caps => match rest with EmptyString => Some caps | _ => None end).

Definition execPrefix (r : regex) (s : string) : option (list string) :=
  rmatch r s [] (fun _ caps => Some caps).

Definition test (r : regex) (s : string) : bool :=
  match exec r s with Some _ => true | None => false end.

Definition Chr (c : ascii) : regex := Cls (Ascii.eqb c).

(** A literal word, e.g. [cm]. *)
Fixpoint Lit (w : string) : regex :=
  match w with
  | EmptyString => Eps
  | String c EmptyString => Chr c
  | String c rest => Cat (Chr c) (Lit rest)
  end.

(** [patterns.join('|')] of a non-empty list of patterns. *)
Fixpoint joinAlt (r : regex) (rs : list regex) : regex :=
  match rs with
  | [] => r
  | r1 :: rs1 => Alt r (joinAlt r1 rs1)
  end.

(** [.] matches every character but the line terminators. *)
Definition anyChar (c : ascii) : bool := negb (isLineTerminator c).

(** The destructuring of a match array; a group index out of range reads
    [undefined], which no call site reaches. *)
Definition group (caps : list string) (i : nat) : string :=
  nth i caps EmptyString.

End JS.
Import JS.

(* ===================================================================== *)
(** * src/settings/types.ts                                                *)
(* ===================================================================== *)

Inductive NestedAlphabeticalMode : Type := disabled | bijective | repeated.
Inductive CaseStyle : Type := upper | lower | both | none.

Record MoreOrderedListsSettings : Type := mkSettings {
  enableAlphabeticalLists : bool;
  enableRomanLists : bool;
  nestedAlphabeticalMode : NestedAlphabeticalMode;
  caseStyle : CaseStyle;
  enableParentheses : bool;
  enableJuraOrdering : bool
}.

Definition hasLowercase (s : MoreOrderedListsSettings) : bool :=
  match caseStyle s with lower | both => true | _ => false end.

Definition hasUppercase (s : MoreOrderedListsSettings) : bool :=
  match caseStyle s with upper | both => true | _ => false end.

Definition DEFAULT_SETTINGS : MoreOrderedListsSettings :=
  mkSettings true true bijective both true false.

Definition isRepeated (m : NestedAlphabeticalMode) : bool :=
  match m with repeated => true | _ => false end.

Definition isDisabled (m : NestedAlphabeticalMode) : bool :=
  match m with disabled => true | _ => false end.

(* ===================================================================== *)
(** * src/types.ts                                                         *)
(* ===================================================================== *)

Module Types.

(** [ListType]; [Unordered] is the member parser.ts adds for bullet lines. *)
Inductive ListType : Type :=
| Alphabetical | Roman | NestedAlphabetical | Numbered | Unordered.

Definition ListType_eqb (a b : ListType) : bool :=
  match a, b with
  | Alphabetical, Alphabetical | Roman, Roman
  | NestedAlphabetical, NestedAlphabetical
  | Numbered, Numbered | Unordered, Unordered => true
  | _, _ => false
  end.

(** [ListSeparator]: Dot '.', Parenthesis ')', Parentheses '()'. *)
Inductive ListSeparator : Type := Dot | Parenthesis | Parentheses.

Definition separatorText (sep : ListSeparator) : string :=
  match sep with
  | Dot => "."
  | Parenthesis => ")"
  | Parentheses => "()"
  end.

Record ParsedListLine : Type := mkLine {
  type : ListType;
  indentation : string;  (* before the marker *)
  marker : string;       (* without spacing and separator *)
  separator : ListSeparator;
  content : string
}.

Definition getLineText (self : ParsedListLine) : string :=
  match separator self with
  | Parentheses => indentation self ++ "(" ++ marker self ++ ")" ++ content self
  | sep => indentation self ++ marker self ++ separatorText sep ++ content self
  end.

(** ** Values *)

(** The body of the [for] loop of [calculateBijectiveBase26Value]; the
    exponent [lowerMarker.length - 1 - i] is the number of characters that
    follow position [i].  The power, the product and the sum are doubles. *)
Fixpoint bijectiveLoop (lowerMarker : string) (value : Z) : result Z :=
  match lowerMarker with
  | EmptyString => Ok value
  | String c rest =>
      let charCode := charCode c - 96 in
      if (charCode <? 1) || (charCode >? 26) then Throw AlphabeticalOutOfBounds
      else
        let power := Z.of_nat (String.length rest) in
        let contribution := fl (charCode * pow 26 power) in
        bijectiveLoop rest (fl (value + contribution))
  end.

Definition calculateBijectiveBase26Value (marker : string) : result Z :=
  let lowerMarker := toLowerCase marker in
  bind (bijectiveLoop lowerMarker 0) (fun value =>
  if value =? 0 then Throw AlphabeticalEmpty else Ok value).

(** [for (let len = 1; len < lowerMarker.length; len++)]: both branches of
    the loop body add 26. *)
Definition repeatedBaseValue (length : nat) : Z :=
  fold_left (fun baseValue len =>
               if (len =? 1)%nat then baseValue + 26 else baseValue + 26)
            (seq 1 (length - 1)) 0.

Definition calculateRepeatedLettersValue (marker : string) : result Z :=
  let lowerMarker := toLowerCase marker in
  match lowerMarker with
  | EmptyString =>
      (* firstChar is undefined, the comparison loop does not run and
         firstChar.charCodeAt raises a TypeError *)
      Throw TypeError
  | String firstChar rest =>
      if negb (forallb (Ascii.eqb firstChar) rest) then Throw LettersNotTheSame
      else
        let charCode := charCode firstChar - 96 in
        if (charCode <? 1) || (charCode >? 26) then Throw AlphabeticalOutOfBounds
        else Ok (repeatedBaseValue (String.length lowerMarker) + charCode)
  end.

Definition romanMap (c : ascii) : option Z :=
  if Ascii.eqb c "i" then Some 1
  else if Ascii.eqb c "v" then Some 5
  else if Ascii.eqb c "x" then Some 10
  else if Ascii.eqb c "l" then Some 50
  else if Ascii.eqb c "c" then Some 100
  else if Ascii.eqb c "d" then Some 500
  else if Ascii.eqb c "m" then Some 1000
  else None.

(** The loop of [calculateRomanValue] runs from the last character to the
    first: [romanLoop s] is the state [(value, prevValue)] after the
    characters of [s] have been consumed from the right. *)
Fixpoint romanLoop (roman : string) : result (Z * Z) :=
  match roman with
  | EmptyString => Ok (0, 0)
  | String c rest =>
      bind (romanLoop rest) (fun '(value, prevValue) =>
      match romanMap c with
      | None => Throw InvalidRomanNumeral
      | Some currentValue =>
          if currentValue <? prevValue
          then Ok (value - currentValue, currentValue)
          else Ok (value + currentValue, currentValue)
      end)
  end.

Definition calculateRomanValue (marker : string) : result Z :=
  let roman := toLowerCase marker in
  bind (romanLoop roman) (fun '(value, _) =>
  if value =? 0 then Throw RomanEmpty else Ok value).

(** [parseInt(s)] with no radix: leading white space, an optional sign, an
    optional [0x] prefix, then the longest run of digits; [None] is NaN.
    The number returned is the double nearest to the integer that the
    digits denote. *)
Fixpoint skipSpaces (s : string) : string :=
  match s with
  | String c rest => if isSpace c then skipSpaces rest else s
  | EmptyString => s
  end.

Definition digitValue (radix : Z) (c : ascii) : option Z :=
  let d :=
    if isDigit c then charCode c - 48
    else if inRange 97 122 c then charCode c - 87
    else if inRange 65 90 c then charCode c - 55
    else 36 in
  if d <? radix then Some d else None.

Fixpoint parseDigits (radix : Z) (s : string) (acc : option Z) : option Z :=
  match s with
  | EmptyString => acc
  | String c rest =>
      match digitValue radix c with
      | None => acc
      | Some d =>
          parseDigits radix rest
            (Some (match acc with Some a => a * radix + d | None => d end))
      end
  end.

Definition parseInt (s : string) : option Z :=
  let s1 := skipSpaces s in
  let '(sign, s2) :=
    match s1 with
    | String "-" rest => (-1, rest)
    | String "+" rest => (1, rest)
    | _ => (1, s1)
    end in
  let '(radix, s3) :=
    match s2 with
    | String "0" (String "x" rest) => (16, rest)
    | String "0" (String "X" rest) => (16, rest)
    | _ => (10, s2)
    end in
  option_map (fun mathInt => fl (sign * mathInt)) (parseDigits radix s3 None).

(** [getValue]; the number it returns is NaN ([None]) when a Numbered marker
    does not start with a digit. *)
Definition calculateAlphabeticalValue
    (self : ParsedListLine) (useRepeatedLettersMode : bool) : result Z :=
  let lowerMarker := toLowerCase (marker self) in
  let useRepeatedMode :=
    useRepeatedLettersMode
    && ListType_eqb (type self) NestedAlphabetical
    && (1 <? String.length lowerMarker)%nat in
  if useRepeatedMode then calculateRepeatedLettersValue (marker self)
  else calculateBijectiveBase26Value (marker self).

Definition getValue
    (self : ParsedListLine) (useRepeatedLettersMode : bool)
  : result (option Z) :=
  match type self with
  | Alphabetical | NestedAlphabetical =>
      bind (calculateAlphabeticalValue self useRepeatedLettersMode)
           (fun v => Ok (Some v))
  | Roman => bind (calculateRomanValue (marker self)) (fun v => Ok (Some v))
  | Numbered => Ok (parseInt (marker self))
  | Unordered => Throw UnknownListType
  end.

(** ** Indentation *)

(** The inner [while] of [getIndentationLevel]: the run of spaces that
    starts at the current position, and what follows it. *)
Fixpoint spanSpaces (s : string) : nat * string :=
  match s with
  | String " " rest => let '(n, r) := spanSpaces rest in (S n, r)
  | _ => (O, s)
  end.

(** One iteration of the outer [for] handles a tab, a whole run of spaces,
    or one other character.  The recursion is on a bound on the number of
    characters left, which every iteration lowers; [getIndentationLevel]
    starts it with the length of the string.  The level is a count, hence a
    [nat], and [Math.floor(spaces / 4)] the quotient of the division. *)
Fixpoint indentationLoop (bound : nat) (s : string) (level : nat) : nat :=
  match bound with
  | O => level
  | S bound' =>
      match s with
      | EmptyString => level
      | String c rest =>
          if Ascii.eqb c "009" then indentationLoop bound' rest (level + 1)
          else if Ascii.eqb c " " then
            let '(spaces, after) := spanSpaces s in
            indentationLoop bound' after (level + spaces / 4)
          else indentationLoop bound' rest level
      end
  end.

Definition getIndentationLevel (indentation : string) : nat :=
  indentationLoop (String.length indentation) indentation 0.

Definition increaseIndentationLevel (self : ParsedListLine) : ParsedListLine :=
  mkLine (type self) (String "009" (indentation self)) (marker self)
         (separator self) (content self).

(** String helpers of [decreaseIndentationLevel]. *)
Fixpoint rev (s : string) : string :=
  match s with
  | EmptyString => EmptyString
  | String c rest => rev rest ++ String c EmptyString
  end.

(** [s.substring(0, s.length - n)] for [n <= s.length]. *)
Definition dropEnd (n : nat) (s : string) : string :=
  substring 0 (String.length s - n) s.

Definition endsWithTab (s : string) : bool :=
  match rev s with
  | String c _ => Ascii.eqb c "009"
  | EmptyString => false
  end.

(** What a call of [decreaseIndentationLevel] does to the object: it throws,
    or assigns a new indentation, or returns early (the [return ''] branch)
    with [this.indentation] untouched. *)
Inductive DecreaseOutcome : Type :=
| Thrown (e : Error)
| Assigned (newIndentation : string)
| ReturnedEarly.

Definition decreaseIndentation (indentation : string) : DecreaseOutcome :=
  if (String.length indentation =? 0)%nat then Thrown NoIndentationToDecrease
  else
    let result := indentation in
    let trailingSpaces := fst (spanSpaces (rev result)) in
    let incompleteSpaces := (trailingSpaces mod 4)%nat in
    let result :=
      if negb (incompleteSpaces =? 0)%nat then dropEnd incompleteSpaces result
      else result in
    if endsWithTab result then
      let result := dropEnd 1 result in
      let result :=
        if negb (incompleteSpaces =? 0)%nat
        then result ++ repeat " " incompleteSpaces else result in
      Assigned result
    else if (4 <=? trailingSpaces)%nat then
      let result := dropEnd 4 result in
      let result :=
        if negb (incompleteSpaces =? 0)%nat
        then result ++ repeat " " incompleteSpaces else result in
      Assigned result
    else ReturnedEarly.

(** [decreaseIndentationLevel] as a state transformer on the line. *)
Definition decreaseIndentationLevel (self : ParsedListLine)
  : result ParsedListLine :=
  match decreaseIndentation (indentation self) with
  | Thrown e => Throw e
  | Assigned ind =>
      Ok (mkLine (type self) ind (marker self) (separator self) (content self))
  | ReturnedEarly => Ok self
  end.

(** ** Case style and first markers *)

Inductive Case : Type := UpperCase | LowerCase.

Definition getCaseStyle (self : ParsedListLine) : option Case :=
  if String.eqb (marker self) (toUpperCase (marker self)) then Some UpperCase
  else if String.eqb (marker self) (toLowerCase (marker self))
  then Some LowerCase
  else None.

Definition applyCaseStyle (self : ParsedListLine) (marker : string) : string :=
  if String.eqb (Types.marker self) (toUpperCase (Types.marker self))
  then toUpperCase marker
  else if String.eqb (Types.marker self) (toLowerCase (Types.marker self))
  then toLowerCase marker
  else marker.

Definition setMarker (self : ParsedListLine) (marker : string)
  : ParsedListLine :=
  mkLine (type self) (indentation self) marker (separator self) (content self).

Definition setSeparator (self : ParsedListLine) (separator : ListSeparator)
  : ParsedListLine :=
  mkLine (type self) (indentation self) (marker self) separator (content self).

Definition setContent (self : ParsedListLine) (content : string)
  : ParsedListLine :=
  mkLine (type self) (indentation self) (marker self) (separator self) content.

Definition isCase (style : option Case) (c : Case) : bool :=
  match style, c with
  | Some UpperCase, UpperCase | Some LowerCase, LowerCase => true
  | _, _ => false
  end.

Definition isSeparator (a b : ListSeparator) : bool :=
  match a, b with
  | Dot, Dot | Parenthesis, Parenthesis | Parentheses, Parentheses => true
  | _, _ => false
  end.

(** The first [switch] of [asFirstMarker], under Jura ordering: the line
    after it, and whether the method has returned. *)
Definition juraFirstMarker (self : ParsedListLine) : ParsedListLine * bool :=
  let set m sep := setSeparator (setMarker self m) sep in
  let style := getCaseStyle self in
  let sep := separator self in
  match type self with
  | Alphabetical =>
      if isCase style UpperCase && isSeparator sep Dot
      then (set "I" Dot, true)
      else if isCase style LowerCase && isSeparator sep Parenthesis
      then (set "aa" Parenthesis, true)
      else if isCase style LowerCase && isSeparator sep Parentheses
      then (set "aa" Parentheses, true)
      else (self, false)
  | Roman =>
      if isCase style UpperCase && isSeparator sep Dot
      then (set "1" Dot, true)
      else (self, false)
  | Numbered =>
      if isSeparator sep Dot then (set "a" Parenthesis, true)
      else if isSeparator sep Parentheses
      then (set "a" Parentheses, false)   (* this branch has no return *)
      else (self, false)
  | NestedAlphabetical =>
      if isCase style LowerCase && isSeparator sep Parenthesis
      then (set "1" Parentheses, true)
      else if isCase style LowerCase && isSeparator sep Parentheses
      then (set "i" Parentheses, true)
      else (self, false)
  | Unordered => (self, false)
  end.

(** The second [switch]: the first marker of the type, in the case of the
    line. *)
Definition plainFirstMarker (self : ParsedListLine) : ParsedListLine :=
  match type self with
  | Alphabetical => setMarker self (applyCaseStyle self "a")
  | Roman => setMarker self (applyCaseStyle self "i")
  | NestedAlphabetical => setMarker self (applyCaseStyle self "aa")
  | Numbered => setMarker self "1"
  | Unordered => self
  end.

Definition asFirstMarker (self : ParsedListLine) (enableJuraOrdering : bool)
  : ParsedListLine :=
  if enableJuraOrdering then
    let '(self1, returned) := juraFirstMarker self in
    if returned then self1
    else if String.eqb (indentation self1) ""
    then setSeparator (setMarker self1 "A") Dot
    else plainFirstMarker self1
  else plainFirstMarker self.

End Types.
Import Types.

(* ===================================================================== *)
(** * src/parser.ts: marker generation                                     *)
(* ===================================================================== *)

(** The rounding of a quotient moves it by less than 1. *)
Lemma roundQuotient_bounds n d :
  0 < d -> n / d <= roundQuotient n d <= n / d + 1.
Proof.
  intros Hd. unfold roundQuotient.
  destruct (2 * (n mod d) <? d); [lia|].
  destruct (d <? 2 * (n mod d)); [lia|].
  destruct (Z.even (n / d)); lia.
Qed.

Lemma fl_bounds x : 0 <= x -> 0 <= fl x <= 2 * x.
Proof.
  intros Hx. unfold fl.
  destruct (Z.abs x <=? _) eqn:E; [lia|]. apply Z.leb_gt in E.
  rewrite Z.abs_eq in * by lia.
  assert (Hpos : 0 < x) by lia.
  rewrite Z.sgn_pos by lia.
  pose proof (Z.log2_spec x Hpos) as [Hlow _].
  assert (Hlog : 53 <= Z.log2 x).
  { apply Z.log2_le_pow2; [lia|]. change (2 ^ 53) with 9007199254740992. lia. }
  set (e := Z.log2 x - 52) in *.
  assert (He : 0 <= e) by lia.
  assert (Hpow : 0 < 2 ^ e) by (apply Z.pow_pos_nonneg; lia).
  assert (Hle : 2 ^ e <= x).
  { transitivity (2 ^ Z.log2 x); [|exact Hlow].
    apply Z.pow_le_mono_r; lia. }
  pose proof (roundQuotient_bounds x (2 ^ e) Hpow) as [Hq1 Hq2].
  pose proof (Z.div_pos x (2 ^ e) ltac:(lia) Hpow).
  pose proof (Z.mul_div_le x (2 ^ e) Hpow).
  nia.
Qed.

(** A round of the generator's loop leaves less than it found. *)
Lemma floorDiv_decreases remaining :
  0 < remaining -> 0 <= floorDiv (fl (remaining - 1)) 26 < remaining.
Proof.
  intros Hr.
  pose proof (fl_bounds (remaining - 1) ltac:(lia)) as Hfl.
  remember (fl (remaining - 1)) as y.
  unfold floorDiv.
  destruct (y <? 26) eqn:E; [lia|]. apply Z.ltb_ge in E.
  assert (Hq : 1 <= y / 26) by (apply Z.div_le_lower_bound; lia).
  pose proof (Z.log2_spec (y / 26) ltac:(lia)) as [Hlow Hhigh].
  pose proof (Z.log2_nonneg (y / 26)) as Hlog.
  pose proof (Z.mul_div_le y 26 ltac:(lia)) as Hmul.
  destruct (0 <=? 52 - Z.log2 (y / 26)) eqn:Ee.
  - apply Z.leb_le in Ee. set (e := 52 - Z.log2 (y / 26)) in *.
    assert (Hpow : 0 < 2 ^ e) by (apply Z.pow_pos_nonneg; lia).
    pose proof (roundQuotient_bounds (y * 2 ^ e) 26 ltac:(lia)) as [Hq1 Hq2].
    assert (0 <= y * 2 ^ e / 26) by (apply Z.div_pos; nia).
    split; [apply Z.div_pos; lia|].
    apply Z.div_lt_upper_bound; [lia|].
    pose proof (Z.mul_div_le (y * 2 ^ e) 26 ltac:(lia)).
    nia.
  - apply Z.leb_gt in Ee. set (e := - (52 - Z.log2 (y / 26))) in *.
    assert (He : 0 < e) by lia.
    assert (Hpow : 0 < 2 ^ e) by (apply Z.pow_pos_nonneg; lia).
    pose proof (roundQuotient_bounds y (26 * 2 ^ e) ltac:(nia)) as [Hq1 Hq2].
    assert (0 <= y / (26 * 2 ^ e)) by (apply Z.div_pos; nia).
    assert (Hle : 2 ^ e <= y / 26).
    { transitivity (2 ^ Z.log2 (y / 26)); [|exact Hlow].
      apply Z.pow_le_mono_r; lia. }
    pose proof (Z.mul_div_le y (26 * 2 ^ e) ltac:(nia)) as Hm.
    set (P := 2 ^ e) in *. set (q := y / (26 * P)) in *.
    assert (Hy : 26 * P <= y) by nia.
    assert (q * P * 26 <= y) by nia.
    assert (roundQuotient y (26 * P) * P <= q * P + P) by nia.
    nia.
Qed.

(** The [while (remaining > 0)] loop of [generateStandardAlphabeticalMarker].
    [remaining--] and [remaining / 26] are operations on doubles; [%] is the
    truncating remainder, which is exact. *)
Equations? standardLoop (remaining : Z) (result : string) : string
  by wf (Z.to_nat remaining) lt :=
  standardLoop remaining result with Z_gt_dec remaining 0 => {
    | left _ =>
        let remaining1 := fl (remaining - 1) in
        let charCode := Z.rem remaining1 26 + 1 in
        let char := fromCharCode (96 + charCode) in
        standardLoop (floorDiv remaining1 26) (String char result);
    | right _ => result }.
Proof.
  subst remaining1; clear charCode0 char.
  pose proof (floorDiv_decreases remaining ltac:(lia)). lia.
Qed.

Definition generateStandardAlphabeticalMarker (value : Z) : result string :=
  if value <? 1 then Throw AlphabeticalValueOutOfRange
  else Ok (standardLoop value "").

(** The [for (let maxLength = 10; length <= maxLength; length++)] loop of
    [generateRepeatedLettersMarker]; it leaves through [break], through the
    [throw] or through its condition, with the state [(baseValue, length)]
    ([len] stands for the variable [length]). *)
Definition iterationsLeft (maxLength len : Z) : nat :=
  Z.to_nat (maxLength + 1 - len).

Lemma iterationsLeft_step maxLength len :
  len <= maxLength ->
  (iterationsLeft maxLength (len + 1) < iterationsLeft maxLength len)%nat.
Proof. unfold iterationsLeft; lia. Qed.

Equations? repeatedLoop (value baseValue len : Z) : result (Z * Z)
  by wf (iterationsLeft 10 len) lt :=
  repeatedLoop value baseValue len with Z_le_dec len 10 => {
    | left _ =>
        let groupSize := 26 in
        if value <=? baseValue + groupSize then Ok (baseValue, len)
        else
          let baseValue1 := baseValue + groupSize in
          if len =? 10 then Throw TooLargeForRepeatedLetters
          else repeatedLoop value baseValue1 (len + 1);
    | right _ => Ok (baseValue, len) }.
Proof. apply iterationsLeft_step; assumption. Qed.

Definition generateRepeatedLettersMarker (value : Z) : result string :=
  if value <? 1 then Throw AlphabeticalValueOutOfRange
  else
    bind (repeatedLoop value 0 1) (fun '(baseValue, len) =>
    let letterIndex := value - baseValue in
    let char := fromCharCode (96 + letterIndex) in
    Ok (repeat char (Z.to_nat len))).

Definition generateAlphabeticalMarker
    (settings : MoreOrderedListsSettings) (value : Z) : result string :=
  if value <? 1 then Throw AlphabeticalValueOutOfRange
  else if isRepeated (nestedAlphabeticalMode settings)
       then generateRepeatedLettersMarker value
       else generateStandardAlphabeticalMarker value.

(** The table of [generateRomanMarker], in insertion order. *)
Definition romanNumeralMap : list (positive * string) :=
  [ (1000%positive, "m"); (900%positive, "cm"); (500%positive, "d");
    (400%positive, "cd"); (100%positive, "c"); (90%positive, "xc");
    (50%positive, "l"); (40%positive, "xl"); (10%positive, "x");
    (9%positive, "ix"); (5%positive, "v"); (4%positive, "iv");
    (1%positive, "i") ].

(** [while (remainingValue >= value) { romanNumeral += numeral; ... }].
    The subtraction is written without rounding and the numeral without a
    bound on its length: this is the loop of the code for the values whose
    numeral, which has a letter for every thousand, is a string that an
    engine holds; for them [remainingValue] is far below 2^53. *)
Equations? romanWhile (value : positive) (numeral : string)
    (romanNumeral : string) (remainingValue : Z) : string * Z
  by wf (Z.to_nat remainingValue) lt :=
  romanWhile value numeral romanNumeral remainingValue
    with Z_ge_dec remainingValue (Z.pos value) => {
    | left _ =>
        romanWhile value numeral (romanNumeral ++ numeral)
                   (remainingValue - Z.pos value);
    | right _ => (romanNumeral, remainingValue) }.
Proof. lia. Qed.

(** One round of the [for ... of romanNumeralMap] loop, on the state
    [(romanNumeral, remainingValue)]. *)
Definition romanStep (state : string * Z) (entry : positive * string)
  : string * Z :=
  let '(romanNumeral, remainingValue) := state in
  let '(value, numeral) := entry in
  romanWhile value numeral romanNumeral remainingValue.

Definition generateRomanMarker (value : Z) : result string :=
  if value <? 1 then Throw RomanValueOutOfRange
  else Ok (fst (fold_left romanStep romanNumeralMap ("", value))).

(* ===================================================================== *)
(** * src/parser.ts: the list parser                                       *)
(* ===================================================================== *)

Module Parser.

(** ** List type *)

Definition isRomanLetter (c : ascii) : bool :=
  Ascii.eqb c "i" || Ascii.eqb c "v" || Ascii.eqb c "x" || Ascii.eqb c "l"
  || Ascii.eqb c "c" || Ascii.eqb c "d" || Ascii.eqb c "m".

(** [x{0,3}] and [x?] on one letter. *)
Definition upTo3 (c : ascii) : regex := Rep (Ascii.eqb c) 0 (Some 3%nat).
Definition opt (c : ascii) : regex := Rep (Ascii.eqb c) 0 (Some 1%nat).

(** [/^m{0,3}(cm|cd|d?c{0,3})(xc|xl|l?x{0,3})(ix|iv|v?i{0,3})$/] *)
Definition validRomanPattern : regex :=
  Cat (upTo3 "m")
 (Cat (Grp (Alt (Lit "cm") (Alt (Lit "cd") (Cat (opt "d") (upTo3 "c")))))
 (Cat (Grp (Alt (Lit "xc") (Alt (Lit "xl") (Cat (opt "l") (upTo3 "x")))))
      (Grp (Alt (Lit "ix") (Alt (Lit "iv") (Cat (opt "v") (upTo3 "i"))))))).

Definition isValidRomanNumeral (marker : string) : bool :=
  let roman := toLowerCase marker in
  (* empty string is not a valid Roman numeral *)
  if (String.length roman =? 0)%nat then false
  (* /^[ivxlcdm]+$/ *)
  else if negb (test (Rep isRomanLetter 1 None) roman) then false
  else test validRomanPattern roman.

Section WithSettings.

Variable settings : MoreOrderedListsSettings.

Definition determineIntrinsicListType (marker : string) : option ListType :=
  if String.eqb marker "*" || String.eqb marker "-" || String.eqb marker "+"
  then Some Unordered
  else if match parseInt marker with Some _ => true | None => false end
  then Some Numbered
  else if isValidRomanNumeral marker && enableRomanLists settings
  then Some Roman
  else if (String.length marker =? 1)%nat && enableAlphabeticalLists settings
  then Some Alphabetical
  else if (1 <? String.length marker)%nat
          && negb (isDisabled (nestedAlphabeticalMode settings))
  then Some NestedAlphabetical
  else None.

Definition determineListType
    (marker : string) (context : option ParsedListLine) : option ListType :=
  let intrinsicType := determineIntrinsicListType marker in
  match context with
  | None => intrinsicType
  | Some context =>
      if match intrinsicType with
         | Some t => ListType_eqb t (type context)
         | None => false
         end
      then intrinsicType
      else
        let reclassified :=
          match intrinsicType with
          | Some Roman =>
              if (String.length marker =? String.length (Types.marker context))%nat
              then match type context with
                   | Alphabetical | NestedAlphabetical => Some (type context)
                   | _ => None
                   end
              else None
          | _ => None
          end in
        match reclassified with
        | Some t => Some t
        | None =>
            if ListType_eqb (type context) Alphabetical
               && match intrinsicType with
                  | Some NestedAlphabetical => true
                  | _ => false
                  end
            then Some NestedAlphabetical
            else None
        end
  end.

(** ** Regex patterns *)

(** The character class [[A-Za-z]], [[A-Z]] or [[a-z]] that [alphabetChars]
    denotes. *)
Definition alphabetChars (c : ascii) : bool :=
  (hasUppercase settings && isUpper c) || (hasLowercase settings && isLower c).

Definition buildMarkerPattern : regex :=
  let hasAlphabet := hasUppercase settings || hasLowercase settings in
  let needMulti :=
    negb (isDisabled (nestedAlphabeticalMode settings))
    || enableRomanLists settings in
  let needSingle :=
    enableAlphabeticalLists settings || enableRomanLists settings in
  let patterns :=
    ((if hasAlphabet && needMulti then [Rep alphabetChars 2 None] else [])
     ++ (if hasAlphabet && needSingle then [Cls alphabetChars] else [])
     ++ [Rep isDigit 1 None])%list in
  match patterns with
  | r :: rs => joinAlt r rs
  | [] => Eps
  end.

(** The class [[\.]] or [[\.\)]]. *)
Definition buildSeparatorPattern (c : ascii) : bool :=
  Ascii.eqb c "." || (enableParentheses settings && Ascii.eqb c ")").

(** [separator as ListSeparator]: the matched character is '.' or ')'. *)
Definition asListSeparator (separator : string) : ListSeparator :=
  if String.eqb separator ")" then Parenthesis
  else if String.eqb separator "()" then Parentheses
  else Dot.

(** ** Parsing one line *)

Definition createResult (indentation marker : string)
    (separator : ListSeparator) (content : string)
    (context : option ParsedListLine) : option ParsedListLine :=
  match determineListType marker context with
  | None => None
  | Some listType =>
      Some (mkLine listType indentation marker separator content)
  end.

Definition isBullet (c : ascii) : bool :=
  Ascii.eqb c "*" || Ascii.eqb c "-" || Ascii.eqb c "+".

(** The unordered pattern: [^], a group of white space [\s] repeated, a
    group with one of the bullets, one space, a group of any characters up
    to [$]. *)
Definition unorderedPattern : regex :=
  Cat (Grp (Rep isSpace 0 None))
 (Cat (Grp (Cls isBullet))
 (Cat (Chr " ") (Grp (Rep anyChar 0 None)))).

(** The standard pattern: white space, the marker pattern, one separator
    character, one space, the content; each but the space in a group. *)
Definition standardRegex : regex :=
  Cat (Grp (Rep isSpace 0 None))
 (Cat (Grp buildMarkerPattern)
 (Cat (Grp (Cls buildSeparatorPattern))
 (Cat (Chr " ") (Grp (Rep anyChar 0 None))))).

(** The double parentheses pattern: white space, an opening parenthesis,
    the marker pattern, a closing parenthesis, one space, the content. *)
Definition parenthesesPattern : regex :=
  Cat (Grp (Rep isSpace 0 None))
 (Cat (Chr "(")
 (Cat (Grp buildMarkerPattern)
 (Cat (Chr ")")
 (Cat (Chr " ") (Grp (Rep anyChar 0 None)))))).

Definition parseLine (lineText : string) (context : option ParsedListLine)
  : option ParsedListLine :=
  match exec unorderedPattern lineText with
  | Some m =>
      createResult (group m 0) (group m 1) Dot (group m 2) context
  | None =>
  match exec standardRegex lineText with
  | Some m =>
      createResult (group m 0) (group m 1) (asListSeparator (group m 2))
                   (group m 3) context
  | None =>
  if enableParentheses settings then
    match exec parenthesesPattern lineText with
    | Some m =>
        createResult (group m 0) (group m 1) Parentheses (group m 2) context
    | None => None
    end
  else None
  end
  end.

(** ** Indentation *)

(** The leading white space of the line (the match of the pattern [^] then
    [\s] repeated, with no end anchor), then its level. *)
Definition getIndentationLevel (lineText : string) : nat :=
  let indentation :=
    match execPrefix (Grp (Rep isSpace 0 None)) lineText with
    | Some m => group m 0
    | None => EmptyString
    end in
  getIndentationLevel indentation.

(** ** Parsing lists *)

(** What the parser reads of a document: [doc.line(n).text] and
    [doc.lines]. *)
Record Text : Type := mkText {
  lineText : Z -> string;
  lines : Z
}.

(** The document [parseLines] builds: line [lineNum] is
    [lines[lineNum - 1] || '']. *)
Definition mockDoc (lines : list string) : Text :=
  mkText (fun lineNum =>
            if lineNum <? 1 then EmptyString
            else nth (Z.to_nat (lineNum - 1)) lines EmptyString)
         (Z.of_nat (List.length lines)).

(** [contextStack[indentationLevel] = current]; the index is within the
    array or just past its end, where the assignment appends. *)
Fixpoint assign {A} (l : list A) (i : nat) (x : A) : list A :=
  match l, i with
  | [], _ => [x]
  | _ :: tl, O => x :: tl
  | hd :: tl, S i' => hd :: assign tl i' x
  end.

Definition isSome {A} (o : option A) : bool :=
  match o with Some _ => true | None => false end.

(** The body of the [for] loop of [parseList], run for the [count] line
    numbers from [lineNumber] up to [end]; a [break] returns the lines parsed
    so far. *)
Fixpoint parseListLoop (doc : Text) (count : nat) (lineNumber : Z)
    (contextStack : list ParsedListLine)
    (parsedLines : list (Z * ParsedListLine))
  : list (Z * ParsedListLine) :=
  match count with
  | O => parsedLines
  | S count' =>
      let lineText := lineText doc lineNumber in
      let indentationLevel := getIndentationLevel lineText in
      (* invalid indentation jump *)
      if (List.length contextStack <? indentationLevel)%nat then parsedLines
      else
        (* pop contexts until we are at (or below) the target level *)
        let contextStack := firstn (indentationLevel + 1) contextStack in
        let context :=
          if (indentationLevel <? List.length contextStack)%nat
          then nth_error contextStack indentationLevel else None in
        match parseLine lineText context with
        | None => parsedLines
        | Some current =>
            let parent :=
              if (0 <? indentationLevel)%nat
                 && (indentationLevel <=? List.length contextStack)%nat
              then nth_error contextStack (indentationLevel - 1) else None in
            if negb (isSome context) && negb (isSome parent)
               && (0 <? indentationLevel)%nat
            then parsedLines
            else if (ListType_eqb (type current) Unordered
                     || (ListType_eqb (type current) Numbered
                         && negb match separator current with
                                 | Parentheses => true
                                 | _ => false
                                 end))
                    && (negb (isSome parent) || (indentationLevel =? 0)%nat)
            then parsedLines
            else
              let contextStack :=
                if (List.length contextStack =? indentationLevel)%nat
                then (contextStack ++ [current])%list
                else assign contextStack indentationLevel current in
              parseListLoop doc count' (lineNumber + 1) contextStack
                            (parsedLines ++ [(lineNumber, current)])%list
        end
  end.

Definition parseList (doc : Text) (start end_ : Z)
  : list (Z * ParsedListLine) :=
  parseListLoop doc (iterationsLeft end_ start) start [] [].

(** [Math.max(...list.map(([lineNumber]) => lineNumber))] of a list that is
    not empty. *)
Definition maxLineNumber
    (first : Z * ParsedListLine) (others : list (Z * ParsedListLine)) : Z :=
  fold_left Z.max (map fst others) (fst first).

(** The [while] loop of [parseLists] ends because a list that [parseList]
    returns starts at the line it was asked to start at. *)
Lemma parseListLoop_keeps doc count lineNumber contextStack parsedLines :
  exists more,
    parseListLoop doc count lineNumber contextStack parsedLines
    = (parsedLines ++ more)%list.
Proof.
  revert lineNumber contextStack parsedLines.
  induction count as [|count IH]; intros lineNumber contextStack parsedLines;
    simpl.
  - exists []; now rewrite app_nil_r.
  - repeat match goal with
           | |- context [if ?b then _ else _] => destruct b
           | |- context [match ?o with Some _ => _ | None => _ end] =>
               destruct o
           end;
      try (exists []; now rewrite app_nil_r);
      match goal with
      | |- context [parseListLoop doc count ?n ?st ?pl] =>
          destruct (IH n st pl) as [more ->];
          rewrite <- app_assoc; eexists; reflexivity
      end.
Qed.

Lemma fold_left_max_ge (l : list Z) (n : Z) : n <= fold_left Z.max l n.
Proof.
  revert n; induction l as [|x l IH]; intros n; simpl; [lia|].
  specialize (IH (Z.max n x)); lia.
Qed.

Lemma parseList_first doc start end_ first others :
  parseList doc start end_ = first :: others ->
  start <= maxLineNumber first others.
Proof.
  unfold parseList, maxLineNumber.
  destruct (iterationsLeft end_ start) as [|count]; simpl; [discriminate|].
  repeat match goal with
         | |- context [if ?b then _ else _] => destruct b
         | |- context [match ?o with Some _ => _ | None => _ end] =>
             destruct o
         end;
    try discriminate;
    match goal with
    | |- context [parseListLoop doc count ?n ?st ?pl] =>
        destruct (parseListLoop_keeps doc count n st pl) as [more ->]
    end;
    simpl; intros [= <- <-]; simpl; apply fold_left_max_ge.
Qed.

Definition inspect {A} (a : A) : {b : A | a = b} := exist _ a eq_refl.

Equations? parseListsLoop (doc : Text) (end_ currentLine : Z)
    (parsedLists : list (list (Z * ParsedListLine)))
  : list (list (Z * ParsedListLine))
  by wf (iterationsLeft end_ currentLine) lt :=
  parseListsLoop doc end_ currentLine parsedLists
    with Z_le_dec currentLine end_ => {
    | right _ => parsedLists;
    | left _ with inspect (parseList doc currentLine end_) => {
        | exist _ [] _ =>
            (* no list found at the current line, move to the next *)
            parseListsLoop doc end_ (currentLine + 1) parsedLists;
        | exist _ (first :: others) _ =>
            (* move to the line after the last parsed line *)
            parseListsLoop doc end_ (maxLineNumber first others + 1)
                           (parsedLists ++ [first :: others])%list } }.
Proof.
  - apply iterationsLeft_step; assumption.
  - match goal with
    | H : parseList _ _ _ = _ :: _ |- _ => apply parseList_first in H
    end.
    unfold iterationsLeft; lia.
Qed.

Definition parseLists (doc : Text) (start end_ : Z)
  : list (list (Z * ParsedListLine)) :=
  parseListsLoop doc end_ start [].

(** The reading mode entry point. *)
Definition parseLines (lines : list string)
  : list (list (Z * ParsedListLine)) :=
  parseLists (mockDoc lines) 1 (Z.of_nat (List.length lines)).


(** ** List start detection *)

(** The [while (currentLine >= 1)] loop of [findPotentialListStart], which
    scans backward from the target line; [count] is the number of lines from
    the current one down to line 1. *)
Fixpoint findPotentialListStartLoop (doc : Text) (count : nat)
    (currentLine targetLine : Z) : Z :=
  match count with
  | O => 1 (* reached the beginning of the document *)
  | S count' =>
      match parseLine (lineText doc currentLine) None with
      | None =>
          (* found a non-list line *)
          if currentLine =? targetLine then targetLine else currentLine + 1
      | Some _ =>
          findPotentialListStartLoop doc count' (currentLine - 1) targetLine
      end
  end.

Definition findPotentialListStart (doc : Text) (targetLine : Z) : Z :=
  findPotentialListStartLoop doc (Z.to_nat targetLine) targetLine targetLine.

(** [list.find(([lineNumber]) => lineNumber === targetLine)] *)
Definition findLine (list : list (Z * ParsedListLine)) (targetLine : Z)
  : option (Z * ParsedListLine) :=
  find (fun entry => fst entry =? targetLine) list.

Definition findListForLine (doc : Text) (targetLine : Z)
  : list (Z * ParsedListLine) :=
  let potentialStart := findPotentialListStart doc targetLine in
  let allLists := parseLists doc potentialStart (lines doc) in
  match find (fun list => isSome (findLine list targetLine)) allLists with
  | Some list => list
  | None => []
  end.

End WithSettings.

End Parser.

(* ===================================================================== *)
(** * The editor document                                                  *)
(* ===================================================================== *)

Module CodeMirror.

(** A line of the document: its number (from 1), the offsets of its first
    character and of its end, and its text. *)
Record Line : Type := mkCMLine {
  number : Z;
  from : Z;
  to : Z;
  text : string
}.

(** A document is the list of its lines; a line break takes one offset. *)
Definition Doc : Type := list string.

Definition lines (doc : Doc) : Z := Z.of_nat (List.length doc).

Fixpoint lineLoop (rest : list string) (number from : Z) (skip : nat)
  : result Line :=
  match rest with
  | [] => Throw RangeError
  | t :: rest' =>
      let to := from + Z.of_nat (String.length t) in
      match skip with
      | O => Ok (mkCMLine number from to t)
      | S skip' => lineLoop rest' (number + 1) (to + 1) skip'
      end
  end.

(** [doc.line(n)] *)
Definition line (doc : Doc) (n : Z) : result Line :=
  if n <? 1 then Throw RangeError
  else lineLoop doc 1 0 (Z.to_nat (n - 1)).

Fixpoint lineAtLoop (rest : list string) (number from pos : Z)
  : result Line :=
  match rest with
  | [] => Throw RangeError
  | t :: rest' =>
      let to := from + Z.of_nat (String.length t) in
      if pos <=? to then Ok (mkCMLine number from to t)
      else lineAtLoop rest' (number + 1) (to + 1) pos
  end.

(** [doc.lineAt(pos)] *)
Definition lineAt (doc : Doc) (pos : Z) : result Line :=
  if pos <? 0 then Throw RangeError else lineAtLoop doc 1 0 pos.

(** The parser's view of the document. *)
Definition asText (doc : Doc) : Parser.Text :=
  Parser.mkText
    (fun n => match line doc n with Ok l => text l | Throw _ => EmptyString end)
    (lines doc).

(** [view.state.selection]: whether the main range is empty, the number of
    ranges, and the head of the main range. *)
Record Selection : Type := mkSelection {
  mainEmpty : bool;
  ranges : nat;
  head : Z
}.

Record EditorView : Type := mkView {
  doc : Doc;
  selection : Selection
}.

(** A change: replace the offsets [from, to) by [insert]. *)
Inductive ChangeSpec : Type :=
| Change (from to : Z) (insert : string).

(** The lines of a text: a line ends at each line feed. *)
Fixpoint splitLines (s : string) : list string :=
  match s with
  | EmptyString => [EmptyString]
  | String c rest =>
      if Ascii.eqb c "010" then EmptyString :: splitLines rest
      else
        match splitLines rest with
        | first :: others => String c first :: others
        | [] => [String c EmptyString]
        end
  end.

(** The document after one change.  What the line of [from] has before
    [from], the inserted text and what the line of [to] has from [to] on
    make the new lines, in the place of the lines from the one to the
    other. *)
Definition applyChange (doc : Doc) (change : ChangeSpec) : result Doc :=
  let '(Change from to insert) := change in
  if to <? from then Throw RangeError
  else
    bind (lineAt doc from) (fun first =>
    bind (lineAt doc to) (fun last =>
    let before :=
      substring 0 (Z.to_nat (from - CodeMirror.from first)) (text first) in
    let after :=
      substring (Z.to_nat (to - CodeMirror.from last))
                (String.length (text last)) (text last) in
    Ok (firstn (Z.to_nat (number first - 1)) doc
        ++ splitLines (before ++ insert ++ after)
        ++ skipn (Z.to_nat (number last)) doc)%list)).

(** [view.dispatch(view.state.update({ changes }))]: the document after the
    transaction.  The offsets of all the changes are offsets of the document
    before it, and the changes are in the order of the document: they are
    applied from the last to the first. *)
Definition dispatch (doc : Doc) (changes : list ChangeSpec) : result Doc :=
  fold_right (fun change after => bind after (fun doc => applyChange doc change))
             (Ok doc) changes.

End CodeMirror.

(* ===================================================================== *)
(** * src/editor/key-handler.ts (the handlers that work on a parsed list)  *)
(* ===================================================================== *)

Module KeyHandler.

Import CodeMirror.

Section WithParser.

Variable settings : MoreOrderedListsSettings.

(** [line.correctNextMarker(context, settings)] of types.ts, a method that
    rewrites the marker of [line] as the successor of [context] and can
    throw.  Its definition is not among the sources, so the handlers are
    embedded for every such method: it maps the line and the context to the
    line as the call leaves it, and to the error it throws, if any. *)
Variable correctNextMarker :
  ParsedListLine -> ParsedListLine -> MoreOrderedListsSettings ->
  ParsedListLine * option Error.

Definition level (l : ParsedListLine) : nat :=
  getIndentationLevel (indentation l).

(** ** Context and parent extraction *)

(** The loops of [findContextInList] and [findParentInList] run from the
    last entry of the list to the first. *)
Fixpoint findContextLoop (reversed : list (Z * ParsedListLine))
    (targetLineNumber : Z) (targetIndentationLevel : nat)
  : option ParsedListLine :=
  match reversed with
  | [] => None
  | (lineNumber, parsedLine) :: rest =>
      (* skip the target line itself and any lines after it *)
      if targetLineNumber <=? lineNumber
      then findContextLoop rest targetLineNumber targetIndentationLevel
      else
        let currentIndentationLevel := level parsedLine in
        if (currentIndentationLevel =? targetIndentationLevel)%nat
        then Some parsedLine
        else if (currentIndentationLevel <? targetIndentationLevel)%nat
        then None
        else findContextLoop rest targetLineNumber targetIndentationLevel
  end.

Definition findContextInList (parsedList : list (Z * ParsedListLine))
    (targetLineNumber : Z) (targetIndentationLevel : nat)
  : option ParsedListLine :=
  findContextLoop (List.rev parsedList) targetLineNumber
                  targetIndentationLevel.

Fixpoint findParentLoop (reversed : list (Z * ParsedListLine))
    (targetLineNumber : Z) (parentIndentationLevel : nat)
  : option ParsedListLine :=
  match reversed with
  | [] => None
  | (lineNumber, parsedLine) :: rest =>
      if targetLineNumber <=? lineNumber
      then findParentLoop rest targetLineNumber parentIndentationLevel
      else if (level parsedLine =? parentIndentationLevel)%nat
      then Some parsedLine
      else findParentLoop rest targetLineNumber parentIndentationLevel
  end.

Definition findParentInList (parsedList : list (Z * ParsedListLine))
    (targetLineNumber : Z) (targetIndentationLevel : nat)
  : option ParsedListLine :=
  match targetIndentationLevel with
  | O => None (* already at the top level *)
  | S parentIndentationLevel =>
      findParentLoop (List.rev parsedList) targetLineNumber
                     parentIndentationLevel
  end.

(** The lines of a parsed list are objects that the handlers mutate; the
    list is the store of these objects, and mutating the entry of a line
    number replaces it in the store. *)
Fixpoint store (parsedList : list (Z * ParsedListLine)) (lineNumber : Z)
    (parsedLine : ParsedListLine) : list (Z * ParsedListLine) :=
  match parsedList with
  | [] => []
  | (n, l) :: rest =>
      if n =? lineNumber then (n, parsedLine) :: rest
      else (n, l) :: store rest lineNumber parsedLine
  end.

Definition fixFollowingLineAfterIndentDecrease
    (parsedList : list (Z * ParsedListLine)) (modifiedLineNumber : Z)
    (parentLine : ParsedListLine) : list (Z * ParsedListLine) :=
  match Parser.findLine parsedList (modifiedLineNumber + 1) with
  | None => parsedList
  | Some (_, nextLine) =>
      let nextLineLevel := level nextLine in
      if (nextLineLevel =? level parentLine + 1)%nat then
        let nextLine := setSeparator nextLine (separator parentLine) in
        let nextLine := asFirstMarker nextLine (enableJuraOrdering settings) in
        store parsedList (modifiedLineNumber + 1) nextLine
      else parsedList
  end.

(** [updateMarkerFromContext] returns the line [current] as it leaves it. *)
Definition updateMarkerFromContext (parsedList : list (Z * ParsedListLine))
    (lineNumber : Z) (current : ParsedListLine) : result ParsedListLine :=
  let targetIndentationLevel := level current in
  let context :=
    findContextInList parsedList lineNumber targetIndentationLevel in
  let parent :=
    findParentInList parsedList lineNumber targetIndentationLevel in
  match context, parent with
  | Some context, _ =>
      match correctNextMarker current context settings with
      | (current, None) => Ok current
      | (_, Some e) => Throw e
      end
  | None, Some parent =>
      let current := setSeparator current (separator parent) in
      Ok (asFirstMarker current (enableJuraOrdering settings))
  | None, None => Throw NoContextOrParent
  end.

(** ** Update and reordering *)

(** [contextStack[indentationLevel] = lineToProcess]: an index past the end
    of the array leaves holes before it. *)
Fixpoint assignAt (stack : list (option ParsedListLine)) (i : nat)
    (x : ParsedListLine) : list (option ParsedListLine) :=
  match stack, i with
  | [], O => [Some x]
  | [], S i' => None :: assignAt [] i' x
  | _ :: tl, O => Some x :: tl
  | hd :: tl, S i' => hd :: assignAt tl i' x
  end.

(** One round of the [for ... of parsedList] loop of
    [collectReorderChanges], on the state [(contextStack, changes)]. *)
Definition reorderStep (doc : Doc) (modifiedLineNumber : Z)
    (modifiedLine : ParsedListLine)
    (state : list (option ParsedListLine) * list ChangeSpec)
    (entry : Z * ParsedListLine)
  : result (list (option ParsedListLine) * list ChangeSpec) :=
  let '(contextStack, changes) := state in
  let '(originalLineNumber, parsedLine) := entry in
  let lineToProcess :=
    if originalLineNumber =? modifiedLineNumber then modifiedLine
    else parsedLine in
  let indentationLevel := level lineToProcess in
  (* pop contexts until we are at (or below) the target level *)
  let contextStack := firstn (indentationLevel + 1) contextStack in
  bind
    (if modifiedLineNumber <? originalLineNumber then
       let lineToProcess :=
         match nth indentationLevel contextStack None with
         | Some context =>
             (* try { correctNextMarker } catch { ignore } *)
             fst (correctNextMarker lineToProcess context settings)
         | None => lineToProcess
         end in
       if originalLineNumber <=? lines doc then
         bind (line doc originalLineNumber) (fun currentLine =>
         let correctedText := getLineText lineToProcess in
         if negb (String.eqb (text currentLine) correctedText)
         then Ok (lineToProcess,
                  (changes ++ [Change (from currentLine) (to currentLine)
                                      correctedText])%list)
         else Ok (lineToProcess, changes))
       else Ok (lineToProcess, changes)
     else Ok (lineToProcess, changes))
    (fun '(lineToProcess, changes) =>
       let contextStack :=
         if (List.length contextStack =? indentationLevel)%nat
         then (contextStack ++ [Some lineToProcess])%list
         else assignAt contextStack indentationLevel lineToProcess in
       Ok (contextStack, changes)).

Fixpoint reorderLoop (doc : Doc) (modifiedLineNumber : Z)
    (modifiedLine : ParsedListLine)
    (parsedList : list (Z * ParsedListLine))
    (state : list (option ParsedListLine) * list ChangeSpec)
  : result (list (option ParsedListLine) * list ChangeSpec) :=
  match parsedList with
  | [] => Ok state
  | entry :: rest =>
      bind (reorderStep doc modifiedLineNumber modifiedLine state entry)
           (reorderLoop doc modifiedLineNumber modifiedLine rest)
  end.

(** [collectReorderChanges] returns the array [changes] as it leaves it. *)
Definition collectReorderChanges (view : EditorView)
    (changes : list ChangeSpec) (parsedList : list (Z * ParsedListLine))
    (modifiedLineNumber : Z) (modifiedLine : ParsedListLine)
  : result (list ChangeSpec) :=
  bind (reorderLoop (doc view) modifiedLineNumber modifiedLine parsedList
                    ([], changes))
       (fun '(_, changes) => Ok changes).

(** [applyChanges] dispatches one transaction with the changes, unless there
    is none; the changes it dispatches are its result here (where it puts
    the cursor is left out). *)
Definition applyChanges (view : EditorView) (changes : list ChangeSpec)
    (currentLine : Line) : list ChangeSpec :=
  changes.

Definition updateLineAndReorder (view : EditorView) (currentLine : Line)
    (updatedCurrentLine : ParsedListLine)
    (parsedList : list (Z * ParsedListLine)) : result (list ChangeSpec) :=
  let changes :=
    [Change (from currentLine) (to currentLine)
            (getLineText updatedCurrentLine)] in
  bind (collectReorderChanges view changes parsedList (number currentLine)
                              updatedCurrentLine)
       (fun changes => Ok (applyChanges view changes currentLine)).

Definition insertLineAndReorder (view : EditorView) (currentLine : Line)
    (newLine : ParsedListLine) (parsedList : list (Z * ParsedListLine))
  : result (list ChangeSpec) :=
  let cursor := head (selection view) in
  let changes :=
    [Change cursor cursor (String "010" (getLineText newLine))] in
  bind (collectReorderChanges view changes parsedList (number currentLine)
                              newLine)
       (fun changes => Ok (applyChanges view changes currentLine)).

(** ** The key handlers

    A handler returns whether it handled the key and the changes it
    dispatched to the editor: none when it leaves the document as it is. *)

Definition handled (changes : list ChangeSpec)
  : result (bool * list ChangeSpec) := Ok (true, changes).

Definition notHandled : result (bool * list ChangeSpec) := Ok (false, []).

(** The lines up to the lookup of the current line, common to both
    handlers. *)
Definition currentParsedLine (view : EditorView)
  : result (option (Line * list (Z * ParsedListLine) * ParsedListLine)) :=
  (* only handle single cursor and no selection *)
  if negb (mainEmpty (selection view)) || (1 <? ranges (selection view))%nat
  then Ok None
  else
    let cursor := head (selection view) in
    bind (lineAt (doc view) cursor) (fun currentLine =>
    let parsedList :=
      Parser.findListForLine settings (asText (doc view))
                             (number currentLine) in
    match Parser.findLine parsedList (number currentLine) with
    | None => Ok None
    | Some (_, current) => Ok (Some (currentLine, parsedList, current))
    end).

Definition tabKey (view : EditorView) (shift : bool)
  : result (bool * list ChangeSpec) :=
  bind (currentParsedLine view) (fun found =>
  match found with
  | None => notHandled
  | Some (currentLine, parsedList, current) =>
      let attempt : result (ParsedListLine * list (Z * ParsedListLine)) :=
        if shift then
          (* decrease by one level *)
          bind (decreaseIndentationLevel current) (fun current =>
          bind (updateMarkerFromContext parsedList (number currentLine)
                                        current) (fun current =>
          Ok (current,
              fixFollowingLineAfterIndentDecrease
                parsedList (number currentLine) current)))
        else
          (* increase by one level *)
          let current := increaseIndentationLevel current in
          bind (updateMarkerFromContext parsedList (number currentLine)
                                        current) (fun current =>
          Ok (current, parsedList)) in
      match attempt with
      | Throw _ => notHandled
      | Ok (current, parsedList) =>
          bind (updateLineAndReorder view currentLine current parsedList)
               handled
      end
  end).

(** [content.trim().length > 0] *)
Definition hasText (content : string) : bool :=
  existsb (fun c => negb (isSpace c)) content.

Definition enterKey (view : EditorView) : result (bool * list ChangeSpec) :=
  bind (currentParsedLine view) (fun found =>
  match found with
  | None => notHandled
  | Some (currentLine, parsedList, current) =>
      let cursor := head (selection view) in
      (* only continue the list after z if nested is enabled *)
      bind (if ListType_eqb (type current) Alphabetical
            then bind (getValue current
                         (isRepeated (nestedAlphabeticalMode settings)))
                      (fun value =>
                         Ok (match value with
                             | Some v => v =? 26
                             | None => false
                             end
                             && isDisabled (nestedAlphabeticalMode settings)))
            else Ok false) (fun afterZ =>
      if afterZ then notHandled
      else
        (* only continue the list when enter would not break the list *)
        let prefixLength :=
          Z.of_nat (String.length (getLineText current))
          - Z.of_nat (String.length (content current)) in
        if cursor <? from currentLine + prefixLength then notHandled
        else if hasText (content current) then
          (* create the next line with the corrected marker *)
          let newLine := current (* current.clone() *) in
          match correctNextMarker newLine current settings with
          | (_, Some _) => notHandled
          | (newLine, None) =>
              let newLine := setContent newLine "" in
              match insertLineAndReorder view currentLine newLine parsedList
              with
              | Throw _ => notHandled
              | Ok changes => handled changes
              end
          end
        else
          (* empty item: decrease the indentation or break the list *)
          let attempt : result (ParsedListLine * list (Z * ParsedListLine)) :=
            bind (decreaseIndentationLevel current) (fun current =>
            bind (updateMarkerFromContext parsedList (number currentLine)
                                          current) (fun current =>
            let parsedList :=
              fixFollowingLineAfterIndentDecrease
                parsedList (number currentLine) current in
            Ok (setContent current "", parsedList))) in
          match attempt with
          | Throw _ =>
              (* cannot decrease further: break the list by clearing the
                 line *)
              let changes :=
                [Change (from currentLine) (to currentLine) ""] in
              handled (applyChanges view changes currentLine)
          | Ok (current, parsedList) =>
              bind (updateLineAndReorder view currentLine current parsedList)
                   handled
          end)
  end).

End WithParser.

End KeyHandler.

(* ===================================================================== *)
(** * The successor marker, from the specification                         *)
(* ===================================================================== *)

Module SpecModel.

(** [value.toString()] of an integer below 10^21, which is written with all
    its digits. *)
Definition toString (value : Z) : string :=
  DecimalString.NilZero.string_of_int (Z.to_int value).

(** Modelled from the spec: [ParsedListLine.correctNextMarker] of types.ts,
    which the key handlers call and which is not among the sources.  The
    specification of the resequencer has the marker become
    [encode(decode(contextMarker) + 1)] under the system of the line, in the
    case style of the context and with the separator of the context, and has
    the request fail where the codec cannot encode the successor or where an
    Alphabetical value cannot advance because nesting is disabled and the
    alphabet is exhausted.  A bullet carries no value and is left as it is.
    The codec functions are those of types.ts and parser.ts. *)
Definition correctNextMarker (self context : ParsedListLine)
    (settings : MoreOrderedListsSettings) : ParsedListLine * option Error :=
  let finish (generated : result string) :=
    match generated with
    | Ok m =>
        (mkLine (type self) (indentation self) (applyCaseStyle context m)
                (separator context) (content self), None)
    | Throw e => (self, Some e)
    end in
  match type self with
  | Unordered => (self, None)
  | _ =>
      match getValue context (isRepeated (nestedAlphabeticalMode settings))
      with
      | Throw e => (self, Some e)
      | Ok None => finish (Ok "NaN")
      | Ok (Some value) =>
          let expectedValue := value + 1 in
          match type self with
          | Roman => finish (generateRomanMarker expectedValue)
          | Numbered => finish (Ok (toString expectedValue))
          | _ =>
              if (26 <? expectedValue)
                 && isDisabled (nestedAlphabeticalMode settings)
              then (self, Some AlphabeticalValueOutOfRange)
              else finish (generateAlphabeticalMarker settings expectedValue)
          end
      end
  end.

End SpecModel.

(* ===================================================================== *)
(** * src/unnamed/part_001: the parser that corrects markers              *)
(* ===================================================================== *)

(** The parser of [src/unnamed/part_001] is the one the marker generators
    above belong to.  It has the marker and separator patterns and the
    validator of [src/parser.ts], no bullet lines, and it rewrites the marker
    of a line that has a context while it parses: [createResult] replaces it
    by the successor of the context's marker.  It goes with the
    [ParsedListLine] of [src/main.ts], whose content keeps the space after
    the separator. *)
Module CorrectingParser.

Section WithSettings.

Variable settings : MoreOrderedListsSettings.

(** ** List type *)

(** The checks of [determineListType] that need no context. *)
Definition typeOfMarker (marker : string) : option ListType :=
  if match parseInt marker with Some _ => true | None => false end
  then Some Numbered
  else if Parser.isValidRomanNumeral marker && enableRomanLists settings
  then Some Roman
  else if (String.length marker =? 1)%nat && enableAlphabeticalLists settings
  then Some Alphabetical
  else if (1 <? String.length marker)%nat
          && negb (isDisabled (nestedAlphabeticalMode settings))
  then Some NestedAlphabetical
  else None.

(** With a context its type decides; [context.getValue] is called, and can
    throw, only for a marker of at most one character after an Alphabetical
    context. *)
Definition determineListType
    (marker : string) (context : option ParsedListLine)
  : result (option ListType) :=
  match context with
  | Some context =>
      match type context with
      | Alphabetical =>
          (* the transition to nested *)
          bind (if (1 <? String.length marker)%nat then Ok true
                else
                  bind (getValue context
                          (isRepeated (nestedAlphabeticalMode settings)))
                       (fun value =>
                          Ok match value with
                             | Some v => v =? 26
                             | None => false
                             end))
               (fun transition =>
                  if transition then
                    if negb (isDisabled (nestedAlphabeticalMode settings))
                    then Ok (Some NestedAlphabetical)
                    else Ok None
                  else Ok (Some Alphabetical))
      | contextType => Ok (Some contextType)
      end
  | None => Ok (typeOfMarker marker)
  end.

(** ** Marker sequence *)

(** [value.toString()] of an integer below 10^21, which is written with all
    its digits. *)
Definition toString (value : Z) : string :=
  DecimalString.NilZero.string_of_int (Z.to_int value).

(** [correctMarker].  The expected value is NaN ([None]) when the value of
    the context is; every comparison with NaN is false, so the Roman and the
    bijective generator then leave their loops at once with the empty
    string, the repeated-letters generator runs its loop to the [throw], and
    [toString] gives "NaN".  The [switch] has a case for each member of the
    [ListType] of this version; [Unordered], which that enum does not have,
    is the type of the line only where it is the type of the context, whose
    [getValue] has thrown by then. *)
Definition correctMarker (type : ListType) (context : ParsedListLine)
  : result string :=
  bind (getValue context (isRepeated (nestedAlphabeticalMode settings)))
       (fun value =>
  let expectedValue := option_map (fun v => fl (v + 1)) value in
  match type with
  | Roman =>
      bind (match expectedValue with
            | Some v => generateRomanMarker v
            | None => Ok ""
            end)
           (fun generated => Ok (applyCaseStyle context generated))
  | Alphabetical | NestedAlphabetical =>
      bind (match expectedValue with
            | Some v => generateAlphabeticalMarker settings v
            | None =>
                if isRepeated (nestedAlphabeticalMode settings)
                then Throw TooLargeForRepeatedLetters
                else Ok ""
            end)
           (fun generated => Ok (applyCaseStyle context generated))
  | Numbered =>
      Ok match expectedValue with
         | Some v => toString v
         | None => "NaN"
         end
  | Unordered => Throw UnknownListType
  end).

(** ** Create ParsedListLine *)

Definition createResult (indentation marker : string)
    (separator : ListSeparator) (content : string)
    (context : option ParsedListLine) : result (option ParsedListLine) :=
  bind (determineListType marker context) (fun listType =>
  match listType with
  | None => Ok None
  | Some listType =>
      bind (match context with
            | Some context =>
                (* use the context to correct the marker, and inherit its
                   separator *)
                bind (correctMarker listType context) (fun marker =>
                Ok (marker, Types.separator context))
            | None => Ok (marker, separator)
            end)
           (fun '(marker, separator) =>
              Ok (Some (mkLine listType indentation marker separator
                               (* add the space back *)
                               (String " " content))))
  end).

(** [parseLine]: the standard pattern, then the double parentheses. *)
Definition parseLine (lineText : string) (context : option ParsedListLine)
  : result (option ParsedListLine) :=
  match exec (Parser.standardRegex settings) lineText with
  | Some m =>
      createResult (group m 0) (group m 1)
                   (Parser.asListSeparator (group m 2)) (group m 3) context
  | None =>
  if enableParentheses settings then
    match exec (Parser.parenthesesPattern settings) lineText with
    | Some m =>
        createResult (group m 0) (group m 1) Parentheses (group m 2) context
    | None => Ok None
    end
  else Ok None
  end.

(** ** Context and parent *)

(** The loops of [findContext] and [findParent] run from the last line
    parsed to the first. *)
Fixpoint findContextLoop (level : nat) (reversed : list (Z * ParsedListLine))
  : option ParsedListLine :=
  match reversed with
  | [] => None
  | (_, lineData) :: rest =>
      if (getIndentationLevel (indentation lineData) =? level)%nat
      then Some lineData
      else if (getIndentationLevel (indentation lineData) <? level)%nat
      then None
      else findContextLoop level rest
  end.

Definition findContext (level : nat) (parsedLines : list (Z * ParsedListLine))
  : option ParsedListLine :=
  findContextLoop level (List.rev parsedLines).

(** [level - 1] is -1 for the level 0: the comparisons are on integers. *)
Fixpoint findParentLoop (level : nat) (reversed : list (Z * ParsedListLine))
  : option ParsedListLine :=
  match reversed with
  | [] => None
  | (_, lineData) :: rest =>
      let lineLevel := Z.of_nat (getIndentationLevel (indentation lineData)) in
      if lineLevel + 1 =? Z.of_nat level then Some lineData
      else if lineLevel <? Z.of_nat level - 1 then None
      else findParentLoop level rest
  end.

Definition findParent (level : nat) (parsedLines : list (Z * ParsedListLine))
  : option ParsedListLine :=
  findParentLoop level (List.rev parsedLines).

(** ** Parsing a list *)

(** The first loop of [parseList] goes back from [start] while the lines
    parse without a context, for the [count] line numbers down to 1.  It
    ends by [return []] ([None]), or with the value of [listStart]. *)
Fixpoint listStartLoop (doc : Parser.Text) (count : nat) (listStart start : Z)
  : result (option Z) :=
  match count with
  | O => Ok (Some listStart)
  | S count' =>
      bind (parseLine (Parser.lineText doc listStart) None) (fun parsed =>
      match parsed with
      | None =>
          (* the start itself is not a valid list *)
          if listStart =? start then Ok None else Ok (Some listStart)
      | Some _ => listStartLoop doc count' (listStart - 1) start
      end)
  end.

(** The second loop, for the [count] line numbers from [lineNumber] up to
    [end]; a [break] returns the lines parsed so far. *)
Fixpoint parseListLoop (doc : Parser.Text) (count : nat) (lineNumber : Z)
    (parsedLines : list (Z * ParsedListLine))
  : result (list (Z * ParsedListLine)) :=
  match count with
  | O => Ok parsedLines
  | S count' =>
      let lineText := Parser.lineText doc lineNumber in
      let indentationLevel := Parser.getIndentationLevel lineText in
      let context := findContext indentationLevel parsedLines in
      bind (parseLine lineText context) (fun current =>
      match current with
      | None => Ok parsedLines
      | Some current =>
          let parent := findParent indentationLevel parsedLines in
          let currentLevel := getIndentationLevel (indentation current) in
          (* only parse if we are in a list or at the top level *)
          if negb (Parser.isSome context) && negb (Parser.isSome parent)
             && (0 <? currentLevel)%nat
          then Ok parsedLines
          (* numbers with a dot or one parenthesis at the top level *)
          else if ListType_eqb (type current) Numbered
                  && negb match separator current with
                          | Parentheses => true
                          | _ => false
                          end
                  && (currentLevel =? 0)%nat
                  && negb (Parser.isSome context)
                  && negb (Parser.isSome parent)
          then Ok parsedLines
          else parseListLoop doc count' (lineNumber + 1)
                             (parsedLines ++ [(lineNumber, current)])%list
      end)
  end.

Definition parseList (doc : Parser.Text) (start end_ : Z)
  : result (list (Z * ParsedListLine)) :=
  bind (listStartLoop doc (Z.to_nat start) start start) (fun found =>
  match found with
  | None => Ok []
  | Some listStart =>
      (* the last line was valid, so it is our start *)
      let listStart :=
        if negb (listStart =? start) then listStart + 1 else listStart in
      bind (parseListLoop doc (iterationsLeft end_ listStart) listStart [])
           (fun parsedLines =>
      (* the start line is not included in the parsed lines *)
      match List.rev parsedLines with
      | (lastLineNumber, _) :: _ =>
          if lastLineNumber <? start then Ok [] else Ok parsedLines
      | [] => Ok parsedLines
      end)
  end).

(** [parseLines] of the reading mode: [None] is [null]. *)
Definition parseLines (lines : list string)
  : result (option (list ParsedListLine)) :=
  bind (parseList (Parser.mockDoc lines) 1 (Z.of_nat (List.length lines)))
       (fun parsedList =>
  match parsedList with
  | [] => Ok None
  | _ => Ok (Some (map snd parsedList))
  end).

End WithSettings.

End CorrectingParser.

(* ===================================================================== *)
(** * src/editor/key-handler.ts (the handlers that dispatch, then parse   *)
(** * again)                                                               *)
(* ===================================================================== *)

(** The key handler of [src/src/editor/key-handler.ts] goes with the parser
    of [src/unnamed/part_001] and the [ParsedListLine] of [src/main.ts].  It
    dispatches the change of the edited line, and then [reorder] parses the
    list in the document as it is after that change, where the parser
    corrects the markers, and dispatches the lines that differ.  A handler
    is a function from the editor to the document it leaves and to its
    answer, or to the exception that leaves it; where it puts the cursor is
    left out. *)
Module ReparsingKeyHandler.

Import CodeMirror.

Section WithSettings.

Variable settings : MoreOrderedListsSettings.

(** ** Helpers *)

Definition getCurrentParsedLine (view : EditorView)
  : result (option (Line * ParsedListLine)) :=
  (* only handle single cursor and no selection *)
  if negb (mainEmpty (selection view)) || (1 <? ranges (selection view))%nat
  then Ok None
  else
    let cursor := head (selection view) in
    bind (lineAt (doc view) cursor) (fun currentLine =>
    bind (CorrectingParser.parseList settings (asText (doc view))
            (number currentLine) (lines (doc view))) (fun parsedList =>
    match Parser.findLine parsedList (number currentLine) with
    | None => Ok None
    | Some (_, current) => Ok (Some (currentLine, current))
    end)).

(** The [for ... of parsedList] loop of [reorder], on the array [changes]. *)
Fixpoint reorderLoop (doc : Doc) (fromLineNumber : Z)
    (parsedList : list (Z * ParsedListLine)) (changes : list ChangeSpec)
  : result (list ChangeSpec) :=
  match parsedList with
  | [] => Ok changes
  | (key, parsed) :: rest =>
      (* only update lines starting at fromLineNumber *)
      if key <? fromLineNumber
      then reorderLoop doc fromLineNumber rest changes
      else
        bind (line doc key) (fun currentLine =>
        let newText := getLineText parsed in
        (* don't update if unchanged *)
        if String.eqb (text currentLine) newText
        then reorderLoop doc fromLineNumber rest changes
        else
          reorderLoop doc fromLineNumber rest
            (changes ++ [Change (from currentLine) (to currentLine) newText])%list)
  end.

(** [reorder]: the document it leaves, and whether it returns or throws. *)
Definition reorder (doc : Doc) (fromLineNumber : Z) : Doc * result unit :=
  match
    bind (CorrectingParser.parseList settings (asText doc) fromLineNumber
            (lines doc))
         (fun parsedList => reorderLoop doc fromLineNumber parsedList [])
  with
  | Throw e => (doc, Throw e)
  | Ok [] => (doc, Ok tt)
  | Ok changes =>
      match bind (line doc fromLineNumber) (fun _ => dispatch doc changes) with
      | Throw e => (doc, Throw e)
      | Ok after => (after, Ok tt)
      end
  end.

Definition updateLineAndReorder (doc : Doc) (line : Line) (text : string)
  : Doc * result unit :=
  match dispatch doc [Change (from line) (to line) text] with
  | Throw e => (doc, Throw e)
  | Ok after => reorder after (number line)
  end.

(** The handler answers true when the reordering returns. *)
Definition handled (outcome : Doc * result unit) : Doc * result bool :=
  (fst outcome, bind (snd outcome) (fun _ => Ok true)).

(** ** Tab (+ Shift) *)

Definition tabKey (view : EditorView) (shift : bool) : Doc * result bool :=
  match getCurrentParsedLine view with
  | Throw e => (doc view, Throw e)
  | Ok None => (doc view, Ok false)
  | Ok (Some (currentLine, current)) =>
      match
        (if shift then
           (* decrease by one level: try { } catch { return false } *)
           decreaseIndentationLevel current
         else
           (* increase by one level *)
           Ok (increaseIndentationLevel current))
      with
      | Throw _ => (doc view, Ok false)
      | Ok current =>
          (* update marker - this might be wrong but reorderer will fix it *)
          let current := asFirstMarker current (enableJuraOrdering settings) in
          handled (updateLineAndReorder (doc view) currentLine
                                        (getLineText current))
      end
  end.

(** ** Enter *)

Definition enterKey (view : EditorView) : Doc * result bool :=
  match getCurrentParsedLine view with
  | Throw e => (doc view, Throw e)
  | Ok None => (doc view, Ok false)
  | Ok (Some (currentLine, current)) =>
      let cursor := head (selection view) in
      (* only continue the list after z if nested is enabled *)
      match
        (if ListType_eqb (type current) Alphabetical
         then bind (getValue current
                      (isRepeated (nestedAlphabeticalMode settings)))
                   (fun value =>
                      Ok (match value with
                          | Some v => v =? 26
                          | None => false
                          end
                          && isDisabled (nestedAlphabeticalMode settings)))
         else Ok false)
      with
      | Throw e => (doc view, Throw e)
      | Ok true => (doc view, Ok false)
      | Ok false =>
          let hasContent := KeyHandler.hasText (content current) in
          (* remove the content *)
          let current := setContent current " " in
          (* only continue the list when enter would not break the list *)
          if cursor
             <? from currentLine
                + Z.of_nat (String.length (getLineText current))
          then (doc view, Ok false)
          else if hasContent then
            (* create the next line *)
            let nextLineText := String "010" (getLineText current) in
            (* 1. insert the new line *)
            match dispatch (doc view) [Change cursor cursor nextLineText] with
            | Throw e => (doc view, Throw e)
            | Ok inserted =>
                (* 2. reorder *)
                match
                  lineAt inserted
                         (cursor + Z.of_nat (String.length nextLineText))
                with
                | Throw e => (inserted, Throw e)
                | Ok nextLine => handled (reorder inserted (number nextLine))
                end
            end
          else
            (* when no content decrease indentation or break the list *)
            let updatedLineText :=
              match decreaseIndentationLevel current with
              | Ok current =>
                  getLineText
                    (asFirstMarker current (enableJuraOrdering settings))
              | Throw _ =>
                  (* if no indentation is left, break the list by removing
                     the marker *)
                  EmptyString
              end in
            handled (updateLineAndReorder (doc view) currentLine
                                          updatedLineText)
      end
  end.

End WithSettings.

End ReparsingKeyHandler.

(* ===================================================================== *)
(** * Properties                                                           *)
(* ===================================================================== *)

(** Integer arithmetic stays folded under [simpl]. *)
#[local] Arguments Z.add : simpl never.
#[local] Arguments Z.sub : simpl never.
#[local] Arguments Z.mul : simpl never.
#[local] Arguments Z.pow : simpl never.
#[local] Arguments Z.div : simpl never.
#[local] Arguments Z.modulo : simpl never.
#[local] Arguments Z.rem : simpl never.
#[local] Arguments Z.of_nat : simpl never.
#[local] Arguments Z.to_nat : simpl never.
#[local] Arguments Z.leb : simpl never.
#[local] Arguments Z.ltb : simpl never.
#[local] Arguments Z.gtb : simpl never.
#[local] Arguments Z.eqb : simpl never.

(** Boolean comparisons of integers become propositions for [lia]. *)
Ltac zbool :=
  repeat match goal with
         | H : (_ <=? _) = true |- _ => apply Z.leb_le in H
         | H : (_ <=? _) = false |- _ => apply Z.leb_gt in H
         | H : (_ <? _) = true |- _ => apply Z.ltb_lt in H
         | H : (_ <? _) = false |- _ => apply Z.ltb_ge in H
         | H : (_ =? _) = true |- _ => apply Z.eqb_eq in H
         | H : (_ =? _) = false |- _ => apply Z.eqb_neq in H
         end.

(** ** Characters and strings *)

Lemma append_nil_r s : s ++ "" = s.
Proof. induction s as [|c s IH]; simpl; [reflexivity|now rewrite IH]. Qed.

Lemma append_assoc s t u : (s ++ t) ++ u = s ++ (t ++ u).
Proof. induction s as [|c s IH]; simpl; [reflexivity|now rewrite IH]. Qed.

Lemma append_length s t :
  String.length (s ++ t) = (String.length s + String.length t)%nat.
Proof. induction s as [|c s IH]; simpl; [reflexivity|now rewrite IH]. Qed.

Lemma charCode_fromCharCode n : 0 <= n < 256 -> charCode (fromCharCode n) = n.
Proof.
  intros H; unfold charCode, fromCharCode.
  rewrite N_ascii_embedding by lia. lia.
Qed.

Lemma toLowerChar_lower c : isLower c = true -> toLowerChar c = c.
Proof.
  unfold toLowerChar, isLower, isUpper, inRange; intros H.
  destruct (_ || _) eqn:E; [|reflexivity]. lia.
Qed.

Lemma toLowerCase_lower s : forallb isLower s = true -> toLowerCase s = s.
Proof.
  induction s as [|c s IH]; simpl; [reflexivity|].
  intros [Hc Hs]%andb_prop. now rewrite toLowerChar_lower, IH.
Qed.

Lemma toLowerCase_app s t :
  toLowerCase (s ++ t) = toLowerCase s ++ toLowerCase t.
Proof. induction s as [|c s IH]; simpl; [reflexivity|now rewrite IH]. Qed.

Lemma repeat_length c n : String.length (repeat c n) = n.
Proof. induction n as [|n IH]; simpl; [reflexivity|now rewrite IH]. Qed.

Lemma toLowerCase_repeat c n :
  toLowerCase (repeat c n) = repeat (toLowerChar c) n.
Proof. induction n as [|n IH]; simpl; [reflexivity|now rewrite IH]. Qed.

Lemma forallb_eqb_repeat c s :
  forallb (Ascii.eqb c) s = true <-> s = repeat c (String.length s).
Proof.
  induction s as [|d s IH]; simpl; [tauto|].
  rewrite andb_true_iff, Ascii.eqb_eq, IH. split.
  - intros [-> E]. now rewrite <- E.
  - intros [= -> E]. now rewrite <- E.
Qed.

(** A bounded universal statement over integers, decided by evaluation. *)
Definition allBetween (lo : Z) (count : nat) (p : Z -> bool) : bool :=
  List.forallb p (map (fun i => lo + Z.of_nat i) (seq 0 count)).

Lemma allBetween_spec lo count p :
  allBetween lo count p = true ->
  forall v, lo <= v < lo + Z.of_nat count -> p v = true.
Proof.
  unfold allBetween; rewrite forallb_forall; intros H v Hv.
  apply H, in_map_iff. exists (Z.to_nat (v - lo)); split; [lia|].
  apply in_seq; lia.
Qed.

(** ** The bijective base-26 codec *)

(** The value of a string of lower-case letters, position by position. *)
Fixpoint letterSum (s : string) : Z :=
  match s with
  | EmptyString => 0
  | String c rest =>
      (charCode c - 96) * 26 ^ Z.of_nat (String.length rest) + letterSum rest
  end.

Lemma isLower_code c : isLower c = true <-> 1 <= charCode c - 96 <= 26.
Proof. unfold isLower, inRange. rewrite andb_true_iff. lia. Qed.

(** ** Doubles

    An integer up to 2^53 is a double, and the quotient of one by 26 loses
    nothing that [Math.floor] keeps. *)
Lemma fl_small x : Z.abs x <= 9007199254740992 -> fl x = x.
Proof.
  intros H. unfold fl. destruct (Z.abs x <=? _) eqn:E; [reflexivity|].
  apply Z.leb_gt in E. lia.
Qed.

Lemma roundQuotient_up n d :
  0 < d -> roundQuotient n d = n / d + 1 -> d <= 2 * (n mod d).
Proof.
  intros Hd. unfold roundQuotient.
  destruct (2 * (n mod d) <? d) eqn:E1; [lia|].
  apply Z.ltb_ge in E1. intros _. exact E1.
Qed.

Lemma floorDiv_exact x :
  0 <= x <= 9007199254740992 -> floorDiv x 26 = x / 26.
Proof.
  intros Hx. unfold floorDiv.
  destruct (x <? 26) eqn:E.
  - apply Z.ltb_lt in E. symmetry. apply Z.div_small. lia.
  - apply Z.ltb_ge in E.
    assert (Hq : 1 <= x / 26) by (apply Z.div_le_lower_bound; lia).
    assert (Hlog : Z.log2 (x / 26) < 49).
    { apply Z.log2_lt_pow2; [lia|].
      apply Z.div_lt_upper_bound; [lia|].
      change (2 ^ 49) with 562949953421312. lia. }
    pose proof (Z.log2_nonneg (x / 26)).
    destruct (0 <=? 52 - Z.log2 (x / 26)) eqn:Ee; [|apply Z.leb_gt in Ee; lia].
    set (e := 52 - Z.log2 (x / 26)) in *.
    assert (HP : 16 <= 2 ^ e).
    { change 16 with (2 ^ 4). apply Z.pow_le_mono_r; lia. }
    set (P := 2 ^ e) in *. clearbody P. clear Ee.
    pose proof (roundQuotient_bounds (x * P) 26 ltac:(lia)) as [Hq1 Hq2].
    pose proof (Z.div_mod (x * P) 26 ltac:(lia)) as Hdm.
    pose proof (Z.mod_pos_bound (x * P) 26 ltac:(lia)) as Hmb.
    pose proof (Z.div_mod x 26 ltac:(lia)) as Hdx.
    pose proof (Z.mod_pos_bound x 26 ltac:(lia)) as Hmx.
    symmetry.
    apply Z.div_unique with (r := roundQuotient (x * P) 26 - P * (x / 26)).
    + left. split.
      * nia.
      * destruct (Z.eq_dec (roundQuotient (x * P) 26) (x * P / 26 + 1))
          as [Hup|Hno].
        -- apply roundQuotient_up in Hup; [|lia]. nia.
        -- nia.
    + lia.
Qed.

Lemma letterSum_nonneg s : forallb isLower s = true -> 0 <= letterSum s.
Proof.
  induction s as [|c s IH]; cbn [forallb letterSum]; [lia|].
  intros [Hc Hs]%andb_prop. apply isLower_code in Hc.
  specialize (IH Hs). assert (0 < 26 ^ Z.of_nat (String.length s))
    by (apply Z.pow_pos_nonneg; lia). nia.
Qed.

(** The decoder's sums are exact as long as the value is a double. *)
Lemma bijectiveLoop_letters s : forall value,
  forallb isLower s = true ->
  0 <= value -> value + letterSum s <= 9007199254740992 ->
  bijectiveLoop s value = Ok (value + letterSum s).
Proof.
  induction s as [|c s IH]; intros value; cbn [forallb bijectiveLoop letterSum].
  - intros _ _ _. f_equal; lia.
  - intros [Hc Hs]%andb_prop Hvalue Hbound. apply isLower_code in Hc.
    destruct (_ || _) eqn:E; [lia|].
    pose proof (letterSum_nonneg s Hs) as Hrest.
    assert (Hpow : 0 < 26 ^ Z.of_nat (String.length s))
      by (apply Z.pow_pos_nonneg; lia).
    unfold pow. rewrite (fl_small (26 ^ _)) by nia.
    rewrite (fl_small (_ * _)) by nia.
    rewrite fl_small by nia.
    rewrite IH by (try assumption; nia). f_equal; lia.
Qed.

Lemma standardLoop_iteration remaining result :
  remaining <= 9007199254740992 ->
  standardLoop remaining result
  = if 0 <? remaining then
      standardLoop ((remaining - 1) / 26)
        (String (fromCharCode (96 + (Z.rem (remaining - 1) 26 + 1))) result)
    else result.
Proof.
  intros Hbound. rewrite standardLoop_equation_1.
  destruct (Z_gt_dec remaining 0) as [Hgt|Hle]; simpl;
    destruct (0 <? remaining) eqn:E; zbool; try lia; [|reflexivity].
  rewrite fl_small by lia. rewrite floorDiv_exact by lia. reflexivity.
Qed.

Lemma standardLoop_spec remaining :
  0 <= remaining <= 9007199254740992 ->
  forall result,
    forallb isLower result = true ->
    forallb isLower (standardLoop remaining result) = true
    /\ letterSum (standardLoop remaining result)
       = remaining * 26 ^ Z.of_nat (String.length result) + letterSum result.
Proof.
  intros [Hpos Hbound]; generalize Hbound; generalize Hpos; pattern remaining.
  apply Z_lt_induction; [|exact Hpos].
  clear remaining Hpos Hbound; intros remaining IH Hpos Hbound result Hres.
  rewrite standardLoop_iteration by assumption.
  destruct (0 <? remaining) eqn:Hgt; zbool.
  - set (r1 := remaining - 1).
    assert (Hrem : Z.rem r1 26 = r1 mod 26) by (apply Z.rem_mod_nonneg; lia).
    pose proof (Z.mod_pos_bound r1 26 ltac:(lia)) as Hmod.
    pose proof (Z.div_mod r1 26 ltac:(lia)) as Hdiv.
    assert (Hq : 0 <= r1 / 26 < remaining).
    { split; [apply Z.div_pos; lia|apply Z.div_lt_upper_bound; lia]. }
    rewrite Hrem.
    destruct (IH (r1 / 26) Hq (proj1 Hq) ltac:(lia)
                 (String (fromCharCode (96 + (r1 mod 26 + 1))) result))
      as [Hlow Hsum].
    + simpl. rewrite Hres, andb_true_r. apply isLower_code.
      rewrite charCode_fromCharCode; lia.
    + split; [exact Hlow|]. rewrite Hsum; simpl.
      rewrite charCode_fromCharCode by lia.
      rewrite Nat2Z.inj_succ, Z.pow_succ_r by lia. lia.
  - split; [assumption|]. lia.
Qed.

Lemma letterSum_snoc s c :
  letterSum (s ++ String c "") = 26 * letterSum s + (charCode c - 96).
Proof.
  induction s as [|d s IH]; cbn [append letterSum String.length].
  - change (Z.of_nat 0) with 0. lia.
  - rewrite IH, append_length. cbn [String.length].
    replace (Z.of_nat (String.length s + 1)) with (Z.of_nat (String.length s) + 1)
      by lia.
    rewrite Z.pow_add_r by lia. lia.
Qed.

Lemma letterSum_positive s :
  forallb isLower s = true -> s <> "" -> 1 <= letterSum s.
Proof.
  destruct s as [|c s]; [congruence|]. cbn [forallb letterSum].
  intros [Hc Hs]%andb_prop _. apply isLower_code in Hc.
  pose proof (letterSum_nonneg s Hs).
  assert (0 < 26 ^ Z.of_nat (String.length s))
    by (apply Z.pow_pos_nonneg; lia). nia.
Qed.

Lemma string_snoc s :
  s <> "" -> exists s' c, s = s' ++ String c "".
Proof.
  induction s as [|d s IH]; [congruence|]. intros _.
  destruct s as [|e s].
  - exists "", d. reflexivity.
  - destruct IH as (s' & c & ->); [discriminate|].
    exists (String d s'), c. reflexivity.
Qed.

Lemma forallb_app p s t :
  forallb p (s ++ t) = forallb p s && forallb p t.
Proof.
  induction s as [|c s IH]; simpl; [reflexivity|].
  now rewrite IH, andb_assoc.
Qed.

(** The value of a string of [n] letters is below [26 ^ (n + 1) / 25]. *)
Lemma letterSum_bound s :
  forallb isLower s = true ->
  25 * letterSum s <= 26 ^ (Z.of_nat (String.length s) + 1) - 26.
Proof.
  induction s as [|c s IH]; cbn [forallb letterSum String.length].
  - intros _. change (26 ^ (Z.of_nat 0 + 1)) with 26. lia.
  - intros [Hc Hs]%andb_prop. apply isLower_code in Hc. specialize (IH Hs).
    rewrite Nat2Z.inj_succ.
    replace (Z.succ (Z.of_nat (String.length s)) + 1)
      with (Z.succ (Z.of_nat (String.length s) + 1)) by lia.
    rewrite Z.pow_succ_r by lia.
    rewrite Z.pow_add_r in * by lia. change (26 ^ 1) with 26 in *.
    assert (0 < 26 ^ Z.of_nat (String.length s))
      by (apply Z.pow_pos_nonneg; lia).
    nia.
Qed.

(** A marker of at most 11 letters has a value that is a double. *)
Lemma letterSum_safe s :
  forallb isLower s = true -> (String.length s <= 11)%nat ->
  letterSum s <= MAX_SAFE_INTEGER.
Proof.
  intros Hlow Hlen. pose proof (letterSum_bound s Hlow) as Hb.
  assert (Hpow : 26 ^ (Z.of_nat (String.length s) + 1) <= 26 ^ 12)
    by (apply Z.pow_le_mono_r; lia).
  change (26 ^ 12) with 95428956661682176 in Hpow.
  unfold MAX_SAFE_INTEGER. lia.
Qed.

(** The encoder's loop rebuilds a string of lower-case letters from its
    value, last letter first. *)
Lemma standardLoop_encodes n : forall s result,
  String.length s = n -> forallb isLower s = true ->
  letterSum s <= 9007199254740992 ->
  standardLoop (letterSum s) result = s ++ result.
Proof.
  induction n as [|n IH]; intros s result Hlen Hlow Hbound.
  - destruct s; [|discriminate]. now rewrite standardLoop_iteration.
  - destruct (string_snoc s) as (s' & c & ->);
      [intros ->; discriminate|].
    rewrite forallb_app in Hlow. apply andb_prop in Hlow as [Hs' Hc].
    simpl in Hc. rewrite andb_true_r in Hc. apply isLower_code in Hc.
    rewrite append_length in Hlen. simpl in Hlen.
    pose proof (letterSum_nonneg s' Hs') as Hpos.
    rewrite letterSum_snoc in *. rewrite standardLoop_iteration by assumption.
    destruct (0 <? _) eqn:E; zbool; [|lia].
    assert (Hq : (26 * letterSum s' + (charCode c - 96) - 1) / 26
                 = letterSum s')
      by (symmetry; apply (Z.div_unique _ _ _ (charCode c - 97)); lia).
    assert (Hr : Z.rem (26 * letterSum s' + (charCode c - 96) - 1) 26
                 = charCode c - 97).
    { rewrite Z.rem_mod_nonneg by lia.
      symmetry; apply (Z.mod_unique _ _ (letterSum s')); lia. }
    rewrite Hq, Hr.
    replace (96 + (charCode c - 97 + 1)) with (charCode c) by lia.
    unfold fromCharCode, charCode. rewrite N2Z.id, ascii_N_embedding.
    rewrite IH by (auto; lia). now rewrite append_assoc.
Qed.

Lemma toLowerCase_letters m :
  forallb (fun c => isLower c || isUpper c) m = true ->
  forallb isLower (toLowerCase m) = true.
Proof.
  induction m as [|c m IH]; simpl; [reflexivity|].
  intros [Hc Hm]%andb_prop. rewrite (IH Hm), andb_true_r.
  unfold toLowerChar. apply orb_prop in Hc as [Hl|Hu].
  - unfold isLower, isUpper, inRange in *.
    destruct (_ || _) eqn:E; [lia|]. exact Hl.
  - rewrite Hu; simpl. unfold isLower, isUpper, inRange in *.
    rewrite charCode_fromCharCode; lia.
Qed.

(** ** The repeated-letters codec *)

Lemma repeatedBaseValue_spec n : repeatedBaseValue n = 26 * Z.of_nat (n - 1).
Proof.
  unfold repeatedBaseValue.
  assert (H : forall l acc,
             fold_left (fun baseValue len =>
                          if (len =? 1)%nat then baseValue + 26
                          else baseValue + 26) l acc
             = acc + 26 * Z.of_nat (List.length l)).
  { induction l as [|x l IH]; intros acc; simpl fold_left; simpl List.length.
    - lia.
    - rewrite IH. destruct (x =? 1)%nat; lia. }
  rewrite H, length_seq. lia.
Qed.

Lemma repeatedLoop_iteration value baseValue len :
  repeatedLoop value baseValue len
  = if len <=? 10 then
      if value <=? baseValue + 26 then Ok (baseValue, len)
      else if len =? 10 then Throw TooLargeForRepeatedLetters
           else repeatedLoop value (baseValue + 26) (len + 1)
    else Ok (baseValue, len).
Proof.
  rewrite repeatedLoop_equation_1.
  destruct (Z_le_dec len 10) as [Hle|Hnle]; simpl;
    destruct (len <=? 10) eqn:E; try lia; reflexivity.
Qed.

Lemma repeatedLoop_found value :
  forall n len,
    n = Z.to_nat (10 - len) -> 1 <= len <= 10 ->
    26 * (len - 1) < value <= 260 ->
    repeatedLoop value (26 * (len - 1)) len
    = Ok (26 * ((value - 1) / 26), (value - 1) / 26 + 1).
Proof.
  induction n as [|n IH]; intros len Hn Hlen Hv;
    rewrite repeatedLoop_iteration;
    (destruct (len <=? 10) eqn:Ele; [|lia]);
    destruct (value <=? _) eqn:E.
  - assert (Hq : (value - 1) / 26 = len - 1)
      by (symmetry;
          apply (Z.div_unique _ _ _ (value - 1 - 26 * (len - 1))); lia).
    rewrite Hq. do 2 f_equal. lia.
  - lia.
  - assert (Hq : (value - 1) / 26 = len - 1)
      by (symmetry;
          apply (Z.div_unique _ _ _ (value - 1 - 26 * (len - 1))); lia).
    rewrite Hq. do 2 f_equal. lia.
  - destruct (len =? 10) eqn:E10; [lia|].
    replace (26 * (len - 1) + 26) with (26 * (len + 1 - 1)) by lia.
    apply IH; lia.
Qed.

Lemma repeatedLoop_too_large value :
  260 < value ->
  forall n len,
    n = Z.to_nat (10 - len) -> 1 <= len <= 10 ->
    repeatedLoop value (26 * (len - 1)) len = Throw TooLargeForRepeatedLetters.
Proof.
  intros Hv; induction n as [|n IH]; intros len Hn Hlen;
    rewrite repeatedLoop_iteration;
    (destruct (len <=? 10) eqn:Ele; [|lia]);
    (destruct (value <=? _) eqn:E; [lia|]);
    (destruct (len =? 10) eqn:E10; [reflexivity|]).
  - lia.
  - replace (26 * (len - 1) + 26) with (26 * (len + 1 - 1)) by lia.
    apply IH; lia.
Qed.

Lemma toLowerCase_length s : String.length (toLowerCase s) = String.length s.
Proof. induction s as [|c s IH]; simpl; congruence. Qed.

(** C2, as the code has it.  The bijective base-26 codec: "a", "z", "aa",
    "az" and "ba" decode to 1, 26, 27, 52 and 53, and the encoder
    [generateStandardAlphabeticalMarker] and the decoder
    [calculateBijectiveBase26Value] are inverse to each other on the
    integers that a number holds exactly: for every integer [v] from 1 to
    [Number.MAX_SAFE_INTEGER] the marker encoded for [v] decodes to [v], and
    every marker [m] of one to eleven letters decodes to a value, at least
    1, that encodes to [m] in lower case. *)
Theorem alphabetical_codec_roundtrip (v : Z) (m : string)
    (Hv : 1 <= v <= MAX_SAFE_INTEGER)
    (Hletters : forallb (fun c => isLower c || isUpper c) m = true)
    (Hm : m <> "")
    (Hlength : (String.length m <= 11)%nat) :
  (calculateBijectiveBase26Value "a" = Ok 1
   /\ calculateBijectiveBase26Value "z" = Ok 26
   /\ calculateBijectiveBase26Value "aa" = Ok 27
   /\ calculateBijectiveBase26Value "az" = Ok 52
   /\ calculateBijectiveBase26Value "ba" = Ok 53)
  /\ (exists marker,
        generateStandardAlphabeticalMarker v = Ok marker
        /\ calculateBijectiveBase26Value marker = Ok v)
  /\ (exists value,
        calculateBijectiveBase26Value m = Ok value
        /\ 1 <= value
        /\ generateStandardAlphabeticalMarker value = Ok (toLowerCase m)).
Proof.
  unfold MAX_SAFE_INTEGER in Hv.
  split; [repeat split; reflexivity|]. split.
  - unfold generateStandardAlphabeticalMarker.
    destruct (v <? 1) eqn:E; [lia|].
    eexists; split; [reflexivity|].
    destruct (standardLoop_spec v ltac:(lia) "" eq_refl) as [Hlow Hsum].
    cbn [String.length letterSum] in Hsum. change (26 ^ Z.of_nat 0) with 1 in Hsum.
    unfold calculateBijectiveBase26Value.
    rewrite (toLowerCase_lower _ Hlow),
      (bijectiveLoop_letters _ _ Hlow) by lia.
    rewrite Hsum. cbn [bind].
    replace (0 + (v * 1 + 0)) with v by lia.
    destruct (v =? 0) eqn:E0; [lia|reflexivity].
  - pose proof (toLowerCase_letters m Hletters) as Hlow.
    assert (Hne : toLowerCase m <> "") by (destruct m; [congruence|discriminate]).
    pose proof (letterSum_positive _ Hlow Hne) as Hpos.
    assert (Hsafe : letterSum (toLowerCase m) <= MAX_SAFE_INTEGER)
      by (apply letterSum_safe; [assumption|now rewrite toLowerCase_length]).
    unfold MAX_SAFE_INTEGER in Hsafe.
    exists (letterSum (toLowerCase m)). split; [|split; [exact Hpos|]].
    + unfold calculateBijectiveBase26Value.
      rewrite (bijectiveLoop_letters _ _ Hlow) by lia. cbn [bind].
      replace (0 + letterSum (toLowerCase m)) with (letterSum (toLowerCase m))
        by lia.
      destruct (_ =? 0) eqn:E0; zbool; [lia|]. reflexivity.
    + unfold generateStandardAlphabeticalMarker.
      destruct (_ <? 1) eqn:E; zbool; [lia|].
      rewrite (standardLoop_encodes _ _ "" eq_refl Hlow) by lia.
      now rewrite append_nil_r.
Qed.

Lemma alphabetical_codec_roundtrip_witness :
  (exists marker,
     generateStandardAlphabeticalMarker 53 = Ok marker
     /\ calculateBijectiveBase26Value marker = Ok 53)
  /\ (exists value,
        calculateBijectiveBase26Value "BA" = Ok value
        /\ 1 <= value
        /\ generateStandardAlphabeticalMarker value = Ok "ba").
Proof.
  apply (alphabetical_codec_roundtrip 53 "BA");
    [unfold MAX_SAFE_INTEGER; lia|reflexivity|discriminate|simpl; lia].
Defined.

(** The claim C2 fails beyond the integers that a number holds exactly.
    The integer 2^53 + 2 is a double; the marker encoded for it decodes to
    2^53.  The marker of twelve letters "zzzzzzzzzzzz", which the marker
    pattern accepts, decodes to a value whose marker is another one. *)
Lemma alphabetical_roundtrip_fails_beyond_doubles :
  (1 <= 9007199254740994
   /\ generateStandardAlphabeticalMarker 9007199254740994 = Ok "bktxhsoghkkg"
   /\ calculateBijectiveBase26Value "bktxhsoghkkg" = Ok 9007199254740992)
  /\ (calculateBijectiveBase26Value "zzzzzzzzzzzz" = Ok 99246114928149472
      /\ generateStandardAlphabeticalMarker 99246114928149472
         = Ok "aaaaaaaaaaaak").
Proof. repeat split; try lia; vm_compute; reflexivity. Qed.

(** C7.  Repeated-letters decoding.  A marker made of
    [L >= 1] copies of one letter decodes to
    [26 * (L - 1) + letterPosition], the position (1 to 26) being that of
    the letter in the alphabet, whatever its case; so "aa", "zz" and "aaa"
    decode to 27, 52 and 53.  The decoder compares the characters after
    lower-casing: a marker that is not a run of one character once
    lower-cased, such as "ab", makes it throw. *)
Theorem repeated_letters_decode (c : ascii) (L : nat) (marker : string)
    (Hletter : isLower c || isUpper c = true) (HL : (1 <= L)%nat)
    (Hmixed : forall d n, toLowerCase marker <> repeat d n) :
  let letterPosition := charCode (toLowerChar c) - 96 in
  1 <= letterPosition <= 26
  /\ calculateRepeatedLettersValue (repeat c L)
     = Ok (26 * (Z.of_nat L - 1) + letterPosition)
  /\ calculateRepeatedLettersValue "aa" = Ok 27
  /\ calculateRepeatedLettersValue "zz" = Ok 52
  /\ calculateRepeatedLettersValue "aaa" = Ok 53
  /\ calculateRepeatedLettersValue "ab" = Throw LettersNotTheSame
  /\ calculateRepeatedLettersValue marker = Throw LettersNotTheSame.
Proof.
  intros letterPosition.
  assert (Hpos : 1 <= letterPosition <= 26).
  { subst letterPosition. unfold toLowerChar.
    apply orb_prop in Hletter as [Hl|Hu].
    - unfold isLower, isUpper, inRange in *.
      destruct (_ || _) eqn:E; [lia|]. lia.
    - rewrite Hu; simpl. unfold isUpper, inRange in Hu.
      rewrite charCode_fromCharCode; lia. }
  split; [exact Hpos|].
  split; [|repeat split; try reflexivity].
  - unfold calculateRepeatedLettersValue.
    rewrite toLowerCase_repeat.
    destruct L as [|L]; [lia|]. simpl repeat. cbv iota beta.
    assert (Hall : forallb (Ascii.eqb (toLowerChar c)) (repeat (toLowerChar c) L)
                   = true)
      by (apply forallb_eqb_repeat; now rewrite repeat_length).
    rewrite Hall; simpl negb; cbv iota.
    fold letterPosition. clearbody letterPosition.
    destruct ((letterPosition <? 1) || _) eqn:E; [lia|].
    rewrite repeatedBaseValue_spec. simpl String.length.
    rewrite repeat_length. do 2 f_equal. lia.
  - unfold calculateRepeatedLettersValue.
    destruct (toLowerCase marker) as [|firstChar rest] eqn:Elow.
    + exfalso. apply (Hmixed "a"%char 0%nat). reflexivity.
    + destruct (forallb (Ascii.eqb firstChar) rest) eqn:Hall; [|reflexivity].
      exfalso. apply (Hmixed firstChar (S (String.length rest))).
      simpl. f_equal. now apply forallb_eqb_repeat.
Qed.

Lemma repeated_letters_decode_witness :
  calculateRepeatedLettersValue (repeat "b" 3) = Ok (26 * (3 - 1) + 2)
  /\ calculateRepeatedLettersValue "abb" = Throw LettersNotTheSame.
Proof.
  assert (Hmixed : forall d n, toLowerCase "abb" <> repeat d n).
  { intros d [|[|[|[|n]]]]; simpl; try discriminate.
    intros H; injection H as H1 H2 H3.
    rewrite <- H1 in H2. discriminate H2. }
  destruct (repeated_letters_decode "b" 3 "abb" eq_refl ltac:(lia) Hmixed)
    as (_ & Hrun & _ & _ & _ & _ & Hfail).
  split; [exact Hrun|exact Hfail].
Defined.

(** C10.  The repeated-letters encoder has an upper limit: it returns a
    marker exactly for the values 1 to 260, a run of 1 to 10 copies of one
    letter, and throws for every value from 261 on (and below 1). *)
Theorem repeated_letters_encode_range (v : Z) :
  (isOk (generateRepeatedLettersMarker v) = true <-> 1 <= v <= 260)
  /\ (1 <= v <= 260 ->
      let run := (v - 1) / 26 + 1 in
      1 <= run <= 10
      /\ generateRepeatedLettersMarker v
         = Ok (repeat (fromCharCode (96 + ((v - 1) mod 26 + 1)))
                      (Z.to_nat run)))
  /\ (261 <= v ->
      generateRepeatedLettersMarker v = Throw TooLargeForRepeatedLetters)
  /\ (v < 1 ->
      generateRepeatedLettersMarker v = Throw AlphabeticalValueOutOfRange).
Proof.
  assert (Hin : 1 <= v <= 260 ->
                let run := (v - 1) / 26 + 1 in
                1 <= run <= 10
                /\ generateRepeatedLettersMarker v
                   = Ok (repeat (fromCharCode (96 + ((v - 1) mod 26 + 1)))
                                (Z.to_nat run))).
  { intros Hv run.
    assert (Hq : 0 <= (v - 1) / 26 < 10).
    { split; [apply Z.div_pos; lia|apply Z.div_lt_upper_bound; lia]. }
    split; [subst run; lia|].
    unfold generateRepeatedLettersMarker.
    destruct (v <? 1) eqn:E; [lia|].
    change 0 with (26 * (1 - 1)).
    rewrite (repeatedLoop_found v 9%nat 1) by lia. simpl.
    pose proof (Z.div_mod (v - 1) 26 ltac:(lia)) as Hdiv.
    do 3 f_equal. lia. }
  assert (Hhigh : 261 <= v ->
                  generateRepeatedLettersMarker v
                  = Throw TooLargeForRepeatedLetters).
  { intros Hv. unfold generateRepeatedLettersMarker.
    destruct (v <? 1) eqn:E; [lia|].
    change 0 with (26 * (1 - 1)).
    now rewrite (repeatedLoop_too_large v ltac:(lia) 9%nat 1) by lia. }
  assert (Hlow : v < 1 ->
                 generateRepeatedLettersMarker v
                 = Throw AlphabeticalValueOutOfRange).
  { intros Hv. unfold generateRepeatedLettersMarker.
    destruct (v <? 1) eqn:E; [reflexivity|lia]. }
  split; [split|split; [exact Hin|split; [exact Hhigh|exact Hlow]]].
  - intros Hok.
    destruct (Z_lt_dec v 1) as [H1|H1];
      [rewrite (Hlow H1) in Hok; discriminate|].
    destruct (Z_le_dec 261 v) as [H2|H2];
      [rewrite (Hhigh H2) in Hok; discriminate|].
    lia.
  - intros Hv. destruct (Hin Hv) as [_ ->]. reflexivity.
Qed.

Lemma repeated_letters_encode_range_witness :
  generateRepeatedLettersMarker 260 = Ok "zzzzzzzzzz"
  /\ generateRepeatedLettersMarker 261 = Throw TooLargeForRepeatedLetters.
Proof.
  destruct (repeated_letters_encode_range 260) as (_ & Hin & _).
  destruct (repeated_letters_encode_range 261) as (_ & _ & Hhigh & _).
  split.
  - destruct (Hin ltac:(lia)) as [_ H]. exact H.
  - apply Hhigh. lia.
Defined.

(** ** Regular expressions: what a match means *)

Definition withinMax (max : option nat) (n : nat) : Prop :=
  match max with Some m => (n <= m)%nat | None => True end.

(** The language of a pattern. *)
Fixpoint Lang (r : regex) (s : string) : Prop :=
  match r with
  | Eps => s = ""
  | Cls p => exists c, s = String c "" /\ p c = true
  | Rep p min max =>
      forallb p s = true /\ (min <= String.length s)%nat
      /\ withinMax max (String.length s)
  | Cat r1 r2 => exists s1 s2, s = s1 ++ s2 /\ Lang r1 s1 /\ Lang r2 s2
  | Alt r1 r2 => Lang r1 s \/ Lang r2 s
  | Grp r1 => Lang r1 s
  end.

Lemma repMatch_sound {R} p s : forall min max (k : string -> option R) res,
  repMatch p min max s k = Some res ->
  exists s1 s2,
    s = s1 ++ s2 /\ Lang (Rep p min max) s1 /\ k s2 = Some res.
Proof.
  induction s as [|c s IH]; intros min max k res; simpl.
  - destruct (min =? 0)%nat eqn:E; [|discriminate].
    apply Nat.eqb_eq in E; subst min. intros H.
    exists "", ""; repeat split; simpl; auto. destruct max; simpl; lia.
  - assert (Hstop : (if (min =? 0)%nat then k (String c s) else None)
                    = Some res ->
                    exists s1 s2,
                      String c s = s1 ++ s2
                      /\ Lang (Rep p min max) s1 /\ k s2 = Some res).
    { destruct (min =? 0)%nat eqn:E; [|discriminate].
      apply Nat.eqb_eq in E; subst min. intros H.
      exists "", (String c s); repeat split; simpl; auto.
      destruct max; simpl; lia. }
    destruct (p c && negb (exhausted max)) eqn:Hc; [|exact Hstop].
    destruct (repMatch p (Nat.pred min) (predMax max) s k) eqn:Hrec;
      [|exact Hstop].
    intros [= ->]. apply IH in Hrec as (s1 & s2 & -> & (Hall & Hmin & Hmax) & Hk).
    apply andb_prop in Hc as [Hpc Hex].
    exists (String c s1), s2; repeat split; simpl; auto.
    + now rewrite Hpc.
    + lia.
    + destruct max as [[|m]|]; simpl in *; try discriminate; lia.
Qed.

Lemma rmatch_sound r : forall s caps k res,
  rmatch r s caps k = Some res ->
  exists s1 s2 caps1,
    s = s1 ++ s2 /\ Lang r s1 /\ k s2 caps1 = Some res.
Proof.
  induction r as [|p|p min max|r1 IH1 r2 IH2|r1 IH1 r2 IH2|r1 IH1];
    intros s caps k res; simpl.
  - intros H. exists "", s, caps; auto.
  - destruct s as [|c s]; [discriminate|].
    destruct (p c) eqn:Hc; [|discriminate]. intros H.
    exists (String c ""), s, caps; repeat split; eauto.
  - intros H. apply repMatch_sound in H as (s1 & s2 & -> & HL & Hk).
    exists s1, s2, caps; auto.
  - intros H. apply IH1 in H as (s1 & s2 & caps1 & -> & HL1 & H).
    apply IH2 in H as (s3 & s4 & caps2 & -> & HL2 & H).
    exists (s1 ++ s3), s4, caps2. rewrite append_assoc.
    repeat split; auto. exists s1, s3; auto.
  - destruct (rmatch r1 s caps k) eqn:H1.
    + intros [= ->]. apply IH1 in H1 as (s1 & s2 & caps1 & -> & HL & H).
      exists s1, s2, caps1; auto.
    + intros H. apply IH2 in H as (s1 & s2 & caps1 & -> & HL & H).
      exists s1, s2, caps1; auto.
  - intros H. apply IH1 in H as (s1 & s2 & caps1 & -> & HL & H).
    eexists s1, s2, _; eauto.
Qed.

Lemma test_sound r s : test r s = true -> Lang r s.
Proof.
  unfold test, exec. destruct (rmatch r s [] _) eqn:H; [|discriminate].
  intros _. apply rmatch_sound in H as (s1 & s2 & caps1 & -> & HL & H).
  destruct s2; [|discriminate]. now rewrite append_nil_r.
Qed.

(** The strings of a pattern whose repetitions are all bounded. *)
Definition allAscii : list ascii := map ascii_of_nat (seq 0 256).

Lemma allAscii_complete c : In c allAscii.
Proof.
  unfold allAscii. apply in_map_iff. exists (nat_of_ascii c). split.
  - apply ascii_nat_embedding.
  - apply in_seq. pose proof (nat_ascii_bounded c). lia.
Qed.

#[local] Opaque allAscii.

Fixpoint words (letters : list ascii) (n : nat) : list string :=
  match n with
  | O => [""]
  | S n' => flat_map (fun c => map (String c) (words letters n')) letters
  end.

Definition product (l1 l2 : list string) : list string :=
  flat_map (fun s1 => map (append s1) l2) l1.

Fixpoint enum (r : regex) : list string :=
  match r with
  | Eps => [""]
  | Cls p => map (fun c => String c "") (filter p allAscii)
  | Rep p min (Some max) =>
      flat_map (words (filter p allAscii)) (seq min (max + 1 - min))
  | Rep p min None => []
  | Cat r1 r2 => product (enum r1) (enum r2)
  | Alt r1 r2 => (enum r1 ++ enum r2)%list
  | Grp r1 => enum r1
  end.

Fixpoint bounded (r : regex) : bool :=
  match r with
  | Rep _ _ None => false
  | Cat r1 r2 | Alt r1 r2 => bounded r1 && bounded r2
  | Grp r1 => bounded r1
  | _ => true
  end.

Lemma words_complete letters p s :
  (forall c, p c = true -> In c letters) ->
  forallb p s = true -> In s (words letters (String.length s)).
Proof.
  intros Hin; induction s as [|c s IH]; simpl; [auto|].
  intros [Hc Hs]%andb_prop. apply in_flat_map. exists c; split; [auto|].
  apply in_map; auto.
Qed.

Lemma enum_complete r : forall s,
  bounded r = true -> Lang r s -> In s (enum r).
Proof.
  induction r as [|p|p min max|r1 IH1 r2 IH2|r1 IH1 r2 IH2|r1 IH1];
    intros s Hb; simpl in *.
  - intros ->; auto.
  - intros (c & -> & Hc).
    apply (in_map (fun c => String c "")), filter_In; split; auto.
    apply allAscii_complete.
  - destruct max as [max|]; [|discriminate].
    intros (Hall & Hmin & Hmax); simpl in Hmax.
    apply in_flat_map. exists (String.length s); split; [apply in_seq; lia|].
    apply words_complete with (p := p); auto.
    intros c Hc. apply filter_In; split; auto. apply allAscii_complete.
  - apply andb_prop in Hb as [Hb1 Hb2].
    intros (s1 & s2 & -> & H1 & H2). apply in_flat_map.
    exists s1; split; auto. apply in_map; auto.
  - apply andb_prop in Hb as [Hb1 Hb2].
    intros [H|H]; apply in_or_app; auto.
  - auto.
Qed.

(** ** The Roman codec *)

Lemma romanWhile_iteration value numeral romanNumeral remainingValue :
  romanWhile value numeral romanNumeral remainingValue
  = if Z.pos value <=? remainingValue
    then romanWhile value numeral (romanNumeral ++ numeral)
                    (remainingValue - Z.pos value)
    else (romanNumeral, remainingValue).
Proof.
  rewrite romanWhile_equation_1.
  destruct (Z_ge_dec remainingValue (Z.pos value)) as [Hge|Hlt]; simpl;
    destruct (Z.pos value <=? remainingValue) eqn:E; try lia; reflexivity.
Qed.

(** The numeral built so far is only ever extended. *)
Lemma romanWhile_prefix value numeral :
  forall n remainingValue romanNumeral,
    Z.to_nat remainingValue = n ->
    romanWhile value numeral romanNumeral remainingValue
    = (romanNumeral ++ fst (romanWhile value numeral "" remainingValue),
       snd (romanWhile value numeral "" remainingValue)).
Proof.
  induction n as [n IH] using lt_wf_ind; intros rem acc Hn.
  rewrite (romanWhile_iteration _ _ acc), (romanWhile_iteration _ _ "").
  destruct (Z.pos value <=? rem) eqn:E; simpl.
  - rewrite (IH (Z.to_nat (rem - Z.pos value)) ltac:(lia) _ (acc ++ numeral)
                eq_refl).
    rewrite (IH (Z.to_nat (rem - Z.pos value)) ltac:(lia) _ numeral eq_refl).
    simpl. now rewrite append_assoc.
  - now rewrite append_nil_r.
Qed.

Lemma romanStep_prefix entry romanNumeral remainingValue :
  romanStep (romanNumeral, remainingValue) entry
  = (romanNumeral ++ fst (romanStep ("", remainingValue) entry),
     snd (romanStep ("", remainingValue) entry)).
Proof.
  destruct entry as [value numeral]; simpl.
  now apply romanWhile_prefix with (n := Z.to_nat remainingValue).
Qed.

Lemma romanFold_prefix table : forall romanNumeral remainingValue,
  fold_left romanStep table (romanNumeral, remainingValue)
  = (romanNumeral ++ fst (fold_left romanStep table ("", remainingValue)),
     snd (fold_left romanStep table ("", remainingValue))).
Proof.
  induction table as [|entry table IH]; intros acc rem; cbn [fold_left].
  - simpl. now rewrite append_nil_r.
  - rewrite romanStep_prefix.
    destruct (romanStep ("", rem) entry) as [acc1 rem1] eqn:E; simpl.
    rewrite IH, (IH acc1). simpl. now rewrite append_assoc.
Qed.

(** The thousands: [k] copies of "m", and the rest below 1000. *)
Lemma romanWhile_thousands k : forall romanNumeral r,
  0 <= r < 1000 ->
  romanWhile 1000 "m" romanNumeral (1000 * Z.of_nat k + r)
  = (romanNumeral ++ repeat "m" k, r).
Proof.
  induction k as [|k IH]; intros acc r Hr; rewrite romanWhile_iteration.
  - destruct (_ <=? _) eqn:E; zbool; [lia|].
    simpl; rewrite append_nil_r; f_equal; lia.
  - destruct (_ <=? _) eqn:E; zbool; [|lia].
    replace (1000 * Z.of_nat (S k) + r - 1000) with (1000 * Z.of_nat k + r)
      by lia.
    rewrite IH by assumption. now rewrite append_assoc.
Qed.

(** The numeral of a value below 1000: the table without its first row. *)
Definition romanBelow1000 (r : Z) : string :=
  fst (fold_left romanStep (tl romanNumeralMap) ("", r)).

Lemma generateRomanMarker_split v :
  1 <= v ->
  generateRomanMarker v
  = Ok (repeat "m" (Z.to_nat (v / 1000)) ++ romanBelow1000 (v mod 1000)).
Proof.
  intros Hv. unfold generateRomanMarker.
  destruct (v <? 1) eqn:E; [lia|]. f_equal.
  pose proof (Z.div_mod v 1000 ltac:(lia)) as Hdiv.
  pose proof (Z.mod_pos_bound v 1000 ltac:(lia)) as Hmod.
  assert (Hq : 0 <= v / 1000) by (apply Z.div_pos; lia).
  change (fold_left romanStep romanNumeralMap ("", v))
    with (fold_left romanStep (tl romanNumeralMap) (romanWhile 1000 "m" "" v)).
  replace (romanWhile 1000 "m" "" v)
    with (romanWhile 1000 "m" ""
            (1000 * Z.of_nat (Z.to_nat (v / 1000)) + v mod 1000))
    by (f_equal; lia).
  rewrite romanWhile_thousands by assumption.
  rewrite romanFold_prefix. reflexivity.
Qed.

Lemma romanMap_bound c v : romanMap c = Some v -> 0 < v <= 1000.
Proof.
  unfold romanMap.
  repeat match goal with
         | |- context [if ?b then _ else _] => destruct b
         end; intros [= <-]; lia.
Qed.

Lemma romanLoop_prev s value prevValue :
  romanLoop s = Ok (value, prevValue) -> 0 <= prevValue <= 1000.
Proof.
  destruct s as [|c s]; simpl.
  - intros [= <- <-]; lia.
  - destruct (romanLoop s) as [[v p]|]; simpl; [|discriminate].
    destruct (romanMap c) as [cur|] eqn:Ec; [|discriminate].
    apply romanMap_bound in Ec.
    destruct (cur <? p); intros [= <- <-]; lia.
Qed.

Lemma romanLoop_thousands k s value prevValue :
  romanLoop s = Ok (value, prevValue) ->
  exists prev,
    romanLoop (repeat "m" k ++ s) = Ok (value + 1000 * Z.of_nat k, prev).
Proof.
  intros Hs; induction k as [|k [prev IH]]; simpl.
  - exists prevValue. rewrite Hs. do 2 f_equal. lia.
  - rewrite IH; simpl. apply romanLoop_prev in IH.
    change (romanMap "m") with (Some 1000).
    destruct (1000 <? prev) eqn:E; [lia|].
    eexists. do 2 f_equal. lia.
Qed.

(** The numerals below 1000 are lower-case and decode to their value:
    checked on each of them. *)
Lemma romanBelow1000_decodes r :
  0 <= r < 1000 ->
  forallb isLower (romanBelow1000 r) = true
  /\ exists prev, romanLoop (romanBelow1000 r) = Ok (r, prev).
Proof.
  intros Hr.
  assert (H : allBetween 0 1000
                (fun r => forallb isLower (romanBelow1000 r)
                          && match romanLoop (romanBelow1000 r) with
                             | Ok (v, _) => v =? r
                             | Throw _ => false
                             end) = true) by (vm_compute; reflexivity).
  apply allBetween_spec with (v := r) in H; [|lia].
  apply andb_prop in H as [Hlow Hdec]. split; [exact Hlow|].
  destruct (romanLoop (romanBelow1000 r)) as [[v p]|]; [|discriminate].
  apply Z.eqb_eq in Hdec; subst v. now exists p.
Qed.

Lemma roman_roundtrip v :
  1 <= v ->
  exists m,
    generateRomanMarker v = Ok m
    /\ toLowerCase m = m
    /\ calculateRomanValue m = Ok v.
Proof.
  intros Hv. rewrite generateRomanMarker_split by assumption.
  eexists; split; [reflexivity|].
  pose proof (Z.div_mod v 1000 ltac:(lia)) as Hdiv.
  pose proof (Z.mod_pos_bound v 1000 ltac:(lia)) as Hmod.
  assert (Hq : 0 <= v / 1000) by (apply Z.div_pos; lia).
  destruct (romanBelow1000_decodes (v mod 1000) Hmod) as (Hlow & prev & Hdec).
  assert (Hlower : toLowerCase (repeat "m" (Z.to_nat (v / 1000))
                                ++ romanBelow1000 (v mod 1000))
                   = repeat "m" (Z.to_nat (v / 1000))
                     ++ romanBelow1000 (v mod 1000)).
  { rewrite toLowerCase_app, toLowerCase_repeat, (toLowerCase_lower _ Hlow).
    reflexivity. }
  split; [exact Hlower|].
  unfold calculateRomanValue. rewrite Hlower.
  destruct (romanLoop_thousands (Z.to_nat (v / 1000)) _ _ _ Hdec) as [p ->].
  simpl. replace (v mod 1000 + 1000 * Z.of_nat (Z.to_nat (v / 1000))) with v
    by lia.
  destruct (v =? 0) eqn:E; [lia|reflexivity].
Qed.

(** ** The Roman validator *)

(** The validator after its [toLowerCase]. *)
Definition validRoman (roman : string) : bool :=
  negb (String.length roman =? 0)%nat
  && test (Rep Parser.isRomanLetter 1 None) roman
  && test Parser.validRomanPattern roman.

Lemma isValidRomanNumeral_lower marker :
  Parser.isValidRomanNumeral marker = validRoman (toLowerCase marker).
Proof.
  unfold Parser.isValidRomanNumeral, validRoman.
  destruct (String.length (toLowerCase marker) =? 0)%nat; simpl;
    [reflexivity|].
  destruct (test (Rep Parser.isRomanLetter 1 None) (toLowerCase marker));
    reflexivity.
Qed.

(** A string is the numeral of a value from 1 to 3999 (or is empty). *)
Definition isCanonical (s : string) : bool :=
  (String.length s =? 0)%nat
  || match calculateRomanValue s with
     | Ok v =>
         (1 <=? v) && (v <=? 3999)
         && match generateRomanMarker v with
            | Ok m => String.eqb m s
            | Throw _ => false
            end
     | Throw _ => false
     end.

(** Every string of the validator's pattern, 4000 of them, is canonical. *)
Lemma validRomanPattern_canonical :
  List.forallb isCanonical (enum Parser.validRomanPattern) = true.
Proof. vm_compute. reflexivity. Qed.

Lemma valid_is_canonical roman :
  validRoman roman = true ->
  exists n, 1 <= n <= 3999 /\ generateRomanMarker n = Ok roman.
Proof.
  unfold validRoman. intros [[Hne _]%andb_prop Hpat]%andb_prop.
  apply test_sound, enum_complete in Hpat; [|reflexivity].
  pose proof validRomanPattern_canonical as Hall.
  rewrite forallb_forall in Hall. apply Hall in Hpat.
  unfold isCanonical in Hpat.
  destruct (String.length roman =? 0)%nat; [discriminate|]. simpl in Hpat.
  destruct (calculateRomanValue roman) as [v|]; [|discriminate].
  destruct (generateRomanMarker v) as [m|] eqn:Hgen;
    [|now rewrite andb_false_r in Hpat].
  apply andb_prop in Hpat as [[H1 H2]%andb_prop Heq].
  apply String.eqb_eq in Heq; subst m. exists v. split; [lia|exact Hgen].
Qed.

(** Each numeral of 1 to 3999 is accepted: checked on each of them. *)
Lemma canonical_is_valid n :
  1 <= n <= 3999 ->
  exists m, generateRomanMarker n = Ok m /\ validRoman m = true.
Proof.
  intros Hn.
  assert (H : allBetween 1 3999
                (fun n => match generateRomanMarker n with
                          | Ok m => validRoman m
                          | Throw _ => false
                          end) = true) by (vm_compute; reflexivity).
  apply allBetween_spec with (v := n) in H; [|lia].
  destruct (generateRomanMarker n) as [m|]; [|discriminate].
  now exists m.
Qed.

(** C3.  The Roman validator accepts a marker, whatever its case, exactly
    when its lower-case form is the numeral that the encoder
    [generateRomanMarker] produces for some integer from 1 to 3999; it
    rejects "iiii", "vx" and the empty string. *)
Theorem roman_validator_exact (marker : string) :
  (Parser.isValidRomanNumeral marker = true
   <-> exists n,
         1 <= n <= 3999 /\ generateRomanMarker n = Ok (toLowerCase marker))
  /\ Parser.isValidRomanNumeral "iiii" = false
  /\ Parser.isValidRomanNumeral "vx" = false
  /\ Parser.isValidRomanNumeral "" = false.
Proof.
  split; [|repeat split; reflexivity].
  rewrite isValidRomanNumeral_lower. split.
  - apply valid_is_canonical.
  - intros (n & Hn & Hgen).
    destruct (canonical_is_valid n Hn) as (m & Hm & Hvalid).
    rewrite Hgen in Hm. injection Hm as <-. exact Hvalid.
Qed.

Lemma roman_validator_exact_witness :
  Parser.isValidRomanNumeral "MCMXCIV" = true.
Proof.
  apply (proj1 (roman_validator_exact "MCMXCIV")).
  exists 1994. split; [lia|reflexivity].
Defined.

(** C6, as the code has it.  The Roman codec has no error for a value
    above 3999.  For every value [v] from 4000 to a thousand million, whose
    numerals have up to a million letters, the encoder [generateRomanMarker]
    returns a marker: "m" followed by the marker of [v - 1000], so 4000 is
    "mmmm"; the decoder [calculateRomanValue] maps the marker back to [v];
    and up to that bound the encoder throws exactly for the values below 1.
    The limit of 3999 is the validator's: it does not accept the marker of
    a value above 3999. *)
Theorem roman_codec_above_3999 (v : Z) (Hv : 3999 < v <= 1000000000) :
  (exists m,
     generateRomanMarker v = Ok m
     /\ calculateRomanValue m = Ok v
     /\ Parser.isValidRomanNumeral m = false
     /\ exists m',
          generateRomanMarker (v - 1000) = Ok m' /\ m = String "m" m')
  /\ generateRomanMarker 4000 = Ok "mmmm"
  /\ (forall u,
        u <= 1000000000 ->
        (generateRomanMarker u = Throw RomanValueOutOfRange <-> u < 1)
        /\ (isOk (generateRomanMarker u) = true <-> 1 <= u)).
Proof.
  split; [|split; [reflexivity|]].
  - destruct (roman_roundtrip v ltac:(lia)) as (m & Hgen & Hlower & Hdec).
    exists m. split; [exact Hgen|]. split; [exact Hdec|]. split.
    + destruct (Parser.isValidRomanNumeral m) eqn:Hvalid; [|reflexivity].
      rewrite isValidRomanNumeral_lower, Hlower in Hvalid.
      apply valid_is_canonical in Hvalid as (n & Hn & Hgen').
      destruct (roman_roundtrip n ltac:(lia)) as (m' & Hgen'' & _ & Hdec').
      rewrite Hgen' in Hgen''. injection Hgen'' as <-.
      rewrite Hdec in Hdec'. injection Hdec' as ->. lia.
    + rewrite generateRomanMarker_split in Hgen by lia.
      injection Hgen as <-.
      rewrite generateRomanMarker_split by lia.
      eexists; split; [reflexivity|].
      replace (v mod 1000) with ((v - 1000) mod 1000)
        by (replace v with (v - 1000 + 1 * 1000) at 2 by lia;
            now rewrite Z.mod_add by lia).
      replace (v / 1000) with ((v - 1000) / 1000 + 1)
        by (replace v with (v - 1000 + 1 * 1000) at 2 by lia;
            now rewrite Z.div_add by lia).
      assert (0 <= (v - 1000) / 1000) by (apply Z.div_pos; lia).
      rewrite Z2Nat.inj_add by lia. rewrite Nat.add_comm. reflexivity.
  - intros u _. unfold generateRomanMarker.
    destruct (u <? 1) eqn:E; zbool; cbn [isOk]; split; split;
      intros H; try reflexivity; try lia; discriminate H.
Qed.

Lemma roman_codec_above_3999_witness :
  exists m,
    generateRomanMarker 4000 = Ok m
    /\ calculateRomanValue m = Ok 4000
    /\ Parser.isValidRomanNumeral m = false
    /\ exists m', generateRomanMarker 3000 = Ok m' /\ m = String "m" m'.
Proof.
  apply (roman_codec_above_3999 4000). lia.
Defined.

(** The claim C6 fails at 4000: the encoder returns "mmmm" and the decoder
    returns 4000 for it, where the claim wants an error. *)
Lemma roman_4000_is_not_an_error :
  generateRomanMarker 4000 = Ok "mmmm"
  /\ calculateRomanValue "mmmm" = Ok 4000.
Proof. split; reflexivity. Qed.

(** ** Classification *)

(** C4.  With Roman and Alphabetical lists enabled, the marker "c" without
    context is Roman, and a Roman line with that marker has value 100.
    After a sibling of type Alphabetical with marker "b" (value 2) the same
    marker is Alphabetical, the type of the context, and has value 3. *)
Theorem classification_precedence
    (settings : MoreOrderedListsSettings) (context : ParsedListLine)
    (useRepeatedLettersMode : bool) (ind content : string)
    (sep : ListSeparator)
    (Hroman : enableRomanLists settings = true)
    (Halpha : enableAlphabeticalLists settings = true)
    (Htype : type context = Alphabetical)
    (Hmarker : marker context = "b") :
  Parser.createResult settings ind "c" sep content None
  = Some (mkLine Roman ind "c" sep content)
  /\ getValue (mkLine Roman ind "c" sep content) useRepeatedLettersMode
     = Ok (Some 100)
  /\ getValue context useRepeatedLettersMode = Ok (Some 2)
  /\ Parser.createResult settings ind "c" sep content (Some context)
     = Some (mkLine Alphabetical ind "c" sep content)
  /\ getValue (mkLine Alphabetical ind "c" sep content) useRepeatedLettersMode
     = Ok (Some 3).
Proof.
  assert (Hintrinsic : Parser.determineIntrinsicListType settings "c"
                       = Some Roman).
  { unfold Parser.determineIntrinsicListType. rewrite Hroman. reflexivity. }
  split; [|split; [|split; [|split]]].
  - unfold Parser.createResult, Parser.determineListType.
    now rewrite Hintrinsic.
  - reflexivity.
  - unfold getValue, calculateAlphabeticalValue.
    rewrite Htype, Hmarker. simpl. rewrite andb_false_r. reflexivity.
  - unfold Parser.createResult, Parser.determineListType.
    rewrite Hintrinsic, Htype, Hmarker. reflexivity.
  - unfold getValue, calculateAlphabeticalValue. simpl.
    rewrite andb_false_r. reflexivity.
Qed.

Lemma classification_precedence_witness :
  Parser.createResult DEFAULT_SETTINGS "" "c" Dot "x" None
  = Some (mkLine Roman "" "c" Dot "x")
  /\ Parser.createResult DEFAULT_SETTINGS "" "c" Dot "x"
       (Some (mkLine Alphabetical "" "b" Dot "y"))
     = Some (mkLine Alphabetical "" "c" Dot "x").
Proof.
  destruct (classification_precedence
              DEFAULT_SETTINGS (mkLine Alphabetical "" "b" Dot "y") false
              "" "x" Dot eq_refl eq_refl eq_refl eq_refl)
    as (Hfree & _ & _ & Hctx & _).
  split; [exact Hfree|exact Hctx].
Defined.

(** ** Indentation *)

Lemma spanSpaces_length s :
  String.length s
  = (fst (spanSpaces s) + String.length (snd (spanSpaces s)))%nat.
Proof.
  induction s as [|c s IH]; [reflexivity|].
  cbn [spanSpaces]. destruct (Ascii.eqb_spec c " ") as [->|Hc].
  - destruct (spanSpaces s) as [n after]. simpl in *. lia.
  - destruct c as [[] [] [] [] [] [] [] []]; try reflexivity.
    now contradiction Hc.
Qed.

(** The bound of [indentationLoop] is never what ends the loop: every bound
    that is at least the length of the string gives the same level. *)
Lemma indentationLoop_bound bound : forall bound' s level,
  (String.length s <= bound)%nat -> (String.length s <= bound')%nat ->
  indentationLoop bound s level = indentationLoop bound' s level.
Proof.
  induction bound as [|bound IH]; intros bound' s level Hb Hb'.
  - destruct s; [|simpl in Hb; lia]. destruct bound'; reflexivity.
  - destruct s as [|c rest]; [destruct bound'; reflexivity|].
    destruct bound' as [|bound']; [simpl in Hb'; lia|].
    cbn [indentationLoop]. simpl in Hb, Hb'.
    destruct (Ascii.eqb c "009"); [apply IH; lia|].
    destruct (Ascii.eqb_spec c " ") as [->|Hc]; [|apply IH; lia].
    pose proof (spanSpaces_length (String " " rest)) as Hlen.
    destruct (spanSpaces (String " " rest)) as [spaces after] eqn:E.
    assert (1 <= spaces)%nat.
    { cbn [spanSpaces] in E. destruct (spanSpaces rest).
      injection E as <- _. lia. }
    simpl in Hlen. apply IH; lia.
Qed.

Lemma spanSpaces_repeat n :
  spanSpaces (repeat " " n) = (n, "").
Proof. induction n as [|n IH]; simpl; [reflexivity|now rewrite IH]. Qed.

Lemma rev_repeat c n : rev (repeat c n) = repeat c n.
Proof.
  induction n as [|n IH]; simpl; [reflexivity|]. rewrite IH.
  clear IH; induction n as [|n IH]; simpl; [reflexivity|now rewrite IH].
Qed.

(** C9, where the code departs from it.  An indentation of one, two or three
    spaces has level 0, and [decreaseIndentationLevel] on it neither throws
    nor changes the line: it leaves through the [return ''] branch. *)
Theorem decrease_residual_spaces_not_rejected
    (self : ParsedListLine) (n : nat)
    (Hn : (1 <= n <= 3)%nat) (Hind : indentation self = repeat " " n) :
  getIndentationLevel (indentation self) = 0%nat
  /\ decreaseIndentation (indentation self) = ReturnedEarly
  /\ decreaseIndentationLevel self = Ok self.
Proof.
  unfold decreaseIndentationLevel. rewrite Hind.
  destruct n as [|[|[|[|n]]]]; try lia; repeat split; reflexivity.
Qed.

Lemma decrease_residual_spaces_not_rejected_witness :
  decreaseIndentationLevel (mkLine Alphabetical "  " "a" Dot "")
  = Ok (mkLine Alphabetical "  " "a" Dot "").
Proof.
  apply (decrease_residual_spaces_not_rejected
           (mkLine Alphabetical "  " "a" Dot "") 2); [lia|reflexivity].
Defined.

(** ** The list parser *)

(** [k] line numbers from [first] on, each one more than the one before. *)
Fixpoint consecutive (first : Z) (k : nat) : list Z :=
  match k with
  | O => []
  | S k' => first :: consecutive (first + 1) k'
  end.

Lemma consecutive_app first k :
  (consecutive first k ++ [first + Z.of_nat k])%list
  = consecutive first (S k).
Proof.
  revert first; induction k as [|k IH]; intros first.
  - simpl. do 2 f_equal. lia.
  - cbn [consecutive app]. f_equal.
    replace (first + Z.of_nat (S k)) with (first + 1 + Z.of_nat k) by lia.
    apply IH.
Qed.

Lemma consecutive_In first k n :
  In n (consecutive first k) <-> first <= n < first + Z.of_nat k.
Proof.
  revert first; induction k as [|k IH]; intros first; simpl.
  - lia.
  - rewrite IH. lia.
Qed.

Lemma consecutive_nth first k : forall i a b,
  nth_error (consecutive first k) i = Some a ->
  nth_error (consecutive first k) (S i) = Some b ->
  b = a + 1.
Proof.
  revert first; induction k as [|k IH]; intros first i a b.
  - destruct i; discriminate.
  - destruct i as [|i].
    + destruct k; simpl; [discriminate|]. intros [= <-] [= <-]. reflexivity.
    + cbn [consecutive nth_error]. apply IH.
Qed.

Lemma consecutive_max first k :
  fold_left Z.max (consecutive (first + 1) k) first = first + Z.of_nat k.
Proof.
  revert first; induction k as [|k IH]; intros first; simpl; [lia|].
  replace (Z.max first (first + 1)) with (first + 1) by lia.
  rewrite IH. lia.
Qed.

Section ParserInvariant.

Variable settings : MoreOrderedListsSettings.
Variable doc : Parser.Text.

(** The lines [parseListLoop] adds are numbered from the line it starts at. *)
Lemma parseListLoop_lines count : forall lineNumber contextStack parsedLines,
  exists k,
    (k <= count)%nat
    /\ map fst (Parser.parseListLoop settings doc count lineNumber
                                     contextStack parsedLines)
       = (map fst parsedLines ++ consecutive lineNumber k)%list.
Proof.
  induction count as [|count IH]; intros lineNumber contextStack parsedLines;
    simpl.
  - exists 0%nat; simpl. now rewrite app_nil_r.
  - repeat match goal with
           | |- context [if ?b then _ else _] => destruct b
           | |- context [match ?o with Some _ => _ | None => _ end] =>
               destruct o
           end;
      try (exists 0%nat; simpl; split; [lia|now rewrite app_nil_r]);
      match goal with
      | |- context [Parser.parseListLoop settings doc count ?n ?st ?pl] =>
          destruct (IH n st pl) as (k & Hk & ->)
      end;
      exists (S k); (split; [lia|]);
      rewrite map_app, <- app_assoc; reflexivity.
Qed.

Lemma parseList_lines start end_ :
  exists k,
    map fst (Parser.parseList settings doc start end_) = consecutive start k.
Proof.
  unfold Parser.parseList.
  destruct (parseListLoop_lines (iterationsLeft end_ start) start [] [])
    as (k & _ & H).
  exists k. exact H.
Qed.

(** The lists found so far follow one another below the current line. *)
Fixpoint chain (low : Z) (lists : list (list (Z * ParsedListLine)))
    (high : Z) : Prop :=
  match lists with
  | [] => low <= high
  | list :: rest =>
      exists first k,
        map fst list = consecutive first (S k)
        /\ low <= first
        /\ chain (first + Z.of_nat (S k)) rest high
  end.

Lemma chain_le low lists high : chain low lists high -> low <= high.
Proof.
  revert low; induction lists as [|list rest IH]; intros low; cbn [chain]; [auto|].
  intros (first & k & _ & Hlow & Hrest). apply IH in Hrest. lia.
Qed.

Lemma chain_weaken low lists high high' :
  chain low lists high -> high <= high' -> chain low lists high'.
Proof.
  revert low; induction lists as [|list rest IH]; intros low; cbn [chain]; [lia|].
  intros (first & k & Hl & Hlow & Hrest) Hle.
  exists first, k; repeat split; auto.
Qed.

Lemma chain_snoc low lists high list k :
  chain low lists high ->
  map fst list = consecutive high (S k) ->
  chain low (lists ++ [list]) (high + Z.of_nat (S k)).
Proof.
  revert low; induction lists as [|l rest IH]; intros low; cbn [chain app].
  - intros Hle Hl. exists high, k; repeat split; auto. lia.
  - intros (first & k' & Hl' & Hlow & Hrest) Hl.
    exists first, k'; repeat split; auto.
Qed.

Lemma chain_bounds low lists high :
  chain low lists high ->
  forall list n, In list lists -> In n (map fst list) -> low <= n < high.
Proof.
  revert low; induction lists as [|l rest IH]; intros low; cbn [chain In]; [tauto|].
  intros (first & k & Hl & Hlow & Hrest) list n [<-|Hin] Hn.
  - rewrite Hl in Hn. apply consecutive_In in Hn.
    apply chain_le in Hrest. lia.
  - specialize (IH _ Hrest list n Hin Hn). lia.
Qed.

Lemma chain_contiguous low lists high :
  chain low lists high ->
  forall list, In list lists ->
  exists first k, map fst list = consecutive first (S k).
Proof.
  revert low; induction lists as [|l rest IH]; intros low; cbn [chain In]; [tauto|].
  intros (first & k & Hl & Hlow & Hrest) list [<-|Hin]; eauto.
Qed.

Lemma chain_disjoint low lists high :
  chain low lists high ->
  forall i j list1 list2 n,
    (i < j)%nat ->
    nth_error lists i = Some list1 -> nth_error lists j = Some list2 ->
    In n (map fst list1) -> In n (map fst list2) -> False.
Proof.
  revert low; induction lists as [|l rest IH]; intros low; cbn [chain].
  - intros _ [|i] j; discriminate.
  - intros (first & k & Hl & Hlow & Hrest) i j list1 list2 n Hij H1 H2 Hn1 Hn2.
    destruct j as [|j]; [lia|]. simpl in H2.
    destruct i as [|i]; simpl in H1.
    + injection H1 as <-. rewrite Hl in Hn1. apply consecutive_In in Hn1.
      apply nth_error_In in H2.
      pose proof (chain_bounds _ _ _ Hrest _ _ H2 Hn2). lia.
    + apply (IH _ Hrest i j list1 list2 n); auto. lia.
Qed.

Lemma parseListsLoop_chain low end_ currentLine parsedLists :
  chain low parsedLists currentLine ->
  exists high,
    chain low (Parser.parseListsLoop settings doc end_ currentLine parsedLists)
          high.
Proof.
  funelim (Parser.parseListsLoop settings doc end_ currentLine parsedLists);
    intros Hchain.
  - exists currentLine. exact Hchain.
  - match goal with
    | IH : forall low, chain _ _ _ -> _ |- _ => apply IH
    end.
    apply chain_weaken with (high := currentLine); [assumption|lia].
  - match goal with
    | IH : forall low, chain _ _ _ -> _ |- _ => apply IH
    end.
    destruct (parseList_lines currentLine end_) as [k Hk].
    match goal with
    | H : Parser.parseList _ _ _ _ = _ :: _ |- _ => rewrite H in Hk
    end.
    destruct k as [|k]; [discriminate|].
    replace (Parser.maxLineNumber first others + 1)
      with (currentLine + Z.of_nat (S k)).
    + apply chain_snoc; assumption.
    + unfold Parser.maxLineNumber. simpl in Hk. injection Hk as -> ->.
      rewrite consecutive_max. lia.
Qed.

End ParserInvariant.

(** Line numbers that go up by exactly one from each entry to the next. *)
Definition increasingByOne (numbers : list Z) : Prop :=
  forall i a b,
    nth_error numbers i = Some a -> nth_error numbers (S i) = Some b ->
    b = a + 1.

(** C8.  Whatever the configuration, the document and the line range, the
    lists that [parseLists] returns are pairwise line-disjoint, and in each
    of them the line numbers go up by exactly one from a line to the next
    (none of the lists is empty). *)
Theorem parser_lists_disjoint_contiguous
    (settings : MoreOrderedListsSettings) (doc : Parser.Text)
    (start end_ : Z) :
  let lists := Parser.parseLists settings doc start end_ in
  (forall list, In list lists ->
     list <> [] /\ increasingByOne (map fst list))
  /\ (forall i j list1 list2 n,
        i <> j ->
        nth_error lists i = Some list1 -> nth_error lists j = Some list2 ->
        In n (map fst list1) -> In n (map fst list2) -> False).
Proof.
  intros lists.
  destruct (parseListsLoop_chain settings doc start end_ start []
              (Z.le_refl start)) as [high Hchain].
  fold (Parser.parseLists settings doc start end_) in Hchain.
  fold lists in Hchain. split.
  - intros list Hin.
    destruct (chain_contiguous _ _ _ Hchain list Hin) as (first & k & Hl).
    split.
    + intros ->. discriminate.
    + rewrite Hl. intros i a b. apply consecutive_nth.
  - intros i j list1 list2 n Hij H1 H2 Hn1 Hn2.
    destruct (Nat.lt_total i j) as [Hlt|[Heq|Hgt]]; [|contradiction|].
    + exact (chain_disjoint _ _ _ Hchain i j list1 list2 n Hlt H1 H2 Hn1 Hn2).
    + exact (chain_disjoint _ _ _ Hchain j i list2 list1 n Hgt H2 H1 Hn2 Hn1).
Qed.

Lemma parser_lists_disjoint_contiguous_witness :
  let lists :=
    Parser.parseLines DEFAULT_SETTINGS
      ["A. first"; "B. second"; "plain text"; "i) one"; "ii) two"] in
  List.length lists = 2%nat
  /\ (forall n, In n (map fst (nth 0 lists [])) ->
                In n (map fst (nth 1 lists [])) -> False).
Proof.
  intros lists. split; [reflexivity|].
  intros n.
  apply (proj2 (parser_lists_disjoint_contiguous
                  DEFAULT_SETTINGS
                  (Parser.mockDoc
                     ["A. first"; "B. second"; "plain text"; "i) one";
                      "ii) two"])
                  1 5) 0%nat 1%nat); [discriminate|reflexivity|reflexivity].
Defined.

(** ** Parsing one line *)

(** The input is empty or starts with a character outside the class. *)
Definition headFails (p : ascii -> bool) (s : string) : Prop :=
  match s with
  | EmptyString => True
  | String c _ => p c = false
  end.

(** A greedy repetition takes a whole run when the continuation accepts
    what follows it. *)
Lemma repMatch_greedy {R} p m rest (k : string -> option R) r :
  forallb p m = true -> headFails p rest -> k rest = Some r ->
  forall min, (min <= String.length m)%nat ->
  repMatch p min None (m ++ rest) k = Some r.
Proof.
  intros Hm Hrest Hk. induction m as [|c m IH]; intros min Hmin.
  - simpl in Hmin. assert (min = 0%nat) by lia; subst min.
    destruct rest as [|c rest]; simpl; [exact Hk|].
    simpl in Hrest. rewrite Hrest. simpl. exact Hk.
  - simpl in Hm. apply andb_prop in Hm as [Hc Hm].
    cbn [append repMatch]. rewrite Hc. cbn [exhausted negb andb predMax option_map].
    rewrite (IH Hm (Nat.pred min)); [reflexivity|]. simpl in Hmin. lia.
Qed.

(** A repetition fails on a run that is too short. *)
Lemma repMatch_short {R} p m rest (k : string -> option R) :
  forallb p m = true -> headFails p rest ->
  forall min max, (String.length m < min)%nat ->
  repMatch p min max (m ++ rest) k = None.
Proof.
  intros Hm Hrest. induction m as [|c m IH]; intros min max Hmin.
  - destruct min as [|min]; [simpl in Hmin; lia|].
    destruct rest as [|c rest]; simpl; [reflexivity|].
    simpl in Hrest. rewrite Hrest. reflexivity.
  - simpl in Hm. apply andb_prop in Hm as [Hc Hm].
    destruct min as [|min]; [simpl in Hmin; lia|].
    cbn [append repMatch]. rewrite Hc. simpl in Hmin.
    destruct (negb (exhausted max)); cbn [andb Nat.eqb]; [|reflexivity].
    rewrite (IH Hm); [reflexivity|]. simpl. lia.
Qed.

(** A repetition fails when the continuation fails on every input that
    starts with a character of the run or with what follows the run. *)
Lemma repMatch_skip_fail {R} p q ind rest (k : string -> option R) :
  forallb p ind = true ->
  (forall c, p c = true -> q c = false) ->
  headFails p rest -> headFails q rest ->
  (forall s, headFails q s -> k s = None) ->
  forall min max, repMatch p min max (ind ++ rest) k = None.
Proof.
  intros Hind Hpq Hrest Hqrest Hk.
  induction ind as [|c ind IH]; intros min max.
  - destruct rest as [|c rest]; cbn [append repMatch].
    + destruct (min =? 0)%nat; [apply Hk; exact I|reflexivity].
    + simpl in Hrest. rewrite Hrest. cbn [andb].
      destruct (min =? 0)%nat; [apply Hk; exact Hqrest|reflexivity].
  - simpl in Hind. apply andb_prop in Hind as [Hc Hind].
    cbn [append repMatch]. rewrite Hc, (IH Hind).
    assert (Hstop : k (String c (ind ++ rest)) = None)
      by (apply Hk; simpl; auto).
    rewrite Hstop. destruct (_ && _), (min =? 0)%nat; reflexivity.
Qed.

Lemma consumed_app m rest : consumed (m ++ rest) rest = m.
Proof.
  unfold consumed. rewrite append_length.
  replace (String.length m + String.length rest - String.length rest)%nat
    with (String.length m) by lia.
  induction m as [|c m IH]; simpl.
  - destruct rest; reflexivity.
  - now rewrite IH.
Qed.

Section ParseLine.

Variable settings : MoreOrderedListsSettings.

(** The characters of a marker token: the letters of the configured cases
    and the digits. *)
Definition markerChar (c : ascii) : bool :=
  Parser.alphabetChars settings c || isDigit c.

Lemma alphabetChars_letter c :
  Parser.alphabetChars settings c = true -> isUpper c || isLower c = true.
Proof.
  unfold Parser.alphabetChars.
  destruct (hasUppercase settings), (hasLowercase settings),
    (isUpper c), (isLower c); simpl; auto.
Qed.

Lemma letter_not_digit c : isUpper c || isLower c = true -> isDigit c = false.
Proof. unfold isUpper, isLower, isDigit, inRange. lia. Qed.

Lemma digit_not_alphabet c :
  isDigit c = true -> Parser.alphabetChars settings c = false.
Proof.
  intros Hd. destruct (Parser.alphabetChars settings c) eqn:E; [|reflexivity].
  apply alphabetChars_letter, letter_not_digit in E. congruence.
Qed.

Lemma space_not_markerChar c : isSpace c = true -> markerChar c = false.
Proof.
  intros Hs. unfold markerChar.
  destruct (Parser.alphabetChars settings c) eqn:E.
  - apply alphabetChars_letter in E.
    unfold isSpace, isUpper, isLower, inRange in *. lia.
  - unfold isSpace, isDigit, inRange in *. lia.
Qed.

Lemma space_not_bullet c : isSpace c = true -> Parser.isBullet c = false.
Proof.
  intros Hs. unfold Parser.isBullet.
  destruct (Ascii.eqb_spec c "*") as [->|_]; [discriminate|].
  destruct (Ascii.eqb_spec c "-") as [->|_]; [discriminate|].
  destruct (Ascii.eqb_spec c "+") as [->|_]; [discriminate|].
  reflexivity.
Qed.

Lemma markerChar_not_space c : markerChar c = true -> isSpace c = false.
Proof.
  intros Hm. destruct (isSpace c) eqn:E; [|reflexivity].
  apply space_not_markerChar in E. congruence.
Qed.

Lemma markerChar_not_bullet c : markerChar c = true -> Parser.isBullet c = false.
Proof.
  unfold markerChar, Parser.isBullet. intros [Ha|Hd]%orb_prop.
  - apply alphabetChars_letter in Ha.
    destruct (Ascii.eqb_spec c "*") as [->|_]; [discriminate|].
    destruct (Ascii.eqb_spec c "-") as [->|_]; [discriminate|].
    destruct (Ascii.eqb_spec c "+") as [->|_]; [discriminate|].
    reflexivity.
  - destruct (Ascii.eqb_spec c "*") as [->|_]; [discriminate|].
    destruct (Ascii.eqb_spec c "-") as [->|_]; [discriminate|].
    destruct (Ascii.eqb_spec c "+") as [->|_]; [discriminate|].
    reflexivity.
Qed.

(** The three shapes of a marker token. *)
Inductive MarkerShape (m : string) : Prop :=
| Digits :
    forallb isDigit m = true -> (1 <= String.length m)%nat -> MarkerShape m
| Letters :
    forallb (Parser.alphabetChars settings) m = true ->
    (2 <= String.length m)%nat ->
    MarkerShape m
| Letter c :
    m = String c "" -> Parser.alphabetChars settings c = true ->
    MarkerShape m.

Lemma markerPattern_shape m :
  Lang (Parser.buildMarkerPattern settings) m -> MarkerShape m.
Proof.
  unfold Parser.buildMarkerPattern.
  destruct ((hasUppercase settings || hasLowercase settings) && _);
    destruct ((hasUppercase settings || hasLowercase settings) && _);
    cbn [app joinAlt Lang].
  - intros [(H1 & H2 & _)|[(c & -> & Hc)|(H1 & H2 & _)]].
    + now apply Letters.
    + now apply Letter with c.
    + now apply Digits.
  - intros [(H1 & H2 & _)|(H1 & H2 & _)].
    + now apply Letters.
    + now apply Digits.
  - intros [(c & -> & Hc)|(H1 & H2 & _)].
    + now apply Letter with c.
    + now apply Digits.
  - intros (H1 & H2 & _). now apply Digits.
Qed.

Lemma shape_head m :
  MarkerShape m -> exists c t, m = String c t /\ markerChar c = true.
Proof.
  unfold markerChar.
  intros [Hd Hlen|Ha Hlen|c -> Hc].
  - destruct m as [|c t]; [simpl in Hlen; lia|].
    simpl in Hd. apply andb_prop in Hd as [Hc _].
    exists c, t. rewrite Hc, orb_true_r. auto.
  - destruct m as [|c t]; [simpl in Hlen; lia|].
    simpl in Ha. apply andb_prop in Ha as [Hc _].
    exists c, t. rewrite Hc. auto.
  - exists c, "". rewrite Hc. auto.
Qed.

(** The marker pattern fails where no marker character starts the input. *)
Lemma markerPattern_head_fail s caps k :
  headFails markerChar s ->
  rmatch (Parser.buildMarkerPattern settings) s caps k = None.
Proof.
  intros Hs.
  assert (Hrep : forall p min,
            (forall c, p c = true -> markerChar c = true) ->
            (0 < min)%nat ->
            repMatch p min None s (fun rest => k rest caps) = None).
  { intros p min Hp Hmin. destruct s as [|c s]; cbn [repMatch].
    - destruct min; [lia|reflexivity].
    - destruct (p c) eqn:Hc.
      + apply Hp in Hc. simpl in Hs. congruence.
      + destruct min; [lia|reflexivity]. }
  assert (Hcls : rmatch (Cls (Parser.alphabetChars settings)) s caps k = None).
  { destruct s as [|c s]; cbn [rmatch]; [reflexivity|].
    destruct (Parser.alphabetChars settings c) eqn:Hc; [|reflexivity].
    simpl in Hs. unfold markerChar in Hs. rewrite Hc in Hs. discriminate. }
  assert (Halpha : forall c, Parser.alphabetChars settings c = true ->
                             markerChar c = true)
    by (intros c Hc; unfold markerChar; now rewrite Hc).
  assert (Hdigit : forall c, isDigit c = true -> markerChar c = true)
    by (intros c Hc; unfold markerChar; now rewrite Hc, orb_true_r).
  unfold Parser.buildMarkerPattern.
  destruct ((hasUppercase settings || hasLowercase settings) && _);
    destruct ((hasUppercase settings || hasLowercase settings) && _);
    cbn [app joinAlt]; cbn [rmatch];
    rewrite ?Hrep by (auto; lia); fold (rmatch (Cls (Parser.alphabetChars settings)) s caps k);
    rewrite ?Hcls; reflexivity.
Qed.

Lemma headFails_alphabet s :
  headFails markerChar s -> headFails (Parser.alphabetChars settings) s.
Proof.
  destruct s as [|c s]; simpl; [auto|]. unfold markerChar.
  now intros [H _]%orb_false_elim.
Qed.

Lemma headFails_digit s : headFails markerChar s -> headFails isDigit s.
Proof.
  destruct s as [|c s]; simpl; [auto|]. unfold markerChar.
  now intros [_ H]%orb_false_elim.
Qed.

Lemma headFails_append p c t rest :
  p c = false -> headFails p (String c t ++ rest).
Proof. intros H. exact H. Qed.

(** The marker pattern takes a whole marker token when what follows is not a
    marker character and the continuation accepts it. *)
Lemma markerPattern_match m rest caps k r :
  Lang (Parser.buildMarkerPattern settings) m ->
  headFails markerChar rest ->
  k rest caps = Some r ->
  rmatch (Parser.buildMarkerPattern settings) (m ++ rest) caps k = Some r.
Proof.
  intros Hlang Hrest Hk.
  pose proof (headFails_alphabet _ Hrest) as Hrest_a.
  pose proof (headFails_digit _ Hrest) as Hrest_d.
  set (alpha := Parser.alphabetChars settings) in *.
  (* the alternatives on a marker of each shape *)
  assert (Hletters : forallb alpha m = true -> (2 <= String.length m)%nat ->
                     rmatch (Rep alpha 2 None) (m ++ rest) caps k = Some r).
  { intros Ha Hlen. cbn [rmatch].
    now apply repMatch_greedy with (k := fun rest => k rest caps). }
  assert (Hletter1 : forall c, alpha c = true ->
                     rmatch (Rep alpha 2 None) (String c "" ++ rest) caps k
                     = None).
  { intros c Hc. cbn [rmatch]. apply repMatch_short; auto.
    simpl. now rewrite Hc. }
  assert (Hletter2 : forall c, alpha c = true ->
                     rmatch (Cls alpha) (String c "" ++ rest) caps k = Some r).
  { intros c Hc. cbn [rmatch append]. now rewrite Hc. }
  assert (Hhead : forallb isDigit m = true -> (1 <= String.length m)%nat ->
                  headFails alpha (m ++ rest)).
  { intros Hd Hlen. destruct m as [|c t]; [simpl in Hlen; lia|].
    simpl in Hd. apply andb_prop in Hd as [Hc _].
    apply headFails_append. now apply digit_not_alphabet. }
  assert (Hdigits1 : forallb isDigit m = true -> (1 <= String.length m)%nat ->
                     rmatch (Rep alpha 2 None) (m ++ rest) caps k = None).
  { intros Hd Hlen. cbn [rmatch].
    apply (repMatch_short alpha "" (m ++ rest)); simpl; auto. }
  assert (Hdigits2 : forallb isDigit m = true -> (1 <= String.length m)%nat ->
                     rmatch (Cls alpha) (m ++ rest) caps k = None).
  { intros Hd Hlen. specialize (Hhead Hd Hlen). cbn [rmatch].
    destruct (m ++ rest) as [|c t]; [reflexivity|].
    simpl in Hhead. now rewrite Hhead. }
  assert (Hdigits3 : forallb isDigit m = true -> (1 <= String.length m)%nat ->
                     rmatch (Rep isDigit 1 None) (m ++ rest) caps k = Some r).
  { intros Hd Hlen. cbn [rmatch].
    now apply repMatch_greedy with (k := fun rest => k rest caps). }
  revert Hlang. unfold Parser.buildMarkerPattern. fold alpha.
  destruct ((hasUppercase settings || hasLowercase settings) && _);
    destruct ((hasUppercase settings || hasLowercase settings) && _);
    cbn [app joinAlt Lang].
  - intros [(H1 & H2 & _)|[(c & -> & Hc)|(H1 & H2 & _)]];
      change (rmatch (Alt ?a ?b) ?s ?cs ?kk)
        with (match rmatch a s cs kk with
              | Some res => Some res
              | None => rmatch b s cs kk
              end).
    + now rewrite Hletters.
    + rewrite Hletter1 by assumption.
      change (rmatch (Alt ?a ?b) ?s ?cs ?kk)
        with (match rmatch a s cs kk with
              | Some res => Some res
              | None => rmatch b s cs kk
              end).
      now rewrite Hletter2.
    + rewrite Hdigits1 by assumption.
      change (rmatch (Alt ?a ?b) ?s ?cs ?kk)
        with (match rmatch a s cs kk with
              | Some res => Some res
              | None => rmatch b s cs kk
              end).
      rewrite Hdigits2 by assumption. now apply Hdigits3.
  - intros [(H1 & H2 & _)|(H1 & H2 & _)];
      change (rmatch (Alt ?a ?b) ?s ?cs ?kk)
        with (match rmatch a s cs kk with
              | Some res => Some res
              | None => rmatch b s cs kk
              end).
    + now rewrite Hletters.
    + rewrite Hdigits1 by assumption. now apply Hdigits3.
  - intros [(c & -> & Hc)|(H1 & H2 & _)];
      change (rmatch (Alt ?a ?b) ?s ?cs ?kk)
        with (match rmatch a s cs kk with
              | Some res => Some res
              | None => rmatch b s cs kk
              end).
    + now rewrite Hletter2.
    + rewrite Hdigits2 by assumption. now apply Hdigits3.
  - intros (H1 & H2 & _). now apply Hdigits3.
Qed.

Lemma consumed_all t : consumed t "" = t.
Proof.
  pose proof (consumed_app t "") as H. now rewrite append_nil_r in H.
Qed.

(** The end of every pattern: one space, then the content up to the end of
    the line. *)
Lemma content_match t caps :
  forallb anyChar t = true ->
  rmatch (Cat (Chr " ") (Grp (Rep anyChar 0 None))) (String " " t) caps
    (fun rest caps1 =>
       match rest with EmptyString => Some caps1 | _ => None end)
  = Some (caps ++ [t])%list.
Proof.
  intros Ht. cbn [rmatch Chr]. cbn [Ascii.eqb Bool.eqb].
  pose proof (repMatch_greedy anyChar t ""
                (fun rest =>
                   match rest with
                   | EmptyString => Some (caps ++ [consumed t rest])%list
                   | _ => None
                   end)
                (caps ++ [t])%list Ht I) as H.
  cbv beta iota in H. rewrite consumed_all, append_nil_r in H.
  apply H; [reflexivity|lia].
Qed.

(** The white space at the start of every pattern. *)
Lemma spaces_match ind rest k r :
  forallb isSpace ind = true -> headFails isSpace rest ->
  k rest [ind] = Some r ->
  rmatch (Grp (Rep isSpace 0 None)) (ind ++ rest) [] k = Some r.
Proof.
  intros Hind Hrest Hk. cbn [rmatch].
  apply repMatch_greedy; auto; [|lia].
  cbn [app]. now rewrite consumed_app.
Qed.

Lemma spaces_fail q ind rest (k : string -> list string -> option (list string)) :
  forallb isSpace ind = true ->
  (forall c, isSpace c = true -> q c = false) ->
  headFails isSpace rest -> headFails q rest ->
  (forall s caps, headFails q s -> k s caps = None) ->
  rmatch (Grp (Rep isSpace 0 None)) (ind ++ rest) [] k = None.
Proof.
  intros Hind Hq Hrest Hqrest Hk. cbn [rmatch].
  apply repMatch_skip_fail with (q := q); auto.
Qed.

Lemma rmatch_Cat a b s caps k :
  rmatch (Cat a b) s caps k
  = rmatch a s caps (fun rest caps1 => rmatch b rest caps1 k).
Proof. reflexivity. Qed.

Lemma rmatch_Grp a s caps k :
  rmatch (Grp a) s caps k
  = rmatch a s caps
      (fun rest caps1 => k rest (caps1 ++ [consumed s rest])%list).
Proof. reflexivity. Qed.

Lemma rmatch_Chr c rest caps k :
  rmatch (Chr c) (String c rest) caps k = k rest caps.
Proof. unfold Chr. cbn [rmatch]. now rewrite Ascii.eqb_refl. Qed.


Lemma rmatch_Cls p c rest caps k :
  p c = true -> rmatch (Cls p) (String c rest) caps k = k rest caps.
Proof. intros H. cbn [rmatch]. now rewrite H. Qed.


Lemma standard_none ind rest :
  forallb isSpace ind = true ->
  headFails isSpace rest -> headFails markerChar rest ->
  exec (Parser.standardRegex settings) (ind ++ rest) = None.
Proof.
  intros Hind Hrest Hmarker. unfold exec, Parser.standardRegex.
  rewrite rmatch_Cat. apply spaces_fail with (q := markerChar); auto.
  - apply space_not_markerChar.
  - intros s caps Hs. rewrite rmatch_Cat, rmatch_Grp.
    now apply markerPattern_head_fail.
Qed.

Lemma standard_some ind m sepChar t :
  forallb isSpace ind = true ->
  Lang (Parser.buildMarkerPattern settings) m ->
  Parser.buildSeparatorPattern settings sepChar = true ->
  markerChar sepChar = false ->
  forallb anyChar t = true ->
  exec (Parser.standardRegex settings)
       (ind ++ m ++ String sepChar (String " " t))
  = Some [ind; m; String sepChar ""; t].
Proof.
  intros Hind Hm Hsep Hnot Ht. unfold exec, Parser.standardRegex.
  destruct (shape_head m (markerPattern_shape m Hm)) as (c & m' & Em & Hc).
  rewrite rmatch_Cat. apply spaces_match; auto.
  - rewrite Em. apply headFails_append. now apply markerChar_not_space.
  - cbv beta. rewrite rmatch_Cat, rmatch_Grp.
    apply markerPattern_match; [assumption|exact Hnot|].
    cbv beta. rewrite consumed_app, rmatch_Cat, rmatch_Grp.
    rewrite rmatch_Cls by assumption.
    change (String sepChar (String " " t))
      with (String sepChar "" ++ String " " t).
    rewrite consumed_app. exact (content_match t _ Ht).
Qed.

Lemma parens_some ind m t :
  forallb isSpace ind = true ->
  Lang (Parser.buildMarkerPattern settings) m ->
  forallb anyChar t = true ->
  exec (Parser.parenthesesPattern settings)
       (ind ++ String "(" (m ++ String ")" (String " " t)))
  = Some [ind; m; t].
Proof.
  intros Hind Hm Ht. unfold exec, Parser.parenthesesPattern.
  rewrite rmatch_Cat. apply spaces_match; auto.
  - reflexivity.
  - cbv beta. rewrite rmatch_Cat, rmatch_Chr.
    rewrite rmatch_Cat, rmatch_Grp.
    apply markerPattern_match; [assumption| |].
    + unfold headFails, markerChar.
      destruct (Parser.alphabetChars settings ")") eqn:E; [|reflexivity].
      apply alphabetChars_letter in E. discriminate E.
    + cbv beta. rewrite consumed_app, rmatch_Cat, rmatch_Chr.
      exact (content_match t _ Ht).
Qed.

End ParseLine.

(** The Marker Lines that the grammar of a configuration can produce, with
    the leading space in [content]: white space as indentation, a marker
    token, a separator that is enabled, and after the space a text without
    line terminators. *)
Record wellFormed (settings : MoreOrderedListsSettings)
    (self : ParsedListLine) (text : string) : Prop := {
  wf_indentation : forallb isSpace (indentation self) = true;
  wf_marker : test (Parser.buildMarkerPattern settings) (marker self) = true;
  wf_separator :
    separator self = Dot \/ enableParentheses settings = true;
  wf_content : content self = String " " text;
  wf_text : forallb anyChar text = true
}.



(** The line "a. x".  The Marker Line with the leading space in its content
    renders to it; the parser of [src/src/parser.ts] returns the content
    without that space, a Marker Line that is not the one rendered and that
    renders to "a.x"; the parser of [src/unnamed/part_001] returns the line
    rendered. *)
Lemma parse_after_render_drops_space :
  let self := mkLine Alphabetical "" "a" Dot " x" in
  getLineText self = "a. x"
  /\ Parser.parseLine DEFAULT_SETTINGS (getLineText self) None
     = Some (mkLine Alphabetical "" "a" Dot "x")
  /\ Parser.parseLine DEFAULT_SETTINGS (getLineText self) None <> Some self
  /\ getLineText (mkLine Alphabetical "" "a" Dot "x") = "a.x"
  /\ CorrectingParser.parseLine DEFAULT_SETTINGS (getLineText self) None
     = Ok (Some self).
Proof.
  repeat split; try reflexivity. discriminate.
Qed.

(** ** The key handlers *)

Section KeyOperations.

Import CodeMirror.

Variable settings : MoreOrderedListsSettings.
Variable correctNextMarker :
  ParsedListLine -> ParsedListLine -> MoreOrderedListsSettings ->
  ParsedListLine * option Error.

#[local] Abbreviation reorderStep :=
  (KeyHandler.reorderStep settings correctNextMarker).
#[local] Abbreviation reorderLoop :=
  (KeyHandler.reorderLoop settings correctNextMarker).
#[local] Abbreviation collectReorderChanges :=
  (KeyHandler.collectReorderChanges settings correctNextMarker).
#[local] Abbreviation tabKey :=
  (KeyHandler.tabKey settings correctNextMarker).
#[local] Abbreviation enterKey :=
  (KeyHandler.enterKey settings correctNextMarker).

(** [doc.line(n)] returns a line for the numbers of the document. *)
Lemma lineLoop_total rest : forall number from skip,
  (skip < List.length rest)%nat ->
  exists l, lineLoop rest number from skip = Ok l.
Proof.
  induction rest as [|t rest IH]; intros number from skip Hskip;
    simpl in Hskip; [lia|].
  destruct skip as [|skip]; simpl; [eauto|]. apply IH. lia.
Qed.

Lemma line_total doc n :
  1 <= n <= lines doc -> exists l, line doc n = Ok l.
Proof.
  unfold line, lines. intros Hn.
  destruct (n <? 1) eqn:E; zbool; [lia|]. apply lineLoop_total. lia.
Qed.

(** One round of the walk returns, whatever [correctNextMarker] does, and
    keeps the changes collected before it. *)
Lemma reorderStep_keeps doc modifiedLineNumber modifiedLine stack changes
    entry :
  1 <= fst entry ->
  exists stack' more,
    reorderStep doc modifiedLineNumber modifiedLine (stack, changes) entry
    = Ok (stack', (changes ++ more)%list).
Proof.
  destruct entry as [originalLineNumber parsedLine]; intros Hn.
  unfold KeyHandler.reorderStep. simpl in Hn.
  destruct (modifiedLineNumber <? originalLineNumber); simpl.
  - destruct (originalLineNumber <=? lines doc) eqn:Ein; zbool; simpl.
    + destruct (line_total doc originalLineNumber ltac:(lia)) as [l ->].
      simpl. destruct (negb _); simpl.
      * eexists _, _. reflexivity.
      * eexists _, []. now rewrite app_nil_r.
    + eexists _, []. now rewrite app_nil_r.
  - eexists _, []. now rewrite app_nil_r.
Qed.

Lemma reorderLoop_keeps doc modifiedLineNumber modifiedLine parsedList :
  (forall entry, In entry parsedList -> 1 <= fst entry) ->
  forall stack changes,
  exists stack' more,
    reorderLoop doc modifiedLineNumber modifiedLine parsedList (stack, changes)
    = Ok (stack', (changes ++ more)%list).
Proof.
  induction parsedList as [|entry rest IH]; intros Hnum stack changes.
  - exists stack, []. simpl. now rewrite app_nil_r.
  - cbn [KeyHandler.reorderLoop].
    destruct (reorderStep_keeps doc modifiedLineNumber modifiedLine stack
                changes entry (Hnum entry (or_introl eq_refl)))
      as (stack1 & more1 & ->).
    cbn [bind].
    destruct (IH (fun e He => Hnum e (or_intror He)) stack1
                 (changes ++ more1)%list) as (stack2 & more2 & ->).
    exists stack2, (more1 ++ more2)%list. now rewrite app_assoc.
Qed.

Lemma collectReorderChanges_keeps view changes parsedList modifiedLineNumber
    modifiedLine :
  (forall entry, In entry parsedList -> 1 <= fst entry) ->
  exists more,
    collectReorderChanges view changes parsedList modifiedLineNumber
                          modifiedLine
    = Ok (changes ++ more)%list.
Proof.
  intros Hnum. unfold KeyHandler.collectReorderChanges.
  destruct (reorderLoop_keeps (doc view) modifiedLineNumber modifiedLine
              parsedList Hnum [] changes) as (stack & more & ->).
  exists more. reflexivity.
Qed.

(** ** The handlers that dispatch, then parse again *)

(** [doc.lineAt(pos)] returns the line that holds the position: any position
    from its start to its end gives the same line, and it is the line of
    its number. *)
Lemma lineAtLoop_line rest : forall number from pos l,
  lineAtLoop rest number from pos = Ok l ->
  from <= CodeMirror.from l
  /\ number <= CodeMirror.number l
  /\ to l = CodeMirror.from l + Z.of_nat (String.length (text l))
  /\ (Z.to_nat (CodeMirror.number l - number) < List.length rest)%nat
  /\ nth (Z.to_nat (CodeMirror.number l - number)) rest "" = text l
  /\ forall pos',
       CodeMirror.from l <= pos' <= to l ->
       lineAtLoop rest number from pos' = Ok l.
Proof.
  induction rest as [|t rest IH]; intros number from pos l;
    cbn [lineAtLoop]; [discriminate|].
  destruct (pos <=? from + Z.of_nat (String.length t)) eqn:E; zbool.
  - intros [= <-]. cbn [CodeMirror.from CodeMirror.number to text].
    replace (number - number) with 0 by lia.
    repeat split; try lia; try reflexivity; cbn [List.length]; try lia.
    intros pos' Hpos'.
    destruct (pos' <=? _) eqn:E'; zbool; [reflexivity|lia].
  - intros Hl. apply IH in Hl as (Hfrom & Hnum & Hto & Hlen & Hnth & Hsame).
    replace (Z.to_nat (CodeMirror.number l - number))
      with (S (Z.to_nat (CodeMirror.number l - (number + 1)))) by lia.
    repeat split; try lia; try assumption; cbn [List.length]; try lia.
    intros pos' Hpos'.
    destruct (pos' <=? _) eqn:E'; zbool; [lia|]. now apply Hsame.
Qed.

Lemma substring_none s : forall m, substring (String.length s) m s = "".
Proof.
  induction s as [|c s IH]; intros m; cbn [String.length substring].
  - now destruct m.
  - apply IH.
Qed.

(** The document with the line of number [n + 1] replaced. *)
Definition withLine (doc : Doc) (n : nat) (t : string) : Doc :=
  (firstn n doc ++ [t] ++ skipn (S n) doc)%list.

(** Replacing the whole of a line by the empty text empties the line. *)
Lemma dispatch_clears doc pos l :
  lineAt doc pos = Ok l ->
  dispatch doc [Change (CodeMirror.from l) (to l) ""]
  = Ok (withLine doc (Z.to_nat (CodeMirror.number l - 1)) "").
Proof.
  unfold lineAt. destruct (pos <? 0) eqn:Epos; [discriminate|].
  intros Hl.
  destruct (lineAtLoop_line _ _ _ _ _ Hl)
    as (Hfrom & Hnum & Hto & Hlen & Hnth & Hsame).
  cbn [dispatch fold_right bind applyChange].
  destruct (to l <? CodeMirror.from l) eqn:E; zbool; [lia|].
  unfold lineAt.
  destruct (CodeMirror.from l <? 0) eqn:E1; zbool; [lia|].
  destruct (to l <? 0) eqn:E2; zbool; [lia|].
  rewrite !Hsame by lia. cbn [bind].
  replace (CodeMirror.from l - CodeMirror.from l) with 0 by lia.
  replace (to l - CodeMirror.from l)
    with (Z.of_nat (String.length (text l))) by lia.
  rewrite Nat2Z.id, substring_none.
  change (Z.to_nat 0) with 0%nat.
  replace (substring 0 0 (text l)) with "" by (now destruct (text l)).
  unfold withLine. cbn [append splitLines].
  replace (Z.to_nat (CodeMirror.number l))
    with (S (Z.to_nat (CodeMirror.number l - 1))) by lia.
  reflexivity.
Qed.

Lemma lineLoop_withLine pre t post : forall number from,
  exists l,
    lineLoop (pre ++ t :: post) number from (List.length pre) = Ok l
    /\ text l = t.
Proof.
  induction pre as [|p pre IH]; intros number from;
    cbn [app List.length lineLoop].
  - eexists. split; reflexivity.
  - apply IH.
Qed.

Lemma withLine_text doc n t :
  (n < List.length doc)%nat ->
  Parser.lineText (asText (withLine doc n t)) (Z.of_nat n + 1) = t.
Proof.
  intros Hn. unfold asText, withLine, line. cbn [Parser.lineText].
  destruct (Z.of_nat n + 1 <? 1) eqn:E; zbool; [lia|].
  replace (Z.to_nat (Z.of_nat n + 1 - 1)) with (List.length (firstn n doc))
    by (rewrite length_firstn; lia).
  cbn [app].
  destruct (lineLoop_withLine (firstn n doc) t (skipn (S n) doc) 1 0)
    as (l & -> & Ht).
  exact Ht.
Qed.

Lemma withLine_lines doc n t :
  (n < List.length doc)%nat -> lines (withLine doc n t) = lines doc.
Proof.
  intros Hn. unfold lines, withLine.
  rewrite !length_app, length_firstn, length_skipn. cbn [List.length]. lia.
Qed.

(** The empty line is no list line. *)
Lemma correcting_parseLine_empty context :
  CorrectingParser.parseLine settings "" context = Ok None.
Proof.
  destruct settings as [alpha roman nested style parens jura].
  destruct alpha, roman, nested, style, parens; reflexivity.
Qed.

Lemma correcting_parseList_empty doc n :
  1 <= n -> Parser.lineText doc n = "" ->
  CorrectingParser.parseList settings doc n (Parser.lines doc) = Ok [].
Proof.
  intros Hn Hempty. unfold CorrectingParser.parseList.
  destruct (Z.to_nat n) as [|count] eqn:E; [lia|].
  cbn [CorrectingParser.listStartLoop].
  rewrite Hempty, correcting_parseLine_empty. cbn [bind].
  now rewrite Z.eqb_refl.
Qed.

(** After the edited line has been emptied there is nothing to reorder. *)
Lemma reorder_emptied doc n :
  (n < List.length doc)%nat ->
  ReparsingKeyHandler.reorder settings (withLine doc n "") (Z.of_nat n + 1)
  = (withLine doc n "", Ok tt).
Proof.
  intros Hn. unfold ReparsingKeyHandler.reorder.
  replace (lines (withLine doc n ""))
    with (Parser.lines (asText (withLine doc n ""))) by reflexivity.
  rewrite correcting_parseList_empty;
    [reflexivity|lia|now apply withLine_text].
Qed.

Lemma reparsing_found view currentLine current :
  ReparsingKeyHandler.getCurrentParsedLine settings view
  = Ok (Some (currentLine, current)) ->
  lineAt (doc view) (head (selection view)) = Ok currentLine.
Proof.
  unfold ReparsingKeyHandler.getCurrentParsedLine.
  destruct (_ || _); [discriminate|].
  destruct (lineAt _ _) as [l|e]; cbn [bind]; [|discriminate].
  destruct (CorrectingParser.parseList _ _ _ _) as [parsedList|e];
    cbn [bind]; [|discriminate].
  destruct (Parser.findLine _ _) as [[k c]|]; [|discriminate].
  now intros [= <- _].
Qed.

(** A handler that has dispatched answers true, or an exception leaves
    it. *)
Lemma reparsing_handled outcome after :
  ReparsingKeyHandler.handled outcome <> (after, Ok false).
Proof.
  unfold ReparsingKeyHandler.handled.
  destruct outcome as [d [[]|e]]; cbn [fst snd bind]; congruence.
Qed.

(** C5, as the code has it.  Both key handlers, for the line under the
    cursor of a list.
    - Shift-Tab on a line whose indentation cannot be decreased is rejected:
      the handler answers false and the document is as it was.
    - A handler that answers false has dispatched no change.
    - Enter on an item without text whose indentation cannot be decreased
      is handled: the handler empties the line, which changes the document.
    - In the handler that works on a parsed list, the forward walk
      [collectReorderChanges] does not fail where the marker of a line
      cannot be corrected: whatever [correctNextMarker] throws is ignored,
      the walk returns, and the changes collected before, the one of the
      edited line among them, are kept and dispatched. *)
Theorem key_operation_failures (view : EditorView) :
  (forall currentLine parsedList current,
     KeyHandler.currentParsedLine settings view
     = Ok (Some (currentLine, parsedList, current)) ->
     (forall e,
        decreaseIndentationLevel current = Throw e ->
        tabKey view true = Ok (false, []))
     /\ (forall shift changes,
           tabKey view shift = Ok (false, changes) -> changes = [])
     /\ (forall changes, enterKey view = Ok (false, changes) -> changes = [])
     /\ (forall e,
           decreaseIndentationLevel current = Throw e ->
           (type current = Alphabetical ->
            exists value,
              getValue current (isRepeated (nestedAlphabeticalMode settings))
              = Ok value
              /\ match value with Some v => v =? 26 | None => false end
                 && isDisabled (nestedAlphabeticalMode settings) = false) ->
           KeyHandler.hasText (content current) = false ->
           from currentLine
           + (Z.of_nat (String.length (getLineText current))
              - Z.of_nat (String.length (content current)))
           <= head (selection view) ->
           enterKey view
           = Ok (true, [Change (from currentLine) (to currentLine) ""]))
     /\ (forall changes list modifiedLineNumber modifiedLine,
           (forall entry, In entry list -> 1 <= fst entry) ->
           exists more,
             collectReorderChanges view changes list modifiedLineNumber
                                   modifiedLine
             = Ok (changes ++ more)%list))
  /\ (forall currentLine current,
        ReparsingKeyHandler.getCurrentParsedLine settings view
        = Ok (Some (currentLine, current)) ->
        (forall e,
           decreaseIndentationLevel current = Throw e ->
           ReparsingKeyHandler.tabKey settings view true
           = (doc view, Ok false))
        /\ (forall e,
              decreaseIndentationLevel current = Throw e ->
              (type current = Alphabetical ->
               exists value,
                 getValue current
                          (isRepeated (nestedAlphabeticalMode settings))
                 = Ok value
                 /\ match value with Some v => v =? 26 | None => false end
                    && isDisabled (nestedAlphabeticalMode settings) = false) ->
              KeyHandler.hasText (content current) = false ->
              from currentLine
              + Z.of_nat (String.length (getLineText (setContent current " ")))
              <= head (selection view) ->
              ReparsingKeyHandler.enterKey settings view
              = (withLine (doc view) (Z.to_nat (number currentLine - 1)) "",
                 Ok true)))
  /\ (forall shift after,
        ReparsingKeyHandler.tabKey settings view shift = (after, Ok false) ->
        after = doc view)
  /\ (forall after,
        ReparsingKeyHandler.enterKey settings view = (after, Ok false) ->
        after = doc view).
Proof.
  split; [|split; [|split]].
  - intros currentLine parsedList current Hfound.
    split; [|split; [|split; [|split]]].
    + intros e He. unfold KeyHandler.tabKey. rewrite Hfound. cbn [bind].
      rewrite He. reflexivity.
    + intros shift changes. unfold KeyHandler.tabKey. rewrite Hfound.
      cbn [bind]. unfold KeyHandler.handled, KeyHandler.notHandled, bind.
      destruct shift;
        repeat match goal with
               | |- context [match ?x with _ => _ end] => destruct x
               end; congruence.
    + intros changes. unfold KeyHandler.enterKey. rewrite Hfound.
      cbn [bind]. unfold KeyHandler.handled, KeyHandler.notHandled, bind.
      repeat match goal with
             | |- context [match ?x with _ => _ end] => destruct x
             | |- context [if ?x then _ else _] => destruct x
             end; congruence.
    + intros e He Hz Htext Hcursor.
      unfold KeyHandler.enterKey. rewrite Hfound. cbn [bind].
      assert (Hafter :
                (if ListType_eqb (type current) Alphabetical
                 then bind (getValue current
                              (isRepeated (nestedAlphabeticalMode settings)))
                           (fun value =>
                              Ok (match value with
                                  | Some v => v =? 26
                                  | None => false
                                  end
                                  && isDisabled
                                       (nestedAlphabeticalMode settings)))
                 else Ok false) = Ok false).
      { destruct (type current) eqn:Et; cbn [ListType_eqb]; try reflexivity.
        destruct (Hz eq_refl) as (value & -> & Hv). cbn [bind].
        now rewrite Hv. }
      rewrite Hafter. cbn [bind].
      destruct (_ <? _) eqn:Ecur; zbool; [lia|].
      rewrite Htext, He. reflexivity.
    + intros changes list modifiedLineNumber modifiedLine.
      apply collectReorderChanges_keeps.
  - intros currentLine current Hfound. split.
    + intros e He. unfold ReparsingKeyHandler.tabKey.
      rewrite Hfound, He. reflexivity.
    + intros e He Hz Htext Hcursor.
      pose proof (reparsing_found _ _ _ Hfound) as Hline.
      unfold ReparsingKeyHandler.enterKey. rewrite Hfound.
      assert (Hafter :
                (if ListType_eqb (type current) Alphabetical
                 then bind (getValue current
                              (isRepeated (nestedAlphabeticalMode settings)))
                           (fun value =>
                              Ok (match value with
                                  | Some v => v =? 26
                                  | None => false
                                  end
                                  && isDisabled
                                       (nestedAlphabeticalMode settings)))
                 else Ok false) = Ok false).
      { destruct (type current) eqn:Et; cbn [ListType_eqb]; try reflexivity.
        destruct (Hz eq_refl) as (value & -> & Hv). cbn [bind].
        now rewrite Hv. }
      rewrite Hafter. cbv zeta.
      destruct (_ <? _) eqn:Ecur; zbool; [lia|].
      rewrite Htext.
      assert (Hdec : decreaseIndentationLevel (setContent current " ")
                     = Throw e).
      { unfold decreaseIndentationLevel in *. cbn [setContent indentation].
        destruct (decreaseIndentation (indentation current));
          congruence. }
      rewrite Hdec. unfold ReparsingKeyHandler.updateLineAndReorder.
      rewrite (dispatch_clears _ _ _ Hline).
      unfold lineAt in Hline.
      destruct (head (selection view) <? 0); [discriminate|].
      destruct (lineAtLoop_line _ _ _ _ _ Hline)
        as (_ & Hnum & _ & Hlen & _ & _).
      replace (number currentLine)
        with (Z.of_nat (Z.to_nat (number currentLine - 1)) + 1) at 2 by lia.
      rewrite reorder_emptied by exact Hlen. reflexivity.
  - intros shift after. unfold ReparsingKeyHandler.tabKey.
    destruct (ReparsingKeyHandler.getCurrentParsedLine settings view)
      as [[[currentLine current]|]|e]; try congruence.
    destruct (if shift then _ else _) as [moved|e]; [|congruence].
    intros H. now apply reparsing_handled in H.
  - intros after. unfold ReparsingKeyHandler.enterKey.
    destruct (ReparsingKeyHandler.getCurrentParsedLine settings view)
      as [[[currentLine current]|]|e]; try congruence.
    destruct (if ListType_eqb _ _ then _ else _) as [[|]|e]; try congruence.
    cbv zeta. destruct (_ <? _); [congruence|].
    destruct (KeyHandler.hasText _).
    + destruct (dispatch _ _) as [inserted|e]; [|congruence].
      destruct (lineAt inserted _) as [nextLine|e]; [|congruence].
      intros H. now apply reparsing_handled in H.
    + intros H. now apply reparsing_handled in H.
Qed.

End KeyOperations.

Lemma key_operation_failures_witness :
  let view := CodeMirror.mkView ["i) "]
                (CodeMirror.mkSelection true 1 3) in
  (KeyHandler.tabKey DEFAULT_SETTINGS SpecModel.correctNextMarker view true
   = Ok (false, [])
   /\ KeyHandler.enterKey DEFAULT_SETTINGS SpecModel.correctNextMarker view
      = Ok (true, [CodeMirror.Change 0 3 ""]))
  /\ (ReparsingKeyHandler.tabKey DEFAULT_SETTINGS view true
      = (["i) "], Ok false)
      /\ ReparsingKeyHandler.enterKey DEFAULT_SETTINGS view
         = ([""], Ok true)).
Proof.
  intros view.
  destruct (key_operation_failures
              DEFAULT_SETTINGS SpecModel.correctNextMarker view)
    as (Hlist & Hreparsing & _ & _).
  destruct (Hlist (CodeMirror.mkCMLine 1 0 3 "i) ")
                  [(1, mkLine Roman "" "i" Parenthesis "")]
                  (mkLine Roman "" "i" Parenthesis "") eq_refl)
    as (Htab & _ & _ & Henter & _).
  destruct (Hreparsing (CodeMirror.mkCMLine 1 0 3 "i) ")
                       (mkLine Roman "" "i" Parenthesis " ") eq_refl)
    as (Htab' & Henter').
  split; split.
  - apply (Htab NoIndentationToDecrease). reflexivity.
  - apply (Henter NoIndentationToDecrease); try reflexivity.
    + discriminate.
    + simpl. lia.
  - apply (Htab' NoIndentationToDecrease). reflexivity.
  - apply (Henter' NoIndentationToDecrease);
      first [reflexivity | discriminate | (simpl; lia)].
Defined.

(** The claim C5 fails on Enter at the end of the empty item "a. ".  The
    indentation of the line cannot be decreased, and either key handler, far
    from leaving the document as it is, handles the key and empties the
    line: the one that dispatches at once leaves the document with the
    empty line, the one that works on a parsed list dispatches the change
    that removes the text of the line, whatever [correctNextMarker] is. *)
Lemma resequencing_is_not_all_or_nothing :
  let view := CodeMirror.mkView ["a. "] (CodeMirror.mkSelection true 1 3) in
  decreaseIndentationLevel (mkLine Alphabetical "" "a" Dot " ")
  = Throw NoIndentationToDecrease
  /\ ReparsingKeyHandler.enterKey DEFAULT_SETTINGS view = ([""], Ok true)
  /\ (forall correctNextMarker,
        KeyHandler.enterKey DEFAULT_SETTINGS correctNextMarker view
        = Ok (true, [CodeMirror.Change 0 3 ""])).
Proof.
  intros view. split; [reflexivity|]. split; [vm_compute; reflexivity|].
  intros correctNextMarker. reflexivity.
Qed.

(** The handler that dispatches at once commits the new line before it
    parses the list again.  In repeated-letters mode no marker follows a run
    of ten "z": Enter at the end of such an item inserts the new line, the
    parser throws on the document with that line, and the exception leaves
    the handler with the document changed. *)
Lemma enter_throws_after_dispatch :
  ReparsingKeyHandler.enterKey
    (mkSettings true true repeated both true false)
    (CodeMirror.mkView ["zzzzzzzzzz. x"] (CodeMirror.mkSelection true 1 13))
  = (["zzzzzzzzzz. x"; "zzzzzzzzzz. "], Throw TooLargeForRepeatedLetters).
Proof. vm_compute. reflexivity. Qed.

(* ===================================================================== *)
(** * Further properties of the code                                       *)
(* ===================================================================== *)

(** ** Indentation levels (types.ts) *)

Definition tab : ascii := "009"%char.

Lemma indentationLoop_level bound : forall s level,
  indentationLoop bound s level = (level + indentationLoop bound s 0)%nat.
Proof.
  induction bound as [|bound IH]; intros s level; [simpl; lia|].
  destruct s as [|c rest]; [simpl; lia|].
  cbn [indentationLoop].
  destruct (Ascii.eqb c "009").
  - rewrite (IH rest (level + 1)%nat), (IH rest (0 + 1)%nat). lia.
  - destruct (Ascii.eqb c " ").
    + destruct (spanSpaces (String c rest)) as [spaces after].
      rewrite (IH after (level + _)%nat), (IH after (0 + _)%nat). lia.
    + apply IH.
Qed.

Lemma spanSpaces_space s :
  spanSpaces (String " " s) = (S (fst (spanSpaces s)), snd (spanSpaces s)).
Proof. cbn [spanSpaces]. now destruct (spanSpaces s). Qed.

Lemma spanSpaces_other c s :
  Ascii.eqb " " c = false -> spanSpaces (String c s) = (O, String c s).
Proof.
  intros Hc. destruct c as [[] [] [] [] [] [] [] []]; try reflexivity.
  discriminate Hc.
Qed.

Lemma spanSpaces_run n s :
  headFails (Ascii.eqb " ") s -> spanSpaces (repeat " " n ++ s) = (n, s).
Proof.
  intros Hs. induction n as [|n IH].
  - destruct s as [|c s]; [reflexivity|]. now apply spanSpaces_other.
  - cbn [repeat append]. now rewrite spanSpaces_space, IH.
Qed.

Lemma spanSpaces_decompose s :
  s = repeat " " (fst (spanSpaces s)) ++ snd (spanSpaces s)
  /\ headFails (Ascii.eqb " ") (snd (spanSpaces s)).
Proof.
  induction s as [|c s [IH1 IH2]]; [now split|].
  destruct (Ascii.eqb " " c) eqn:Hc.
  - apply Ascii.eqb_eq in Hc; subst c. rewrite spanSpaces_space.
    cbn [fst snd repeat append]. split; [now rewrite <- IH1|exact IH2].
  - rewrite (spanSpaces_other _ _ Hc). now split.
Qed.

Lemma level_tab s :
  getIndentationLevel (String tab s) = S (getIndentationLevel s).
Proof.
  unfold getIndentationLevel, tab. cbn [String.length indentationLoop].
  change (Ascii.eqb "009" "009") with true. cbv iota.
  rewrite indentationLoop_level. lia.
Qed.

Lemma level_other c s :
  Ascii.eqb tab c = false -> Ascii.eqb " " c = false ->
  getIndentationLevel (String c s) = getIndentationLevel s.
Proof.
  intros Ht Hs. unfold getIndentationLevel.
  cbn [String.length indentationLoop].
  rewrite Ascii.eqb_sym in Ht. rewrite Ascii.eqb_sym in Hs.
  unfold tab in Ht. now rewrite Ht, Hs.
Qed.

Lemma level_spaces n s :
  headFails (Ascii.eqb " ") s ->
  getIndentationLevel (repeat " " n ++ s)
  = (n / 4 + getIndentationLevel s)%nat.
Proof.
  intros Hs. destruct n as [|n]; [reflexivity|].
  unfold getIndentationLevel. cbn [repeat append String.length indentationLoop].
  change (Ascii.eqb " " "009") with false.
  change (Ascii.eqb " " " ") with true. cbv iota.
  change (String " " (repeat " " n ++ s)) with (repeat " " (S n) ++ s).
  rewrite (spanSpaces_run (S n) s Hs).
  rewrite indentationLoop_level.
  rewrite (indentationLoop_bound _ (String.length s)); [lia| |lia].
  rewrite append_length. lia.
Qed.

(** The level of a string is the sum of the levels of its two parts, unless
    the cut falls inside a run of spaces. *)
Lemma level_app a : forall c t,
  Ascii.eqb " " c = false ->
  getIndentationLevel (a ++ String c t)
  = (getIndentationLevel a + getIndentationLevel (String c t))%nat.
Proof.
  remember (String.length a) as n eqn:Hn.
  revert a Hn. induction n as [n IH] using lt_wf_ind. intros a Hn c t Hc.
  destruct a as [|d a]; [reflexivity|].
  destruct (Ascii.eqb tab d) eqn:Hd.
  - apply Ascii.eqb_eq in Hd; subst d. cbn [append].
    rewrite !level_tab.
    assert (Hlt : (String.length a < n)%nat) by (simpl in Hn; lia).
    rewrite (IH _ Hlt a eq_refl c t Hc). lia.
  - destruct (Ascii.eqb " " d) eqn:Hsp.
    + destruct (spanSpaces_decompose (String d a)) as [Hdec Hhead].
      destruct (spanSpaces (String d a)) as [k a'] eqn:E.
      cbn [fst snd] in *. rewrite Hdec, append_assoc.
      assert (Hlen : (String.length a' < n)%nat).
      { apply Ascii.eqb_eq in Hsp; subst d. rewrite spanSpaces_space in E.
        injection E as <- <-.
        pose proof (f_equal String.length Hdec) as Hl.
        cbn [repeat fst] in Hl. simpl String.length in Hl.
        rewrite append_length, repeat_length in Hl. simpl in Hn. lia. }
      rewrite level_spaces.
      * rewrite (level_spaces k a' Hhead).
        rewrite (IH _ Hlen a' eq_refl c t Hc). lia.
      * destruct a'; simpl; [exact Hc|exact Hhead].
    + cbn [append]. rewrite !(level_other d) by assumption.
      assert (Hlt : (String.length a < n)%nat) by (simpl in Hn; lia).
      exact (IH _ Hlt a eq_refl c t Hc).
Qed.

Lemma level_run n : getIndentationLevel (repeat " " n) = (n / 4)%nat.
Proof.
  rewrite <- (append_nil_r (repeat " " n)), level_spaces by exact I.
  change (getIndentationLevel "") with 0%nat. lia.
Qed.

Lemma level_tabs t s :
  getIndentationLevel (repeat tab t ++ s) = (t + getIndentationLevel s)%nat.
Proof.
  induction t as [|t IH]; [reflexivity|].
  cbn [repeat append]. rewrite level_tab, IH. lia.
Qed.

Lemma neq_eqb (c d : ascii) : c <> d -> Ascii.eqb d c = false.
Proof. intros H. apply Ascii.eqb_neq. congruence. Qed.

(** X1.  [getIndentationLevel] counts one level for each tab and one for
    each four spaces of a run of spaces, dropping what is left of the run;
    any other character counts nothing.  A run of spaces that a tab or
    another character splits in two is counted as two runs. *)
Theorem indentation_level_counts (n t : nat) (c : ascii) (s : string)
    (Hc : c <> " "%char) :
  getIndentationLevel "" = 0%nat
  /\ getIndentationLevel (String tab s) = S (getIndentationLevel s)
  /\ getIndentationLevel (repeat " " n) = (n / 4)%nat
  /\ getIndentationLevel (repeat " " n ++ String c s)
     = (n / 4 + getIndentationLevel (String c s))%nat
  /\ (c <> tab -> getIndentationLevel (String c s) = getIndentationLevel s)
  /\ getIndentationLevel (repeat tab t ++ repeat " " n) = (t + n / 4)%nat.
Proof.
  split; [reflexivity|]. split; [apply level_tab|].
  split; [apply level_run|].
  split; [apply level_spaces; exact (neq_eqb _ _ Hc)|].
  split; [intros Ht; apply level_other; now apply neq_eqb|].
  now rewrite level_tabs, level_run.
Qed.

Lemma indentation_level_counts_witness :
  getIndentationLevel (repeat " " 6 ++ "x  ") = 1%nat
  /\ getIndentationLevel (repeat tab 2 ++ repeat " " 6) = 3%nat.
Proof.
  assert (Hc : "x"%char <> " "%char) by discriminate.
  destruct (indentation_level_counts 6 2 "x" "  " Hc)
    as (_ & _ & _ & Hrun & _ & Htabs).
  split; [exact Hrun|exact Htabs].
Defined.

(** ** Decreasing the indentation (types.ts) *)

Lemma rev_app a b : rev (a ++ b) = rev b ++ rev a.
Proof.
  induction a as [|c a IH]; simpl; [now rewrite append_nil_r|].
  now rewrite IH, append_assoc.
Qed.

Lemma rev_involutive s : rev (rev s) = s.
Proof.
  induction s as [|c s IH]; [reflexivity|].
  simpl. now rewrite rev_app, IH.
Qed.

Lemma substring_prefix a b : substring 0 (String.length a) (a ++ b) = a.
Proof.
  induction a as [|c a IH]; simpl; [now destruct b|now rewrite IH].
Qed.

Lemma dropEnd_app a b : dropEnd (String.length b) (a ++ b) = a.
Proof.
  unfold dropEnd. rewrite append_length.
  replace (String.length a + String.length b - String.length b)%nat
    with (String.length a) by lia.
  apply substring_prefix.
Qed.

Lemma repeat_app c m k : repeat c (m + k) = repeat c m ++ repeat c k.
Proof. induction m as [|m IH]; simpl; [reflexivity|now rewrite IH]. Qed.

Lemma dropEnd_run p c m k :
  (k <= m)%nat -> dropEnd k (p ++ repeat c m) = p ++ repeat c (m - k).
Proof.
  intros Hk. replace m with ((m - k) + k)%nat at 1 by lia.
  rewrite repeat_app, <- append_assoc.
  rewrite <- (repeat_length c k) at 1. apply dropEnd_app.
Qed.

(** The last character is not a space. *)
Definition endFails (p : ascii -> bool) (s : string) : Prop :=
  headFails p (rev s).

Lemma endsWithTab_run p m :
  endFails (Ascii.eqb " ") p ->
  endsWithTab (p ++ repeat " " m)
  = match m with O => endsWithTab p | S _ => false end.
Proof.
  intros Hp. unfold endsWithTab. rewrite rev_app, rev_repeat.
  destruct m; reflexivity.
Qed.

(** What [decreaseIndentationLevel] computes on a string that ends in
    exactly [m] spaces. *)
Lemma decreaseIndentation_run p m :
  endFails (Ascii.eqb " ") p -> p ++ repeat " " m <> "" ->
  decreaseIndentation (p ++ repeat " " m)
  = if endsWithTab (p ++ repeat " " (m - m mod 4))
    then Assigned (dropEnd 1 (p ++ repeat " " (m - m mod 4))
                   ++ repeat " " (m mod 4))
    else if (4 <=? m)%nat
         then Assigned (p ++ repeat " " (m - 4))
         else ReturnedEarly.
Proof.
  intros Hp Hne. unfold decreaseIndentation.
  destruct (String.length (p ++ repeat " " m) =? 0)%nat eqn:El.
  { apply Nat.eqb_eq in El. destruct (p ++ repeat " " m); [congruence|].
    discriminate El. }
  rewrite rev_app, rev_repeat, (spanSpaces_run m (rev p) Hp). cbn [fst].
  pose proof (Nat.mod_upper_bound m 4 ltac:(lia)) as Hmod.
  pose proof (Nat.div_mod_eq m 4) as Hdiv.
  assert (Hstrip :
    (if negb (m mod 4 =? 0)%nat
     then dropEnd (m mod 4) (p ++ repeat " " m) else p ++ repeat " " m)
    = p ++ repeat " " (m - m mod 4)).
  { destruct (m mod 4 =? 0)%nat eqn:E0; cbn [negb].
    - apply Nat.eqb_eq in E0. rewrite E0. now rewrite Nat.sub_0_r.
    - apply dropEnd_run. lia. }
  rewrite Hstrip.
  assert (Hback : forall r,
    (if negb (m mod 4 =? 0)%nat then r ++ repeat " " (m mod 4) else r)
    = r ++ repeat " " (m mod 4)).
  { intros r. destruct (m mod 4 =? 0)%nat eqn:E0; cbn [negb]; [|reflexivity].
    apply Nat.eqb_eq in E0. rewrite E0. simpl. now rewrite append_nil_r. }
  rewrite !Hback.
  destruct (endsWithTab _); [reflexivity|].
  destruct (4 <=? m)%nat eqn:E4; [|reflexivity].
  apply Nat.leb_le in E4. rewrite dropEnd_run by lia.
  rewrite append_assoc, <- repeat_app. do 3 f_equal. lia.
Qed.

(** Every string ends in a run of spaces, possibly empty, that follows the
    empty string or a character that is not a space. *)
Lemma trailing_run s :
  exists p k, s = p ++ repeat " " k /\ endFails (Ascii.eqb " ") p.
Proof.
  destruct (spanSpaces_decompose (rev s)) as [Hdec Hhead].
  exists (rev (snd (spanSpaces (rev s)))), (fst (spanSpaces (rev s))).
  split.
  - rewrite <- (rev_involutive s) at 1. rewrite Hdec at 1.
    now rewrite rev_app, rev_repeat.
  - unfold endFails. now rewrite rev_involutive.
Qed.

Lemma endFails_snoc q c :
  Ascii.eqb " " c = false -> endFails (Ascii.eqb " ") (q ++ String c "").
Proof. intros Hc. unfold endFails. rewrite rev_app. exact Hc. Qed.

Lemma endsWithTab_snoc q c : endsWithTab (q ++ String c "") = Ascii.eqb c tab.
Proof. unfold endsWithTab. now rewrite rev_app. Qed.

Lemma append_snoc q c s : q ++ String c s = (q ++ String c "") ++ s.
Proof. now rewrite append_assoc. Qed.

Lemma append_not_empty q c s : q ++ String c s <> "".
Proof. destruct q; discriminate. Qed.

Lemma decreaseIndentation_throws s :
  decreaseIndentation s = Thrown NoIndentationToDecrease <-> s = "".
Proof.
  split; [|now intros ->].
  destruct s as [|d s]; [reflexivity|].
  destruct (trailing_run (String d s)) as (p & k & Hs & Hp).
  rewrite Hs, decreaseIndentation_run;
    [|exact Hp|rewrite <- Hs; discriminate].
  destruct (endsWithTab _); [discriminate|].
  destruct (4 <=? k)%nat; discriminate.
Qed.

Lemma decreaseIndentation_tab q n :
  (n < 4)%nat ->
  decreaseIndentation (q ++ String tab (repeat " " n))
  = Assigned (q ++ repeat " " n).
Proof.
  intros Hn. rewrite append_snoc.
  rewrite decreaseIndentation_run;
    [|now apply endFails_snoc|rewrite <- append_snoc; apply append_not_empty].
  rewrite Nat.mod_small, Nat.sub_diag by lia.
  cbn [repeat]. rewrite append_nil_r, endsWithTab_snoc.
  change (Ascii.eqb tab tab) with true. cbv iota.
  change 1%nat with (String.length (String tab "")).
  now rewrite dropEnd_app.
Qed.

Lemma decreaseIndentation_four q n :
  (4 <= n)%nat ->
  decreaseIndentation (q ++ repeat " " n)
  = Assigned (q ++ repeat " " (n - 4)).
Proof.
  intros Hn. destruct (trailing_run q) as (p & k & -> & Hp).
  rewrite !append_assoc, <- !repeat_app.
  rewrite decreaseIndentation_run; [|exact Hp|].
  - rewrite endsWithTab_run by exact Hp.
    pose proof (Nat.mod_upper_bound (k + n) 4 ltac:(lia)) as Hmod.
    destruct (k + n - (k + n) mod 4)%nat eqn:E; [lia|].
    destruct (4 <=? k + n)%nat eqn:E4; [|apply Nat.leb_gt in E4; lia].
    do 3 f_equal. lia.
  - destruct n as [|n]; [lia|]. rewrite Nat.add_succ_r. cbn [repeat].
    destruct p; discriminate.
Qed.

Lemma decreaseIndentation_early q c n :
  (n < 4)%nat -> c <> tab -> c <> " "%char ->
  decreaseIndentation (q ++ String c (repeat " " n)) = ReturnedEarly.
Proof.
  intros Hn Ht Hsp. rewrite append_snoc.
  rewrite decreaseIndentation_run;
    [|apply endFails_snoc; now apply neq_eqb
     |rewrite <- append_snoc; apply append_not_empty].
  rewrite Nat.mod_small, Nat.sub_diag by lia.
  cbn [repeat]. rewrite append_nil_r, endsWithTab_snoc.
  destruct (Ascii.eqb_spec c tab) as [->|_]; [congruence|].
  destruct (4 <=? n)%nat eqn:E4; [apply Nat.leb_le in E4; lia|reflexivity].
Qed.

(** X2.  The outcomes of [decreaseIndentationLevel], for every indentation.
    It throws on the empty string only.  A tab followed by fewer than four
    spaces is removed and the spaces stay; of a run of four or more spaces
    at the end, four are removed.  When what remains at the end is fewer
    than four spaces after a character that is neither a tab nor a space,
    it returns without a change and without an error. *)
Theorem decrease_indentation_outcomes
    (s q : string) (c : ascii) (n : nat) :
  (decreaseIndentation s = Thrown NoIndentationToDecrease <-> s = "")
  /\ ((n < 4)%nat ->
      decreaseIndentation (q ++ String tab (repeat " " n))
      = Assigned (q ++ repeat " " n))
  /\ ((4 <= n)%nat ->
      decreaseIndentation (q ++ repeat " " n)
      = Assigned (q ++ repeat " " (n - 4)))
  /\ ((n < 4)%nat -> c <> tab -> c <> " "%char ->
      decreaseIndentation (q ++ String c (repeat " " n)) = ReturnedEarly).
Proof.
  split; [apply decreaseIndentation_throws|].
  split; [apply decreaseIndentation_tab|].
  split; [apply decreaseIndentation_four|apply decreaseIndentation_early].
Qed.

Lemma decrease_indentation_outcomes_witness :
  decreaseIndentation (String tab (String tab "  "))
  = Assigned (String tab "  ")
  /\ decreaseIndentation (String "160" "  ") = ReturnedEarly.
Proof.
  destruct (decrease_indentation_outcomes "" (String tab "") "160" 2)
    as (_ & Htab & _ & Hearly).
  split; [apply Htab; lia|].
  apply (decrease_indentation_outcomes "" "" "160" 2);
    [lia|discriminate|discriminate].
Defined.

Lemma repeat_snoc c n : repeat c (S n) = repeat c n ++ String c "".
Proof. induction n as [|n IH]; [reflexivity|]. simpl in *. now rewrite <- IH. Qed.

(** X3.  On an indentation of tabs followed by spaces whose level is at
    least 1, [decreaseIndentationLevel] assigns an indentation of the same
    shape whose level is one less.  The shape matters: the tab it removes
    from between two runs of spaces joins the runs, and the level of two
    spaces, a tab and two spaces stays 1. *)
Theorem decrease_lowers_level (t n : nat) (Hlevel : (1 <= t + n / 4)%nat) :
  (exists t' n',
     decreaseIndentation (repeat tab t ++ repeat " " n)
     = Assigned (repeat tab t' ++ repeat " " n')
     /\ (getIndentationLevel (repeat tab t' ++ repeat " " n') + 1
         = getIndentationLevel (repeat tab t ++ repeat " " n))%nat)
  /\ decreaseIndentation ("  " ++ String tab "  ") = Assigned "    "
  /\ getIndentationLevel ("  " ++ String tab "  ") = 1%nat
  /\ getIndentationLevel "    " = 1%nat.
Proof.
  split; [|repeat split; reflexivity].
  destruct (le_lt_dec 4 n) as [Hn|Hn].
  - exists t, (n - 4)%nat. split; [now apply decreaseIndentation_four|].
    rewrite !level_tabs, !level_run.
    replace n with ((n - 4) + 1 * 4)%nat at 2 by lia.
    rewrite Nat.div_add by lia. lia.
  - rewrite (Nat.div_small n 4) in Hlevel by lia.
    destruct t as [|t]; [lia|]. exists t, n.
    rewrite repeat_snoc, append_assoc. cbn [append].
    split; [now apply decreaseIndentation_tab|].
    rewrite !level_tabs, level_tab, !level_run. lia.
Qed.

Lemma decrease_lowers_level_witness :
  exists t' n',
    decreaseIndentation (repeat tab 1 ++ repeat " " 5)
    = Assigned (repeat tab t' ++ repeat " " n')
    /\ (getIndentationLevel (repeat tab t' ++ repeat " " n') + 1
        = getIndentationLevel (repeat tab 1 ++ repeat " " 5))%nat.
Proof.
  apply (decrease_lowers_level 1 5). simpl. lia.
Defined.

(** X4.  Shift-Tab undoes Tab.  On a line whose indentation is tabs
    followed by fewer than four spaces, [decreaseIndentationLevel] after
    [increaseIndentationLevel] gives the line back; [increaseIndentationLevel]
    itself raises the level by exactly one on every line. *)
Theorem decrease_undoes_increase (self : ParsedListLine) (t n : nat)
    (Hshape : indentation self = repeat tab t ++ repeat " " n)
    (Hn : (n < 4)%nat) :
  decreaseIndentationLevel (increaseIndentationLevel self) = Ok self
  /\ forall line : ParsedListLine,
       getIndentationLevel (indentation (increaseIndentationLevel line))
       = S (getIndentationLevel (indentation line)).
Proof.
  split; [|intros line; apply level_tab].
  destruct self as [ty ind m sep txt]. cbn [indentation] in Hshape.
  subst ind. unfold decreaseIndentationLevel, increaseIndentationLevel.
  cbn [indentation type marker separator content].
  change (String "009" (repeat tab t ++ repeat " " n))
    with (repeat tab (S t) ++ repeat " " n).
  rewrite repeat_snoc, append_assoc. cbn [append].
  now rewrite decreaseIndentation_tab.
Qed.

Lemma decrease_undoes_increase_witness :
  decreaseIndentationLevel
    (increaseIndentationLevel (mkLine Roman (String tab "  ") "ii" Dot " x"))
  = Ok (mkLine Roman (String tab "  ") "ii" Dot " x").
Proof.
  apply (decrease_undoes_increase
           (mkLine Roman (String tab "  ") "ii" Dot " x") 1 2);
    [reflexivity|lia].
Defined.

(** ** The decoders (types.ts) *)

Lemma isLower_toLowerChar c :
  isLower (toLowerChar c) = isLower c || isUpper c.
Proof.
  unfold toLowerChar.
  destruct (isUpper c || inRange 192 214 c || inRange 216 222 c) eqn:E.
  - pose proof (charCode_fromCharCode (charCode c + 32)) as Hcode.
    unfold isLower, isUpper, inRange in *.
    destruct ((65 <=? charCode c) && (charCode c <=? 90)) eqn:Eu.
    + rewrite orb_true_r. rewrite Hcode by lia.
      apply andb_true_iff. split; apply Z.leb_le; lia.
    + rewrite orb_false_r. rewrite Hcode by lia.
      transitivity false; [|symmetry]; apply andb_false_iff;
        rewrite !Z.leb_gt; lia.
  - apply orb_false_elim in E as [E _]. apply orb_false_elim in E as [E _].
    now rewrite E, orb_false_r.
Qed.

Lemma forallb_toLowerCase p s :
  forallb p (toLowerCase s) = forallb (fun c => p (toLowerChar c)) s.
Proof. induction s as [|c s IH]; simpl; [reflexivity|now rewrite IH]. Qed.

Lemma forallb_ext p q s :
  (forall c, p c = q c) -> forallb p s = forallb q s.
Proof.
  intros H. induction s as [|c s IH]; simpl; [reflexivity|].
  now rewrite H, IH.
Qed.

Lemma lowerCase_letters m :
  forallb isLower (toLowerCase m)
  = forallb (fun c => isLower c || isUpper c) m.
Proof.
  rewrite forallb_toLowerCase. apply forallb_ext, isLower_toLowerChar.
Qed.

Lemma bijectiveLoop_rejects s : forall value,
  forallb isLower s = false ->
  bijectiveLoop s value = Throw AlphabeticalOutOfBounds.
Proof.
  induction s as [|c s IH]; intros value; simpl; [discriminate|].
  destruct (isLower c) eqn:Hc; simpl.
  - apply isLower_code in Hc. intros Hs.
    destruct (_ || _) eqn:E; [reflexivity|]. now apply IH.
  - intros _. destruct (_ || _) eqn:E; [reflexivity|].
    apply orb_false_elim in E as [E1 E2].
    assert (Hl : isLower c = true) by (apply isLower_code; lia).
    congruence.
Qed.

Lemma toLowerCase_empty m : toLowerCase m = "" <-> m = "".
Proof. destruct m; simpl; split; congruence. Qed.

(** Rounding to a double keeps a positive integer positive. *)
Lemma fl_positive x : 1 <= x -> 1 <= fl x.
Proof.
  intros Hx. unfold fl.
  destruct (Z.abs x <=? _) eqn:E; [lia|]. apply Z.leb_gt in E.
  rewrite Z.abs_eq in * by lia. rewrite Z.sgn_pos by lia.
  pose proof (Z.log2_spec x ltac:(lia)) as [Hlow _].
  assert (Hlog : 53 <= Z.log2 x).
  { apply Z.log2_le_pow2; [lia|]. change (2 ^ 53) with 9007199254740992. lia. }
  set (e := Z.log2 x - 52) in *.
  assert (Hpow : 0 < 2 ^ e) by (apply Z.pow_pos_nonneg; lia).
  assert (Hle : 2 ^ e <= x).
  { transitivity (2 ^ Z.log2 x); [|exact Hlow].
    apply Z.pow_le_mono_r; lia. }
  pose proof (roundQuotient_bounds x (2 ^ e) Hpow) as [Hq _].
  assert (1 <= x / 2 ^ e) by (apply Z.div_le_lower_bound; lia).
  nia.
Qed.

(** On letters the decoder's loop returns, and with a positive value once it
    has read a letter. *)
Lemma bijectiveLoop_returns s : forall value,
  forallb isLower s = true -> 0 <= value ->
  exists v,
    bijectiveLoop s value = Ok v
    /\ 0 <= v /\ (s <> "" \/ 1 <= value -> 1 <= v).
Proof.
  induction s as [|c s IH]; intros value; cbn [forallb bijectiveLoop].
  - intros _ Hvalue. exists value. split; [reflexivity|]. split; [lia|].
    intros [H|H]; [congruence|lia].
  - intros [Hc Hs]%andb_prop Hvalue. apply isLower_code in Hc.
    destruct (_ || _) eqn:E; [lia|].
    assert (Hpow : 1 <= pow 26 (Z.of_nat (String.length s))).
    { apply fl_positive.
      assert (0 < 26 ^ Z.of_nat (String.length s))
        by (apply Z.pow_pos_nonneg; lia). lia. }
    assert (Hcontribution :
              1 <= fl ((charCode c - 96) * pow 26 (Z.of_nat (String.length s))))
      by (apply fl_positive; nia).
    assert (Hsum :
              1 <= fl (value
                       + fl ((charCode c - 96)
                             * pow 26 (Z.of_nat (String.length s)))))
      by (apply fl_positive; lia).
    destruct (IH (fl (value
                      + fl ((charCode c - 96)
                            * pow 26 (Z.of_nat (String.length s)))))
                 Hs ltac:(lia)) as (v & Hv & Hpos & Hone).
    exists v. split; [exact Hv|]. split; [exact Hpos|].
    intros _. apply Hone. now right.
Qed.

(** X5.  The errors of the bijective decoder
    [calculateBijectiveBase26Value].  It returns a value exactly for the
    markers of one or more letters A-Z, a-z; the empty marker is rejected as
    empty, and a marker with any other character, a digit or an accented
    letter for instance, as out of bounds. *)
Theorem bijective_decoder_errors (m : string) :
  let letters := forallb (fun c => isLower c || isUpper c) m in
  (m = "" -> calculateBijectiveBase26Value m = Throw AlphabeticalEmpty)
  /\ (letters = false ->
      calculateBijectiveBase26Value m = Throw AlphabeticalOutOfBounds)
  /\ (isOk (calculateBijectiveBase26Value m) = true
      <-> m <> "" /\ letters = true).
Proof.
  intros letters.
  assert (Hbad : letters = false ->
                 calculateBijectiveBase26Value m
                 = Throw AlphabeticalOutOfBounds).
  { intros H. unfold calculateBijectiveBase26Value.
    rewrite bijectiveLoop_rejects; [reflexivity|].
    now rewrite lowerCase_letters. }
  split; [now intros ->|]. split; [exact Hbad|]. split.
  - intros Hok. destruct letters eqn:El.
    + split; [|reflexivity]. intros ->. discriminate Hok.
    + rewrite Hbad in Hok by reflexivity. discriminate Hok.
  - intros [Hne Hl].
    assert (Hlow : forallb isLower (toLowerCase m) = true)
      by now rewrite lowerCase_letters.
    assert (Hne' : toLowerCase m <> "") by now rewrite toLowerCase_empty.
    destruct (bijectiveLoop_returns _ 0 Hlow ltac:(lia))
      as (v & Hv & _ & Hpos).
    specialize (Hpos (or_introl Hne')).
    unfold calculateBijectiveBase26Value. rewrite Hv. cbn [bind].
    destruct (v =? 0) eqn:E0; zbool; [lia|reflexivity].
Qed.

Lemma bijective_decoder_errors_witness :
  calculateBijectiveBase26Value "a1" = Throw AlphabeticalOutOfBounds
  /\ isOk (calculateBijectiveBase26Value "Zz") = true.
Proof.
  split.
  - apply (bijective_decoder_errors "a1"). reflexivity.
  - apply (bijective_decoder_errors "Zz"). split; [discriminate|reflexivity].
Defined.

(** The Roman decoder.  After one or more symbols the running value is at
    least the value of the symbol read last: a symbol is subtracted only
    when it is smaller than that, hence at most half of it. *)
Definition isRomanValue (v : Z) : Prop :=
  v = 1 \/ v = 5 \/ v = 10 \/ v = 50 \/ v = 100 \/ v = 500 \/ v = 1000.

Lemma romanMap_value c v : romanMap c = Some v -> isRomanValue v.
Proof.
  unfold romanMap, isRomanValue.
  repeat match goal with
         | |- context [if ?b then _ else _] => destruct b
         end; intros [= <-]; lia.
Qed.

Lemma romanMap_letter c :
  Parser.isRomanLetter c = match romanMap c with Some _ => true | None => false end.
Proof.
  unfold Parser.isRomanLetter, romanMap.
  repeat match goal with
         | |- context [Ascii.eqb ?a ?b] => destruct (Ascii.eqb a b)
         end; reflexivity.
Qed.

Lemma romanLoop_invariant s : forall value prevValue,
  s <> "" -> romanLoop s = Ok (value, prevValue) ->
  isRomanValue prevValue
  /\ prevValue <= value <= 1000 * Z.of_nat (String.length s).
Proof.
  induction s as [|c s IH]; intros value prevValue Hne; [congruence|].
  simpl romanLoop. destruct (romanLoop s) as [[v p]|] eqn:Hs; [|discriminate].
  simpl bind. destruct (romanMap c) as [cur|] eqn:Ec; [|discriminate].
  pose proof (romanMap_value _ _ Ec) as Hcur.
  assert (Hlen : Z.of_nat (String.length (String c s))
                 = Z.of_nat (String.length s) + 1) by (simpl; lia).
  rewrite Hlen.
  destruct s as [|d s].
  - injection Hs as <- <-. unfold isRomanValue in Hcur.
    destruct (cur <? 0) eqn:E; zbool; intros [= <- <-];
      (split; [exact Hcur|simpl; unfold isRomanValue in Hcur; lia]).
  - destruct (IH v p ltac:(discriminate) eq_refl) as [Hp Hv].
    unfold isRomanValue in Hcur, Hp.
    destruct (cur <? p) eqn:E; zbool; intros [= <- <-];
      (split; [exact Hcur|lia]).
Qed.

Lemma romanLoop_error s e :
  romanLoop s = Throw e -> e = InvalidRomanNumeral.
Proof.
  induction s as [|c s IH]; simpl; [discriminate|].
  destruct (romanLoop s) as [[v p]|e']; simpl.
  - destruct (romanMap c) as [cur|]; [|congruence].
    destruct (cur <? p); discriminate.
  - intros [= <-]. now apply IH.
Qed.

Lemma romanLoop_rejects s :
  forallb Parser.isRomanLetter s = false ->
  romanLoop s = Throw InvalidRomanNumeral.
Proof.
  induction s as [|c s IH]; simpl; [discriminate|].
  rewrite romanMap_letter.
  destruct (romanMap c) as [cur|] eqn:Ec; simpl.
  - intros Hs. now rewrite IH.
  - intros _. destruct (romanLoop s) as [[v p]|e] eqn:Hs; simpl;
      [reflexivity|]. now rewrite (romanLoop_error _ _ Hs).
Qed.

Lemma romanLoop_accepts s :
  forallb Parser.isRomanLetter s = true ->
  exists value prevValue, romanLoop s = Ok (value, prevValue).
Proof.
  induction s as [|c s IH]; simpl; [now exists 0, 0|].
  rewrite romanMap_letter.
  destruct (romanMap c) as [cur|] eqn:Ec; simpl; [|discriminate].
  intros Hs. destruct (IH Hs) as (v & p & ->). simpl.
  destruct (cur <? p); eauto.
Qed.

(** X6.  The domain of the Roman decoder [calculateRomanValue].  It returns
    a value for every marker of one or more of the letters i, v, x, l, c, d,
    m in either case, in any order: the value is at least 1 and at most 1000
    for each letter.  So it decodes "iiii" to 4 and "vx" to 5, which the
    validator rejects.  The empty marker is rejected as empty and a marker
    with any other character as invalid. *)
Theorem roman_decoder_domain (m : string) :
  let letters :=
    forallb (fun c => Parser.isRomanLetter (toLowerChar c)) m in
  (m = "" -> calculateRomanValue m = Throw RomanEmpty)
  /\ (letters = false -> calculateRomanValue m = Throw InvalidRomanNumeral)
  /\ (m <> "" -> letters = true ->
      exists v,
        calculateRomanValue m = Ok v
        /\ 1 <= v <= 1000 * Z.of_nat (String.length m))
  /\ calculateRomanValue "iiii" = Ok 4
  /\ calculateRomanValue "vx" = Ok 5.
Proof.
  intros letters. split; [now intros ->|].
  split; [|split; [|split; reflexivity]].
  - intros H. unfold calculateRomanValue.
    rewrite romanLoop_rejects; [reflexivity|].
    now rewrite forallb_toLowerCase.
  - intros Hne Hl. unfold calculateRomanValue.
    assert (Hlow : forallb Parser.isRomanLetter (toLowerCase m) = true)
      by now rewrite forallb_toLowerCase.
    destruct (romanLoop_accepts _ Hlow) as (v & p & Hloop).
    rewrite Hloop. simpl.
    assert (Hne' : toLowerCase m <> "") by now rewrite toLowerCase_empty.
    destruct (romanLoop_invariant _ _ _ Hne' Hloop) as [Hp Hv].
    assert (Hlen : String.length (toLowerCase m) = String.length m).
    { clear. induction m as [|c m IH]; simpl; congruence. }
    rewrite Hlen in Hv. unfold isRomanValue in Hp.
    exists v. destruct (v =? 0) eqn:E0; zbool; [lia|].
    split; [reflexivity|lia].
Qed.

Lemma roman_decoder_domain_witness :
  calculateRomanValue "x1" = Throw InvalidRomanNumeral
  /\ exists v, calculateRomanValue "IL" = Ok v /\ 1 <= v <= 1000 * 2.
Proof.
  split.
  - apply (roman_decoder_domain "x1"). reflexivity.
  - apply (roman_decoder_domain "IL"); [discriminate|reflexivity].
Defined.

Lemma toLowerChar_fixed d :
  isUpper d || inRange 192 214 d || inRange 216 222 d = false ->
  toLowerChar d = d.
Proof. intros H. unfold toLowerChar. now rewrite H. Qed.

Lemma toLowerChar_idempotent c : toLowerChar (toLowerChar c) = toLowerChar c.
Proof.
  apply toLowerChar_fixed. unfold toLowerChar.
  destruct (isUpper c || inRange 192 214 c || inRange 216 222 c) eqn:E;
    [|exact E].
  pose proof (charCode_fromCharCode (charCode c + 32)) as Hcode.
  unfold isUpper, inRange in *.
  rewrite !orb_true_iff, !andb_true_iff, !Z.leb_le in E.
  rewrite Hcode by lia.
  rewrite !orb_false_iff, !andb_false_iff, !Z.leb_gt. lia.
Qed.

Lemma toLowerCase_idempotent s : toLowerCase (toLowerCase s) = toLowerCase s.
Proof.
  induction s as [|c s IH]; simpl; [reflexivity|].
  now rewrite toLowerChar_idempotent, IH.
Qed.

(** X7.  A marker that the Roman validator accepts survives decoding and
    encoding: [calculateRomanValue] returns a value from 1 to 3999 for it,
    and [generateRomanMarker] of that value is the marker in lower case. *)
Theorem roman_decode_encode (m : string)
    (Hvalid : Parser.isValidRomanNumeral m = true) :
  exists v,
    calculateRomanValue m = Ok v
    /\ 1 <= v <= 3999
    /\ generateRomanMarker v = Ok (toLowerCase m).
Proof.
  rewrite isValidRomanNumeral_lower in Hvalid.
  apply valid_is_canonical in Hvalid as (n & Hn & Hgen).
  destruct (roman_roundtrip n ltac:(lia)) as (m' & Hgen' & _ & Hdec).
  rewrite Hgen in Hgen'. injection Hgen' as <-.
  exists n. split; [|split; assumption].
  unfold calculateRomanValue in *.
  now rewrite toLowerCase_idempotent in Hdec.
Qed.

Lemma roman_decode_encode_witness :
  exists v,
    calculateRomanValue "XLII" = Ok v
    /\ 1 <= v <= 3999
    /\ generateRomanMarker v = Ok "xlii".
Proof. apply (roman_decode_encode "XLII"). reflexivity. Defined.

(** ** The repeated-letters codec (types.ts, parser.ts) *)

Lemma fromCharCode_charCode c : fromCharCode (charCode c) = c.
Proof.
  unfold fromCharCode, charCode. rewrite N2Z.id. apply ascii_N_embedding.
Qed.

Lemma letterPosition_bounds c :
  isLower c || isUpper c = true ->
  1 <= charCode (toLowerChar c) - 96 <= 26.
Proof.
  intros H. apply isLower_code. now rewrite isLower_toLowerChar.
Qed.

Lemma repeatedValue_run c L :
  isLower c || isUpper c = true -> (1 <= L)%nat ->
  calculateRepeatedLettersValue (repeat c L)
  = Ok (26 * (Z.of_nat L - 1) + (charCode (toLowerChar c) - 96)).
Proof.
  intros Hc HL. pose proof (letterPosition_bounds c Hc) as Hpos.
  unfold calculateRepeatedLettersValue. rewrite toLowerCase_repeat.
  destruct L as [|L]; [lia|]. simpl repeat. cbv iota beta.
  assert (Hall : forallb (Ascii.eqb (toLowerChar c)) (repeat (toLowerChar c) L)
                 = true)
    by (apply forallb_eqb_repeat; now rewrite repeat_length).
  rewrite Hall; simpl negb; cbv iota.
  destruct ((charCode (toLowerChar c) - 96 <? 1) || _) eqn:E; [lia|].
  rewrite repeatedBaseValue_spec. simpl String.length.
  rewrite repeat_length. do 2 f_equal. lia.
Qed.

Lemma repeatedMarker_run v :
  1 <= v <= 260 ->
  generateRepeatedLettersMarker v
  = Ok (repeat (fromCharCode (96 + ((v - 1) mod 26 + 1)))
               (Z.to_nat ((v - 1) / 26 + 1))).
Proof.
  intros Hv. unfold generateRepeatedLettersMarker.
  destruct (v <? 1) eqn:E; [lia|].
  change 0 with (26 * (1 - 1)).
  rewrite (repeatedLoop_found v 9%nat 1) by lia. simpl.
  pose proof (Z.div_mod (v - 1) 26 ltac:(lia)) as Hdiv.
  do 3 f_equal. lia.
Qed.

(** X8.  The repeated-letters codec is a round trip on its range.  For every
    value from 1 to 260 the marker [generateRepeatedLettersMarker] returns
    decodes to the value with [calculateRepeatedLettersValue]; and a run of
    1 to 10 copies of a letter decodes to a value from 1 to 260 whose marker
    is the run in lower case. *)
Theorem repeated_letters_roundtrip (v : Z) (c : ascii) (L : nat) :
  (1 <= v <= 260 ->
   exists m,
     generateRepeatedLettersMarker v = Ok m
     /\ calculateRepeatedLettersValue m = Ok v)
  /\ (isLower c || isUpper c = true -> (1 <= L <= 10)%nat ->
      exists value,
        calculateRepeatedLettersValue (repeat c L) = Ok value
        /\ 1 <= value <= 260
        /\ generateRepeatedLettersMarker value
           = Ok (repeat (toLowerChar c) L)).
Proof.
  split.
  - intros Hv. rewrite repeatedMarker_run by exact Hv.
    eexists; split; [reflexivity|].
    pose proof (Z.div_mod (v - 1) 26 ltac:(lia)) as Hdiv.
    pose proof (Z.mod_pos_bound (v - 1) 26 ltac:(lia)) as Hmod.
    assert (Hq : 0 <= (v - 1) / 26 < 10).
    { split; [apply Z.div_pos; lia|apply Z.div_lt_upper_bound; lia]. }
    set (d := fromCharCode (96 + ((v - 1) mod 26 + 1))).
    assert (Hcode : charCode d = 96 + ((v - 1) mod 26 + 1))
      by (apply charCode_fromCharCode; lia).
    assert (Hd : isLower d = true) by (apply isLower_code; lia).
    rewrite repeatedValue_run; [|now rewrite Hd|lia].
    rewrite (toLowerChar_lower d Hd), Hcode. f_equal. lia.
  - intros Hc HL. pose proof (letterPosition_bounds c Hc) as Hpos.
    rewrite repeatedValue_run by (assumption || lia).
    eexists; split; [reflexivity|]. split; [lia|].
    rewrite repeatedMarker_run by lia.
    set (pos := charCode (toLowerChar c) - 96) in *.
    assert (Hq : (26 * (Z.of_nat L - 1) + pos - 1) / 26 = Z.of_nat L - 1)
      by (symmetry; apply (Z.div_unique _ _ _ (pos - 1)); lia).
    assert (Hr : (26 * (Z.of_nat L - 1) + pos - 1) mod 26 = pos - 1)
      by (symmetry; apply (Z.mod_unique _ _ (Z.of_nat L - 1)); lia).
    rewrite Hq, Hr. subst pos.
    replace (96 + (charCode (toLowerChar c) - 96 - 1 + 1))
      with (charCode (toLowerChar c)) by lia.
    rewrite fromCharCode_charCode. do 2 f_equal. lia.
Qed.

Lemma repeated_letters_roundtrip_witness :
  (exists m,
     generateRepeatedLettersMarker 54 = Ok m
     /\ calculateRepeatedLettersValue m = Ok 54)
  /\ exists value,
       calculateRepeatedLettersValue (repeat "B" 3) = Ok value
       /\ 1 <= value <= 260
       /\ generateRepeatedLettersMarker value = Ok (repeat "b" 3).
Proof.
  destruct (repeated_letters_roundtrip 54 "B" 3) as [Hv Hc].
  split; [apply Hv; lia|apply Hc; [reflexivity|lia]].
Defined.

(** ** First markers (types.ts) *)

(** X9.  [asFirstMarker] changes the marker and, under Jura ordering, the
    separator, and nothing else.  Without Jura ordering it keeps the
    separator, and the marker it sets is the first of the line's list type
    in the case of the old marker: the value of the line becomes 1, or 27
    for the nested alphabetical marker "aa", in either mode of [getValue];
    a second call changes nothing. *)
Theorem first_marker_plain
    (self : ParsedListLine) (enableJuraOrdering useRepeatedLettersMode : bool)
    (Htype : type self <> Unordered) :
  let line := asFirstMarker self false in
  (type (asFirstMarker self enableJuraOrdering) = type self
   /\ indentation (asFirstMarker self enableJuraOrdering) = indentation self
   /\ content (asFirstMarker self enableJuraOrdering) = content self)
  /\ separator line = separator self
  /\ getValue line useRepeatedLettersMode
     = Ok (Some (match type self with NestedAlphabetical => 27 | _ => 1 end))
  /\ asFirstMarker line false = line.
Proof.
  destruct self as [ty ind m sep txt]. cbn [type] in Htype. split.
  - destruct enableJuraOrdering; [|destruct ty; repeat split].
    cbv [asFirstMarker juraFirstMarker getCaseStyle plainFirstMarker
         applyCaseStyle setMarker setSeparator isCase isSeparator
         type indentation marker separator content].
    destruct ty, sep;
      destruct (String.eqb m (toUpperCase m));
      destruct (String.eqb m (toLowerCase m));
      cbv [andb];
      destruct (String.eqb ind ""); repeat split.
  - unfold asFirstMarker, plainFirstMarker, applyCaseStyle, setMarker.
    cbn [type indentation marker separator content].
    destruct ty; try congruence;
      destruct (String.eqb m (toUpperCase m));
      destruct (String.eqb m (toLowerCase m));
      destruct useRepeatedLettersMode; repeat split.
Qed.

Lemma first_marker_plain_witness :
  getValue (asFirstMarker (mkLine Roman "" "XIV" Parenthesis " x") false) false
  = Ok (Some 1)
  /\ getValue (asFirstMarker (mkLine NestedAlphabetical "" "cc" Dot "") false)
       true
     = Ok (Some 27).
Proof.
  split.
  - apply (first_marker_plain (mkLine Roman "" "XIV" Parenthesis " x")
             false false). discriminate.
  - apply (first_marker_plain (mkLine NestedAlphabetical "" "cc" Dot "")
             false true). discriminate.
Defined.

(** X10.  Under Jura ordering the level "(a)" is not produced from a
    numbered line.  For a Numbered line with the separator "()",
    [asFirstMarker] sets the marker "a" in the first [switch] without
    returning, and the code after it overwrites it: the result is "A" with a
    dot when the indentation is empty, and "1" with "()" otherwise. *)
Theorem first_marker_jura_numbered (self : ParsedListLine)
    (Htype : type self = Numbered) (Hsep : separator self = Parentheses) :
  let line := asFirstMarker self true in
  (indentation self = "" -> marker line = "A" /\ separator line = Dot)
  /\ (indentation self <> "" ->
      marker line = "1" /\ separator line = Parentheses).
Proof.
  destruct self as [ty ind m sep txt]. cbn [type separator] in *. subst ty sep.
  unfold asFirstMarker, juraFirstMarker.
  cbn [type indentation marker separator content isSeparator setMarker
       setSeparator].
  split.
  - intros Hind. cbn [indentation] in Hind. subst ind. now split.
  - intros Hind. cbn [indentation] in Hind.
    destruct (String.eqb_spec ind "") as [->|_]; [congruence|]. now split.
Qed.

Lemma first_marker_jura_numbered_witness :
  marker (asFirstMarker (mkLine Numbered (String tab "") "3" Parentheses "")
                        true) = "1".
Proof.
  apply (first_marker_jura_numbered
           (mkLine Numbered (String tab "") "3" Parentheses ""));
    [reflexivity|reflexivity|discriminate].
Defined.

(** ** What a parsed line says about its text (parser.ts) *)

Section ParsedLine.

Variable settings : MoreOrderedListsSettings.

Lemma bullet_not_space b : Parser.isBullet b = true -> isSpace b = false.
Proof.
  intros Hb. destruct (isSpace b) eqn:E; [|reflexivity].
  apply space_not_bullet in E. congruence.
Qed.

Lemma separator_not_markerChar c :
  Parser.buildSeparatorPattern settings c = true ->
  markerChar settings c = false.
Proof.
  unfold Parser.buildSeparatorPattern, markerChar. intros H.
  assert (Hc : c = "."%char \/ c = ")"%char).
  { apply orb_prop in H as [H|H].
    - left. now apply Ascii.eqb_eq.
    - right. apply andb_prop in H as [_ H]. now apply Ascii.eqb_eq. }
  destruct (Parser.alphabetChars settings c) eqn:E.
  - apply alphabetChars_letter in E. destruct Hc as [-> | ->]; discriminate E.
  - destruct Hc as [-> | ->]; reflexivity.
Qed.

Lemma unordered_some ind b t :
  forallb isSpace ind = true -> Parser.isBullet b = true ->
  forallb anyChar t = true ->
  exec Parser.unorderedPattern (ind ++ String b (String " " t))
  = Some [ind; String b ""; t].
Proof.
  intros Hind Hb Ht. unfold exec, Parser.unorderedPattern.
  rewrite rmatch_Cat. apply spaces_match; auto.
  - simpl. now apply bullet_not_space.
  - cbv beta. rewrite rmatch_Cat, rmatch_Grp.
    rewrite rmatch_Cls by assumption.
    change (String b (String " " t)) with (String b "" ++ String " " t).
    rewrite consumed_app. exact (content_match t _ Ht).
Qed.

Lemma exec_Lang r s caps : exec r s = Some caps -> Lang r s.
Proof. intros H. apply test_sound. unfold test. now rewrite H. Qed.

Lemma Lang_Chr c s : Lang (Chr c) s -> s = String c "".
Proof. intros (d & -> & Hd). apply Ascii.eqb_eq in Hd. now subst d. Qed.

Lemma exec_unordered text caps :
  exec Parser.unorderedPattern text = Some caps ->
  exists ind b t,
    forallb isSpace ind = true /\ Parser.isBullet b = true
    /\ forallb anyChar t = true
    /\ text = ind ++ String b (String " " t)
    /\ caps = [ind; String b ""; t].
Proof.
  intros H. pose proof (exec_Lang _ _ _ H) as HL.
  unfold Parser.unorderedPattern in HL. cbn [Lang] in HL.
  destruct HL as (ind & s2 & -> & (Hind & _) & s3 & s4 & -> & (b & -> & Hb)
                  & s5 & t & -> & Hsp & (Ht & _)).
  apply Lang_Chr in Hsp. subst s5. cbn [append] in *.
  rewrite unordered_some in H by assumption. injection H as <-.
  exists ind, b, t. repeat (split; [assumption|]). split; reflexivity.
Qed.

Lemma exec_standard text caps :
  exec (Parser.standardRegex settings) text = Some caps ->
  exists ind m sepChar t,
    forallb isSpace ind = true
    /\ Lang (Parser.buildMarkerPattern settings) m
    /\ Parser.buildSeparatorPattern settings sepChar = true
    /\ forallb anyChar t = true
    /\ text = ind ++ m ++ String sepChar (String " " t)
    /\ caps = [ind; m; String sepChar ""; t].
Proof.
  intros H. pose proof (exec_Lang _ _ _ H) as HL.
  unfold Parser.standardRegex in HL. cbn [Lang] in HL.
  destruct HL as (ind & s2 & -> & (Hind & _) & m & s4 & -> & Hm
                  & s5 & s6 & -> & (sepChar & -> & Hsep)
                  & s7 & t & -> & Hsp & (Ht & _)).
  apply Lang_Chr in Hsp. subst s7. cbn [append] in *.
  rewrite standard_some in H;
    auto using separator_not_markerChar.
  injection H as <-. exists ind, m, sepChar, t.
  repeat (split; [assumption|]). split; reflexivity.
Qed.

Lemma exec_parentheses text caps :
  exec (Parser.parenthesesPattern settings) text = Some caps ->
  exists ind m t,
    forallb isSpace ind = true
    /\ Lang (Parser.buildMarkerPattern settings) m
    /\ forallb anyChar t = true
    /\ text = ind ++ String "(" (m ++ String ")" (String " " t))
    /\ caps = [ind; m; t].
Proof.
  intros H. pose proof (exec_Lang _ _ _ H) as HL.
  unfold Parser.parenthesesPattern in HL. cbn [Lang] in HL.
  destruct HL as (ind & s2 & -> & (Hind & _) & s3 & s4 & -> & Hopen
                  & m & s6 & -> & Hm & s7 & s8 & -> & Hclose
                  & s9 & t & -> & Hsp & (Ht & _)).
  apply Lang_Chr in Hopen, Hclose, Hsp. subst s3 s7 s9. cbn [append] in *.
  rewrite parens_some in H by assumption.
  injection H as <-. exists ind, m, t.
  repeat (split; [assumption|]). split; reflexivity.
Qed.

(** The classifier on the two kinds of marker token. *)
Lemma intrinsic_bullet b :
  Parser.isBullet b = true ->
  Parser.determineIntrinsicListType settings (String b "") = Some Unordered.
Proof.
  unfold Parser.isBullet, Parser.determineIntrinsicListType. intros Hb.
  cbn [String.eqb]. 
  destruct (Ascii.eqb b "*"), (Ascii.eqb b "-"), (Ascii.eqb b "+");
    try reflexivity. discriminate Hb.
Qed.

Lemma determine_bullet b context ty :
  Parser.isBullet b = true ->
  Parser.determineListType settings (String b "") context = Some ty ->
  ty = Unordered.
Proof.
  intros Hb. unfold Parser.determineListType.
  rewrite (intrinsic_bullet b Hb).
  destruct context as [c|]; [|congruence].
  destruct (ListType_eqb Unordered (type c)); [congruence|].
  rewrite andb_false_r. discriminate.
Qed.

Lemma intrinsic_token m :
  Lang (Parser.buildMarkerPattern settings) m ->
  Parser.determineIntrinsicListType settings m <> Some Unordered.
Proof.
  intros Hm.
  destruct (shape_head settings m (markerPattern_shape settings m Hm))
    as (c & t & -> & Hc).
  apply markerChar_not_bullet in Hc.
  unfold Parser.determineIntrinsicListType, Parser.isBullet in *.
  cbn [String.eqb].
  apply orb_false_elim in Hc as [Hc H3]. apply orb_false_elim in Hc as [H1 H2].
  rewrite H1, H2, H3. cbn [orb].
  repeat match goal with
         | |- context [if ?b then _ else _] => destruct b
         end; discriminate.
Qed.

Lemma determine_token m context ty :
  Lang (Parser.buildMarkerPattern settings) m ->
  Parser.determineListType settings m context = Some ty ->
  ty <> Unordered.
Proof.
  intros Hm. pose proof (intrinsic_token m Hm) as Hi.
  unfold Parser.determineListType.
  destruct (Parser.determineIntrinsicListType settings m) as [it|];
    destruct context as [c|].
  - destruct (ListType_eqb it (type c)); [congruence|].
    destruct it, (type c); cbn;
      repeat match goal with
             | |- context [if ?b then _ else _] => destruct b
             end; congruence.
  - congruence.
  - cbn. rewrite andb_false_r. discriminate.
  - discriminate.
Qed.

(** The three ways a text is parsed into a line. *)
Inductive Parsed (text : string) (context : option ParsedListLine)
    (l : ParsedListLine) : Prop :=
| ParsedBullet ind b t :
    forallb isSpace ind = true -> Parser.isBullet b = true ->
    forallb anyChar t = true ->
    text = ind ++ String b (String " " t) ->
    Parser.determineListType settings (String b "") context = Some Unordered ->
    l = mkLine Unordered ind (String b "") Dot t ->
    Parsed text context l
| ParsedStandard ind m sepChar t :
    forallb isSpace ind = true ->
    Lang (Parser.buildMarkerPattern settings) m ->
    Parser.buildSeparatorPattern settings sepChar = true ->
    forallb anyChar t = true ->
    text = ind ++ m ++ String sepChar (String " " t) ->
    Parser.determineListType settings m context = Some (type l) ->
    type l <> Unordered ->
    l = mkLine (type l) ind m
               (Parser.asListSeparator (String sepChar "")) t ->
    Parsed text context l
| ParsedParentheses ind m t :
    enableParentheses settings = true ->
    forallb isSpace ind = true ->
    Lang (Parser.buildMarkerPattern settings) m ->
    forallb anyChar t = true ->
    text = ind ++ String "(" (m ++ String ")" (String " " t)) ->
    Parser.determineListType settings m context = Some (type l) ->
    type l <> Unordered ->
    l = mkLine (type l) ind m Parentheses t ->
    Parsed text context l.

Lemma parseLine_inversion text context l :
  Parser.parseLine settings text context = Some l -> Parsed text context l.
Proof.
  unfold Parser.parseLine.
  destruct (exec Parser.unorderedPattern text) as [caps|] eqn:Eu.
  { apply exec_unordered in Eu
      as (ind & b & t & Hind & Hb & Ht & -> & ->).
    unfold Parser.createResult, group; cbn [nth].
    destruct (Parser.determineListType settings (String b "") context)
      as [ty|] eqn:Ety; [|discriminate].
    pose proof (determine_bullet _ _ _ Hb Ety). subst ty.
    intros [= <-]. now apply ParsedBullet with ind b t. }
  destruct (exec (Parser.standardRegex settings) text) as [caps|] eqn:Es.
  { apply exec_standard in Es
      as (ind & m & sepChar & t & Hind & Hm & Hsep & Ht & -> & ->).
    unfold Parser.createResult, group; cbn [nth].
    destruct (Parser.determineListType settings m context)
      as [ty|] eqn:Ety; [|discriminate].
    intros [= <-].
    apply ParsedStandard with ind m sepChar t; auto.
    cbn [type]. now apply determine_token with m context. }
  destruct (enableParentheses settings) eqn:Ep; [|discriminate].
  destruct (exec (Parser.parenthesesPattern settings) text) as [caps|] eqn:Epp;
    [|discriminate].
  apply exec_parentheses in Epp as (ind & m & t & Hind & Hm & Ht & -> & ->).
  unfold Parser.createResult, group; cbn [nth].
  destruct (Parser.determineListType settings m context)
    as [ty|] eqn:Ety; [|discriminate].
  intros [= <-].
  apply ParsedParentheses with ind m t; auto.
  cbn [type]. now apply determine_token with m context.
Qed.

End ParsedLine.

Lemma separatorChar_cases settings c :
  Parser.buildSeparatorPattern settings c = true ->
  (c = "."%char /\ Parser.asListSeparator (String c "") = Dot)
  \/ (c = ")"%char /\ Parser.asListSeparator (String c "") = Parenthesis
      /\ enableParentheses settings = true).
Proof.
  unfold Parser.buildSeparatorPattern. intros [H|H]%orb_prop.
  - apply Ascii.eqb_eq in H. subst c. now left.
  - apply andb_prop in H as [Hp H]. apply Ascii.eqb_eq in H. subst c.
    now right.
Qed.

Lemma markerPattern_test settings m :
  Lang (Parser.buildMarkerPattern settings) m ->
  test (Parser.buildMarkerPattern settings) m = true.
Proof.
  intros Hm. unfold test, exec.
  rewrite <- (append_nil_r m) at 1.
  now rewrite (markerPattern_match settings m "" [] _ [] Hm I eq_refl).
Qed.

(** X11.  Rendering after parsing.  A line that [parseLine] returns accounts
    for the whole text: the indentation is white space, the marker is a
    token of the marker pattern, the separator is one the configuration
    enables, the content has no line terminator, and [getLineText] of the
    line, with the space after the separator put back in front of the
    content, is the text parsed.  A bullet line is the exception: its
    separator field is the dot, which the text does not contain. *)
Theorem render_after_parse
    (settings : MoreOrderedListsSettings) (text : string)
    (context : option ParsedListLine) (l : ParsedListLine)
    (Hparse : Parser.parseLine settings text context = Some l) :
  forallb isSpace (indentation l) = true
  /\ forallb anyChar (content l) = true
  /\ (type l <> Unordered ->
      test (Parser.buildMarkerPattern settings) (marker l) = true
      /\ (separator l = Dot \/ enableParentheses settings = true)
      /\ getLineText (setContent l (String " " (content l))) = text)
  /\ (type l = Unordered ->
      Parser.isBullet
        match marker l with String b _ => b | EmptyString => " "%char end
      = true
      /\ String.length (marker l) = 1%nat
      /\ separator l = Dot
      /\ indentation l ++ marker l ++ String " " (content l) = text).
Proof.
  apply parseLine_inversion in Hparse.
  destruct Hparse as [ind b t Hind Hb Ht -> Hty ->
                     |ind m sepChar t Hind Hm Hsep Ht -> Hty Hnot ->
                     |ind m t Hp Hind Hm Ht -> Hty Hnot ->];
    cbn [type indentation marker separator content].
  - repeat split; auto. congruence.
  - split; [exact Hind|]. split; [exact Ht|]. split; [|congruence].
    intros _. split; [now apply markerPattern_test|].
    unfold getLineText, setContent.
    cbn [type indentation marker separator content].
    destruct (separatorChar_cases settings sepChar Hsep)
      as [[-> ->]|(-> & -> & Hp)]; split; auto.
  - split; [exact Hind|]. split; [exact Ht|]. split; [|congruence].
    intros _. split; [now apply markerPattern_test|]. split; [now right|].
    reflexivity.
Qed.

Lemma render_after_parse_witness :
  getLineText
    (setContent (mkLine Roman "  " "iv" Parenthesis "four") " four")
  = "  iv) four".
Proof.
  refine (proj2 (proj2 (proj1 (proj2 (proj2
           (render_after_parse DEFAULT_SETTINGS "  iv) four" None
              (mkLine Roman "  " "iv" Parenthesis "four") eq_refl)))
           _))).
  discriminate.
Defined.

Lemma execPrefix_spaces ind rest :
  forallb isSpace ind = true -> headFails isSpace rest ->
  execPrefix (Grp (Rep isSpace 0 None)) (ind ++ rest) = Some [ind].
Proof. intros Hind Hrest. unfold execPrefix. now apply spaces_match. Qed.

Lemma parser_spaces settings text context l :
  Parser.parseLine settings text context = Some l ->
  execPrefix (Grp (Rep isSpace 0 None)) text = Some [indentation l].
Proof.
  intros Hparse. apply parseLine_inversion in Hparse.
  destruct Hparse as [ind b t Hind Hb Ht -> Hty ->
                     |ind m sepChar t Hind Hm Hsep Ht -> Hty Hnot ->
                     |ind m t Hp Hind Hm Ht -> Hty Hnot ->];
    cbn [indentation].
  - rewrite execPrefix_spaces; auto. simpl. now apply bullet_not_space.
  - destruct (shape_head settings m (markerPattern_shape settings m Hm))
      as (c & m' & -> & Hc).
    rewrite execPrefix_spaces; auto.
    simpl. now apply markerChar_not_space with settings.
  - rewrite execPrefix_spaces; auto. reflexivity.
Qed.

Lemma parser_level settings text context l :
  Parser.parseLine settings text context = Some l ->
  Parser.getIndentationLevel text = getIndentationLevel (indentation l).
Proof.
  intros Hparse. unfold Parser.getIndentationLevel.
  now rewrite (parser_spaces _ _ _ _ Hparse).
Qed.

(** X12.  The parser and the parsed line agree on the level.  The parser
    computes the level of a line from the white space its own pattern finds
    at the start of the text, the key handler from the indentation field of
    the parsed line: for every line that [parseLine] returns the two are the
    same white space, and so the same level. *)
Theorem parser_level_is_line_level
    (settings : MoreOrderedListsSettings) (text : string)
    (context : option ParsedListLine) (l : ParsedListLine)
    (Hparse : Parser.parseLine settings text context = Some l) :
  execPrefix (Grp (Rep isSpace 0 None)) text = Some [indentation l]
  /\ Parser.getIndentationLevel text = getIndentationLevel (indentation l).
Proof.
  split; [now apply parser_spaces with settings context
         |now apply parser_level with settings context].
Qed.

Lemma parser_level_is_line_level_witness :
  Parser.getIndentationLevel (String tab "    b. x") = 2%nat.
Proof.
  exact (proj2 (parser_level_is_line_level DEFAULT_SETTINGS
                  (String tab "    b. x") None
                  (mkLine Alphabetical (String tab "    ") "b" Dot "x")
                  eq_refl)).
Defined.

(** ** The lists of the parser (parser.ts) *)

Lemma assign_last {A} (l : list A) : forall i x,
  List.length l = S i -> Parser.assign l i x = (firstn i l ++ [x])%list.
Proof.
  induction l as [|a l IH]; intros i x Hlen; [discriminate|].
  destruct i as [|i]; simpl in *.
  - destruct l; [reflexivity|discriminate].
  - destruct l as [|b l]; [discriminate|]. f_equal. apply IH.
    simpl in *. lia.
Qed.

Section ListRuns.

Variable settings : MoreOrderedListsSettings.
Variable doc : Parser.Text.

(** The items that Obsidian handles itself when they are at the top level:
    bullets, and numbers with a dot or one parenthesis. *)
Definition plainItem (l : ParsedListLine) : bool :=
  ListType_eqb (type l) Unordered
  || (ListType_eqb (type l) Numbered
      && negb match separator l with Parentheses => true | _ => false end).

(** One round of the loop of [parseList] that does not [break]: the line it
    accepts and the context stack it leaves. *)
Record Step (lineNumber : Z) (contextStack : list ParsedListLine)
    (current : ParsedListLine) (stack' : list ParsedListLine) : Prop := {
  step_level :
    (KeyHandler.level current <= List.length contextStack)%nat;
  step_parse :
    Parser.parseLine settings (Parser.lineText doc lineNumber)
      (nth_error contextStack (KeyHandler.level current))
    = Some current;
  step_plain :
    plainItem current = true -> (0 < KeyHandler.level current)%nat;
  step_stack :
    stack' = (firstn (KeyHandler.level current) contextStack ++ [current])%list
}.

Inductive Run : Z -> list ParsedListLine -> list (Z * ParsedListLine) -> Prop :=
| RunNil n st : Run n st []
| RunCons n st cur st' rest :
    Step n st cur st' -> Run (n + 1) st' rest ->
    Run n st ((n, cur) :: rest).

Lemma parseListLoop_iteration count n st pl :
  Parser.parseListLoop settings doc (S count) n st pl = pl
  \/ exists cur st',
       Step n st cur st'
       /\ Parser.parseListLoop settings doc (S count) n st pl
          = Parser.parseListLoop settings doc count (n + 1) st'
              (pl ++ [(n, cur)])%list.
Proof.
  cbn [Parser.parseListLoop].
  set (text := Parser.lineText doc n).
  set (lvl := Parser.getIndentationLevel text).
  destruct (List.length st <? lvl)%nat eqn:Ejump; [now left|].
  apply Nat.ltb_ge in Ejump.
  set (cs := firstn (lvl + 1) st).
  assert (Hctx : (if (lvl <? List.length cs)%nat then nth_error cs lvl else None)
                 = nth_error st lvl).
  { assert (Hn : nth_error cs lvl = nth_error st lvl).
    { subst cs. rewrite nth_error_firstn.
      destruct (lvl <? lvl + 1)%nat eqn:E; [reflexivity|].
      apply Nat.ltb_ge in E. lia. }
    destruct (lvl <? List.length cs)%nat eqn:E; [exact Hn|].
    apply Nat.ltb_ge in E. rewrite <- Hn. symmetry.
    now apply nth_error_None. }
  rewrite Hctx.
  destruct (Parser.parseLine settings text (nth_error st lvl))
    as [cur|] eqn:Eparse; [|now left].
  pose proof (parser_level _ _ _ _ Eparse) as Hlvl. fold lvl in Hlvl.
  destruct (negb _ && negb _ && (0 <? lvl)%nat); [now left|].
  fold (plainItem cur).
  destruct (plainItem cur && _) eqn:Eplain; [now left|].
  right. eexists cur, _. split; [|reflexivity].
  assert (Hstack :
    (if (List.length cs =? lvl)%nat then (cs ++ [cur])%list
     else Parser.assign cs lvl cur)
    = (firstn lvl st ++ [cur])%list).
  { assert (Hlen : List.length cs = Nat.min (lvl + 1) (List.length st))
      by (subst cs; apply length_firstn).
    destruct (List.length cs =? lvl)%nat eqn:E.
    - apply Nat.eqb_eq in E.
      assert (Hst : List.length st = lvl) by lia.
      subst cs. now rewrite !firstn_all2 by lia.
    - apply Nat.eqb_neq in E. rewrite assign_last by lia.
      subst cs. rewrite firstn_firstn.
      now replace (Nat.min lvl (lvl + 1)) with lvl by lia. }
  rewrite Hstack.
  split; unfold KeyHandler.level; rewrite <- Hlvl.
  - exact Ejump.
  - exact Eparse.
  - intros Hp. rewrite Hp in Eplain. cbn [andb] in Eplain.
    apply orb_false_elim in Eplain as [_ E0]. apply Nat.eqb_neq in E0. lia.
  - reflexivity.
Qed.

Lemma parseListLoop_run count : forall n st pl,
  exists more,
    Parser.parseListLoop settings doc count n st pl = (pl ++ more)%list
    /\ Run n st more.
Proof.
  induction count as [|count IH]; intros n st pl.
  - exists []. split; [simpl; now rewrite app_nil_r|constructor].
  - destruct (parseListLoop_iteration count n st pl)
      as [->|(cur & st' & Hstep & ->)].
    + exists []. split; [now rewrite app_nil_r|constructor].
    + destruct (IH (n + 1) st' (pl ++ [(n, cur)])%list) as (more & -> & Hrun).
      exists ((n, cur) :: more). split; [now rewrite <- app_assoc|].
      now apply RunCons with st'.
Qed.

Lemma parseList_run start end_ :
  Run start [] (Parser.parseList settings doc start end_).
Proof.
  unfold Parser.parseList.
  destruct (parseListLoop_run (iterationsLeft end_ start) start [] [])
    as (more & -> & Hrun). exact Hrun.
Qed.

(** Every list of [parseLists] is what [parseList] returns from some line of
    the range. *)
Lemma parseListsLoop_origin end_ currentLine parsedLists (P : list (Z * ParsedListLine) -> Prop) :
  (forall start, P (Parser.parseList settings doc start end_)) ->
  Forall P parsedLists ->
  Forall P (Parser.parseListsLoop settings doc end_ currentLine parsedLists).
Proof.
  intros HP.
  funelim (Parser.parseListsLoop settings doc end_ currentLine parsedLists);
    intros Hall.
  - exact Hall.
  - match goal with IH : _ -> _ |- _ => apply IH; assumption end.
  - match goal with IH : _ -> _ |- _ => apply IH end; [assumption|].
    apply Forall_app. split; [assumption|]. constructor; [|constructor].
    match goal with
    | H : Parser.parseList _ _ _ _ = _ :: _ |- _ => rewrite <- H
    end.
    apply HP.
Qed.

Lemma parseLists_origin start end_ (P : list (Z * ParsedListLine) -> Prop) :
  (forall start', P (Parser.parseList settings doc start' end_)) ->
  Forall P (Parser.parseLists settings doc start end_).
Proof.
  intros HP. unfold Parser.parseLists.
  apply parseListsLoop_origin; [exact HP|constructor].
Qed.

(** The line numbers of a run go up by one. *)
Lemma Run_lines n st rest :
  Run n st rest -> map fst rest = consecutive n (List.length rest).
Proof.
  induction 1 as [|n st cur st' rest Hstep Hrun IH]; [reflexivity|].
  simpl. now rewrite IH.
Qed.

(** The levels of a run: each is at most one more than the one before. *)
Fixpoint climbs (bound : nat) (levels : list nat) : Prop :=
  match levels with
  | [] => True
  | x :: rest => (x <= bound)%nat /\ climbs (S x) rest
  end.

Lemma Run_climbs n st rest :
  Run n st rest ->
  climbs (List.length st) (map (fun e => KeyHandler.level (snd e)) rest).
Proof.
  induction 1 as [|n st cur st' rest [Hlvl _ _ ->] Hrun IH]; [exact I|].
  cbn [map climbs snd]. split; [exact Hlvl|].
  rewrite length_app, length_firstn in IH. cbn [List.length] in IH.
  now replace (Nat.min (KeyHandler.level cur) (List.length st) + 1)%nat
    with (S (KeyHandler.level cur)) in IH by lia.
Qed.

Lemma climbs_nth bound levels :
  climbs bound levels ->
  (forall x, nth_error levels 0 = Some x -> (x <= bound)%nat)
  /\ (forall i a b,
        nth_error levels i = Some a -> nth_error levels (S i) = Some b ->
        (b <= a + 1)%nat).
Proof.
  revert bound. induction levels as [|x rest IH]; intros bound; cbn [climbs].
  - intros _. split; [discriminate|]. intros [|i]; discriminate.
  - intros [Hx Hrest]. destruct (IH _ Hrest) as [IH0 IHs]. split.
    + now intros y [= <-].
    + intros [|i] a b; cbn [nth_error].
      * intros [= <-] Hb. apply IH0 in Hb. lia.
      * apply IHs.
Qed.

(** A property of lines that [parseLine] hands on from the context to the
    line holds of every line of a run. *)
Lemma Run_all (Q : ParsedListLine -> Prop) :
  (forall text context l,
     (forall c, context = Some c -> Q c) ->
     Parser.parseLine settings text context = Some l -> Q l) ->
  forall n st rest,
    Run n st rest -> Forall Q st -> Forall (fun e => Q (snd e)) rest.
Proof.
  intros HQ. induction 1 as [|n st cur st' rest [_ Hparse _ ->] Hrun IH];
    intros Hst; [constructor|].
  assert (Hcur : Q cur).
  { apply (HQ _ _ _) with (2 := Hparse). intros c Hc.
    apply nth_error_In in Hc. rewrite Forall_forall in Hst. now apply Hst. }
  constructor; [exact Hcur|]. apply IH.
  apply Forall_app. split; [|now constructor].
  rewrite Forall_forall in *. intros x Hx. apply Hst.
  rewrite <- (firstn_skipn (KeyHandler.level cur) st).
  apply in_or_app. now left.
Qed.

(** The context of a level in the lines parsed so far, latest first: the
    latest line of the level, unless a line of a lower level comes after
    it. *)
Fixpoint scan (reversed : list (Z * ParsedListLine)) (i : nat)
  : option ParsedListLine :=
  match reversed with
  | [] => None
  | (_, l) :: rest =>
      if (KeyHandler.level l =? i)%nat then Some l
      else if (KeyHandler.level l <? i)%nat then None
      else scan rest i
  end.

Lemma scan_level reversed i p :
  scan reversed i = Some p -> KeyHandler.level p = i.
Proof.
  induction reversed as [|[k l] rest IH]; cbn [scan]; [discriminate|].
  destruct (KeyHandler.level l =? i)%nat eqn:E.
  - intros [= <-]. now apply Nat.eqb_eq.
  - destruct (KeyHandler.level l <? i)%nat; [discriminate|exact IH].
Qed.

Lemma scan_In reversed i p :
  scan reversed i = Some p -> exists k, In (k, p) reversed.
Proof.
  induction reversed as [|[k l] rest IH]; cbn [scan]; [discriminate|].
  destruct (KeyHandler.level l =? i)%nat.
  - intros [= <-]. exists k. now left.
  - destruct (KeyHandler.level l <? i)%nat; [discriminate|].
    intros H. destruct (IH H) as [k' Hk']. exists k'. now right.
Qed.

Lemma findContextLoop_scan reversed N i :
  (forall e, In e reversed -> fst e < N) ->
  KeyHandler.findContextLoop reversed N i = scan reversed i.
Proof.
  induction reversed as [|[k l] rest IH]; intros Hlt; [reflexivity|].
  cbn [KeyHandler.findContextLoop scan].
  pose proof (Hlt (k, l) (or_introl eq_refl)) as Hk. cbn [fst] in Hk.
  destruct (N <=? k) eqn:E; [apply Z.leb_le in E; lia|].
  rewrite IH; [reflexivity|]. intros e He. apply Hlt. now right.
Qed.

Lemma findContextLoop_skip pre rest N i :
  (forall e, In e pre -> N <= fst e) ->
  KeyHandler.findContextLoop (pre ++ rest) N i
  = KeyHandler.findContextLoop rest N i.
Proof.
  induction pre as [|[k l] pre IH]; intros Hge; [reflexivity|].
  cbn [app KeyHandler.findContextLoop].
  pose proof (Hge (k, l) (or_introl eq_refl)) as Hk. cbn [fst] in Hk.
  destruct (N <=? k) eqn:E; [|apply Z.leb_gt in E; lia].
  apply IH. intros e He. apply Hge. now right.
Qed.

Lemma findParentLoop_skip pre rest N i :
  (forall e, In e pre -> N <= fst e) ->
  KeyHandler.findParentLoop (pre ++ rest) N i
  = KeyHandler.findParentLoop rest N i.
Proof.
  induction pre as [|[k l] pre IH]; intros Hge; [reflexivity|].
  cbn [app KeyHandler.findParentLoop].
  pose proof (Hge (k, l) (or_introl eq_refl)) as Hk. cbn [fst] in Hk.
  destruct (N <=? k) eqn:E; [|apply Z.leb_gt in E; lia].
  apply IH. intros e He. apply Hge. now right.
Qed.

Lemma findParentLoop_scan reversed N i p :
  (forall e, In e reversed -> fst e < N) ->
  scan reversed i = Some p ->
  KeyHandler.findParentLoop reversed N i = Some p.
Proof.
  induction reversed as [|[k l] rest IH]; intros Hlt; [discriminate|].
  cbn [KeyHandler.findParentLoop scan].
  pose proof (Hlt (k, l) (or_introl eq_refl)) as Hk. cbn [fst] in Hk.
  destruct (N <=? k) eqn:E; [apply Z.leb_le in E; lia|].
  destruct (KeyHandler.level l =? i)%nat; [auto|].
  destruct (KeyHandler.level l <? i)%nat; [discriminate|].
  apply IH. intros e He. apply Hlt. now right.
Qed.

(** The context stack of the parser holds, at each level, the context of
    that level in the lines parsed so far. *)
Definition stackOf (before : list (Z * ParsedListLine))
    (st : list ParsedListLine) : Prop :=
  forall i, nth_error st i = scan (List.rev before) i.

Lemma stackOf_step before n st cur st' :
  stackOf before st -> Step n st cur st' ->
  stackOf (before ++ [(n, cur)]) st'.
Proof.
  intros Hinv [Hlvl _ _ ->] i. rewrite rev_app_distr. cbn [List.rev app scan].
  set (lvl := KeyHandler.level cur) in *.
  assert (Hlen : List.length (firstn lvl st) = lvl)
    by (rewrite length_firstn; lia).
  destruct (lvl =? i)%nat eqn:Ei.
  - apply Nat.eqb_eq in Ei. subst i.
    rewrite nth_error_app2 by lia. rewrite Hlen, Nat.sub_diag. reflexivity.
  - apply Nat.eqb_neq in Ei. destruct (lvl <? i)%nat eqn:El.
    + apply Nat.ltb_lt in El. apply nth_error_None.
      rewrite length_app, Hlen. simpl. lia.
    + apply Nat.ltb_ge in El. rewrite nth_error_app1 by lia.
      rewrite nth_error_firstn.
      destruct (i <? lvl)%nat eqn:E; [apply Hinv|].
      apply Nat.ltb_ge in E. lia.
Qed.

Lemma Run_context before n st rest :
  stackOf before st -> Run n st rest ->
  forall pre k l post,
    rest = (pre ++ (k, l) :: post)%list ->
    Parser.parseLine settings (Parser.lineText doc k)
      (scan (List.rev (before ++ pre)) (KeyHandler.level l)) = Some l
    /\ ((0 < KeyHandler.level l)%nat ->
        exists p,
          scan (List.rev (before ++ pre)) (KeyHandler.level l - 1) = Some p)
    /\ (plainItem l = true -> (0 < KeyHandler.level l)%nat).
Proof.
  intros Hinv Hrun. revert before Hinv.
  induction Hrun as [|n st cur st' rest Hstep Hrun IH];
    intros before Hinv pre k l post Hrest.
  - destruct pre; discriminate.
  - destruct pre as [|e pre]; cbn [app] in Hrest.
    + injection Hrest as <- <- <-. rewrite app_nil_r.
      destruct Hstep as [Hlvl Hparse Hplain _].
      split; [now rewrite <- Hinv|]. split; [|exact Hplain].
      intros Hpos. rewrite <- Hinv.
      destruct (nth_error st (KeyHandler.level cur - 1)) as [p|] eqn:E;
        [now exists p|].
      apply nth_error_None in E. lia.
    + injection Hrest as <- ->.
      specialize (IH _ (stackOf_step _ _ _ _ _ Hinv Hstep) pre k l post eq_refl).
      now rewrite <- app_assoc in IH.
Qed.

Lemma stackOf_nil : stackOf [] [].
Proof. intros [|i]; reflexivity. Qed.

Lemma Run_lower n st rest :
  Run n st rest -> forall e, In e rest -> n <= fst e.
Proof.
  intros Hrun e He. apply Run_lines in Hrun.
  apply (in_map fst) in He. rewrite Hrun in He.
  apply consecutive_In in He. lia.
Qed.

(** The entries of a run before and after one of its lines. *)
Lemma Run_split pre : forall n st k l post,
  Run n st (pre ++ (k, l) :: post)%list ->
  (forall e, In e pre -> fst e < k)
  /\ (forall e, In e ((k, l) :: post) -> k <= fst e).
Proof.
  induction pre as [|e pre IH]; intros n st k l post Hrun.
  - split; [intros e []|]. cbn [app] in Hrun.
    assert (Hk : k = n) by (inversion Hrun; reflexivity). subst k.
    apply (Run_lower _ _ _ Hrun).
  - cbn [app] in Hrun. inversion Hrun as [|n' st0 cur st' rest Hstep Hrest];
      subst.
    destruct (IH _ _ _ _ _ Hrest) as [Hpre Hpost]. split; [|exact Hpost].
    intros e [<-|He]; [|now apply Hpre]. cbn [fst].
    pose proof (Run_lower _ _ _ Hrest (k, l)
                  ltac:(apply in_or_app; right; now left)) as Hk.
    cbn [fst] in Hk. lia.
Qed.

(** What the key handler finds in a list that a run has produced. *)
Lemma Run_findContext n st pre k l post i :
  Run n st (pre ++ (k, l) :: post)%list ->
  KeyHandler.findContextInList (pre ++ (k, l) :: post) k i
  = scan (List.rev pre) i.
Proof.
  intros Hrun. destruct (Run_split _ _ _ _ _ _ Hrun) as [Hpre Hpost].
  unfold KeyHandler.findContextInList.
  rewrite rev_app_distr, findContextLoop_skip.
  - apply findContextLoop_scan. intros e He. apply Hpre.
    now apply in_rev.
  - intros e He. apply Hpost. now apply in_rev.
Qed.

Lemma Run_findParent n st pre k l post i p :
  Run n st (pre ++ (k, l) :: post)%list ->
  scan (List.rev pre) i = Some p ->
  KeyHandler.findParentInList (pre ++ (k, l) :: post) k (S i) = Some p.
Proof.
  intros Hrun Hscan. destruct (Run_split _ _ _ _ _ _ Hrun) as [Hpre Hpost].
  unfold KeyHandler.findParentInList.
  rewrite rev_app_distr, findParentLoop_skip.
  - apply findParentLoop_scan; [|exact Hscan]. intros e He. apply Hpre.
    now apply in_rev.
  - intros e He. apply Hpost. now apply in_rev.
Qed.

End ListRuns.

Lemma parseLists_In settings doc start end_ parsedList
    (P : list (Z * ParsedListLine) -> Prop) :
  (forall start', P (Parser.parseList settings doc start' end_)) ->
  In parsedList (Parser.parseLists settings doc start end_) -> P parsedList.
Proof.
  intros HP Hin.
  pose proof (parseLists_origin settings doc start end_ P HP) as Hall.
  rewrite Forall_forall in Hall. now apply Hall.
Qed.

Ltac from_parseList Hin :=
  match type of Hin with
  | In ?pl (Parser.parseLists ?settings ?doc ?start ?end_) =>
      pattern pl;
      match goal with
      | |- ?P pl =>
          refine (parseLists_In settings doc start end_ pl P _ Hin)
      end
  end.

(** X13.  Within a list of [parseLists] the nesting goes down one level at
    a time: the first line of a list is at level 0, and the level of a line
    is at most one more than the level of the line before it. *)
Theorem list_levels_climb_by_one
    (settings : MoreOrderedListsSettings) (doc : Parser.Text)
    (start end_ : Z) (parsedList : list (Z * ParsedListLine))
    (Hin : In parsedList (Parser.parseLists settings doc start end_)) :
  (forall first, nth_error parsedList 0 = Some first ->
                 KeyHandler.level (snd first) = 0%nat)
  /\ (forall i a b,
        nth_error parsedList i = Some a ->
        nth_error parsedList (S i) = Some b ->
        (KeyHandler.level (snd b) <= KeyHandler.level (snd a) + 1)%nat).
Proof.
  from_parseList Hin. clear. intros start'.
  pose proof (Run_climbs _ _ _ _ _ (parseList_run settings doc start' end_))
    as Hclimbs.
  destruct (climbs_nth _ _ Hclimbs) as [H0 Hs]. cbn [List.length] in H0.
  set (parsed := Parser.parseList settings doc start' end_) in *. split.
  - intros first Hfirst.
    specialize (H0 (KeyHandler.level (snd first))).
    rewrite nth_error_map, Hfirst in H0. specialize (H0 eq_refl). lia.
  - intros i a b Ha Hb.
    apply (Hs i); rewrite nth_error_map; [now rewrite Ha|now rewrite Hb].
Qed.

Lemma list_levels_climb_by_one_witness :
  exists first,
    nth_error (nth 0 (Parser.parseLines DEFAULT_SETTINGS
                        ["a. x"; String tab "i. y"; "b. z"]) []) 0
    = Some first
    /\ KeyHandler.level (snd first) = 0%nat.
Proof.
  eexists. split; [reflexivity|].
  apply (list_levels_climb_by_one DEFAULT_SETTINGS
           (Parser.mockDoc ["a. x"; String tab "i. y"; "b. z"]) 1 3
           [(1, mkLine Alphabetical "" "a" Dot "x");
            (2, mkLine Roman (String tab "") "i" Dot "y");
            (3, mkLine Alphabetical "" "b" Dot "z")]);
    [left; reflexivity|reflexivity].
Defined.

Lemma parseList_entry settings doc start end_ k l :
  In (k, l) (Parser.parseList settings doc start end_) ->
  exists pre post,
    Parser.parseList settings doc start end_ = (pre ++ (k, l) :: post)%list
    /\ Run settings doc start [] (pre ++ (k, l) :: post)%list.
Proof.
  intros Hin. destruct (in_split _ _ Hin) as (pre & post & Heq).
  exists pre, post. split; [exact Heq|].
  rewrite <- Heq. apply parseList_run.
Qed.

(** X14.  A line of a list of [parseLists] parses to itself against the
    context that the key handler finds for it: for an entry of a parsed
    list with line number [k], [parseLine] on the text of line [k] with the
    result of [findContextInList] for [k] and the level of the line returns
    the line.  The context stack of the parser and the backward scan of the
    key handler pick the same sibling. *)
Theorem list_context_is_parser_context
    (settings : MoreOrderedListsSettings) (doc : Parser.Text)
    (start end_ : Z) (parsedList : list (Z * ParsedListLine))
    (k : Z) (l : ParsedListLine)
    (Hin : In parsedList (Parser.parseLists settings doc start end_))
    (Hentry : In (k, l) parsedList) :
  Parser.parseLine settings (Parser.lineText doc k)
    (KeyHandler.findContextInList parsedList k (KeyHandler.level l))
  = Some l.
Proof.
  revert Hentry. from_parseList Hin. clear. intros start' Hentry.
  destruct (parseList_entry _ _ _ _ _ _ Hentry) as (pre & post & -> & Hrun).
  rewrite (Run_findContext _ _ _ _ _ _ _ _ _ Hrun).
  now destruct (Run_context _ _ [] _ _ _ stackOf_nil Hrun
                  pre k l post eq_refl) as [H _].
Qed.

Lemma list_context_is_parser_context_witness :
  Parser.parseLine DEFAULT_SETTINGS "c. z"
    (KeyHandler.findContextInList
       [(1, mkLine Alphabetical "" "b" Dot "x");
        (2, mkLine Roman (String tab "") "i" Dot "y");
        (3, mkLine Alphabetical "" "c" Dot "z")] 3 0)
  = Some (mkLine Alphabetical "" "c" Dot "z").
Proof.
  apply (list_context_is_parser_context DEFAULT_SETTINGS
           (Parser.mockDoc ["b. x"; String tab "i. y"; "c. z"]) 1 3
           [(1, mkLine Alphabetical "" "b" Dot "x");
            (2, mkLine Roman (String tab "") "i" Dot "y");
            (3, mkLine Alphabetical "" "c" Dot "z")]
           3 (mkLine Alphabetical "" "c" Dot "z"));
    [left; reflexivity|right; right; left; reflexivity].
Defined.

(** X15.  Every nested line of a list of [parseLists] has a parent in the
    list: for an entry at a level above 0, [findParentInList] returns a line
    of the list one level up.  Bullets and numbers with a dot or one
    parenthesis are in a list only as nested lines, never at level 0, so a
    list never starts with one. *)
Theorem nested_lines_have_parents
    (settings : MoreOrderedListsSettings) (doc : Parser.Text)
    (start end_ : Z) (parsedList : list (Z * ParsedListLine))
    (k : Z) (l : ParsedListLine)
    (Hin : In parsedList (Parser.parseLists settings doc start end_))
    (Hentry : In (k, l) parsedList) :
  ((0 < KeyHandler.level l)%nat ->
   exists j p,
     KeyHandler.findParentInList parsedList k (KeyHandler.level l) = Some p
     /\ In (j, p) parsedList
     /\ (KeyHandler.level p + 1 = KeyHandler.level l)%nat)
  /\ (plainItem l = true -> (0 < KeyHandler.level l)%nat).
Proof.
  revert Hentry. from_parseList Hin. clear. intros start' Hentry.
  destruct (parseList_entry _ _ _ _ _ _ Hentry) as (pre & post & -> & Hrun).
  destruct (Run_context _ _ [] _ _ _ stackOf_nil Hrun pre k l post eq_refl)
    as (_ & Hparent & Hplain).
  split; [|exact Hplain]. intros Hpos.
  destruct (Hparent Hpos) as [p Hp]. cbn [app] in Hp.
  destruct (scan_In _ _ _ Hp) as [j Hj].
  exists j, p. split; [|split].
  - replace (KeyHandler.level l) with (S (KeyHandler.level l - 1)) at 1
      by lia.
    exact (Run_findParent _ _ _ _ _ _ _ _ _ _ Hrun Hp).
  - apply in_or_app. left. now apply in_rev.
  - apply scan_level in Hp. lia.
Qed.

Lemma nested_lines_have_parents_witness :
  exists j p,
    KeyHandler.findParentInList
      [(1, mkLine Alphabetical "" "b" Dot "x");
       (2, mkLine Numbered (String tab "") "1" Dot "y")] 2 1
    = Some p
    /\ In (j, p) [(1, mkLine Alphabetical "" "b" Dot "x");
                  (2, mkLine Numbered (String tab "") "1" Dot "y")]
    /\ (KeyHandler.level p + 1 = 1)%nat.
Proof.
  apply (nested_lines_have_parents DEFAULT_SETTINGS
           (Parser.mockDoc ["b. x"; String tab "1. y"]) 1 2
           [(1, mkLine Alphabetical "" "b" Dot "x");
            (2, mkLine Numbered (String tab "") "1" Dot "y")]
           2 (mkLine Numbered (String tab "") "1" Dot "y"));
    [left; reflexivity|right; left; reflexivity|].
  vm_compute. lia.
Defined.

(** ** Classification (parser.ts) *)

Definition typeEnabled (settings : MoreOrderedListsSettings) (t : ListType)
  : bool :=
  match t with
  | Alphabetical => enableAlphabeticalLists settings
  | Roman => enableRomanLists settings
  | NestedAlphabetical => negb (isDisabled (nestedAlphabeticalMode settings))
  | Numbered | Unordered => true
  end.

Lemma intrinsic_enabled settings m t :
  Parser.determineIntrinsicListType settings m = Some t ->
  typeEnabled settings t = true.
Proof.
  unfold Parser.determineIntrinsicListType.
  destruct (_ || _ || _); [now intros [= <-]|].
  destruct (match parseInt m with Some _ => true | None => false end);
    [now intros [= <-]|].
  destruct (Parser.isValidRomanNumeral m && enableRomanLists settings) eqn:Er;
    [intros [= <-]; now apply andb_prop in Er|].
  destruct ((String.length m =? 1)%nat && enableAlphabeticalLists settings)
    eqn:Ea; [intros [= <-]; now apply andb_prop in Ea|].
  destruct ((1 <? String.length m)%nat && _) eqn:En; [|discriminate].
  intros [= <-]. now apply andb_prop in En.
Qed.

Lemma determine_cases settings m context t :
  Parser.determineListType settings m context = Some t ->
  Parser.determineIntrinsicListType settings m = Some t
  \/ exists c,
       context = Some c
       /\ ((t = type c
            /\ Parser.determineIntrinsicListType settings m = Some Roman
            /\ String.length m = String.length (marker c)
            /\ (t = Alphabetical \/ t = NestedAlphabetical))
           \/ (t = NestedAlphabetical /\ type c = Alphabetical
               /\ Parser.determineIntrinsicListType settings m
                  = Some NestedAlphabetical)).
Proof.
  unfold Parser.determineListType.
  destruct context as [c|]; [|now left].
  destruct (Parser.determineIntrinsicListType settings m) as [it|] eqn:Ei.
  - destruct (ListType_eqb it (type c)); [now left|].
    intros H. right. exists c. split; [reflexivity|].
    destruct it; cbn in H;
      try (destruct (type c); cbn in H; discriminate H).
    + destruct (String.length m =? String.length (marker c))%nat eqn:El.
      * apply Nat.eqb_eq in El. left.
        destruct (type c) eqn:Et; cbn in H; try discriminate H;
          injection H as <-; auto 6.
      * destruct (type c); cbn in H; discriminate H.
    + right. destruct (type c); cbn in H; try discriminate H.
      injection H as <-. auto.
  - cbn. rewrite andb_false_r. discriminate.
Qed.

Lemma determine_enabled settings m context t :
  (forall c, context = Some c -> typeEnabled settings (type c) = true) ->
  Parser.determineListType settings m context = Some t ->
  typeEnabled settings t = true.
Proof.
  intros Hctx H.
  destruct (determine_cases _ _ _ _ H)
    as [Hi|(c & Hc & [(-> & _)|(-> & _ & Hi)])].
  - now apply intrinsic_enabled with m.
  - now apply Hctx.
  - now apply intrinsic_enabled with m.
Qed.

Lemma determine_sibling settings m context t :
  Parser.determineListType settings m (Some context) = Some t ->
  t = type context
  \/ (type context = Alphabetical /\ t = NestedAlphabetical).
Proof.
  intros Htype. pose proof Htype as H. apply determine_cases in H.
  destruct H as [Hi|(c & [= <-] & [(-> & Hi & Hlen & Ht)|(-> & Hc & Hi)])].
  - unfold Parser.determineListType in Htype. rewrite Hi in Htype.
    destruct (ListType_eqb t (type context)) eqn:E.
    + left. destruct t, (type context); try discriminate E; reflexivity.
    + destruct t, (type context); cbn in Htype; try discriminate E;
        try discriminate Htype; auto;
        destruct (String.length m =? _)%nat; cbn in Htype;
        try discriminate Htype; injection Htype as H; discriminate H.
  - now left.
  - now right.
Qed.

(** X16.  The type that [determineListType] gives a marker after a sibling,
    in full.  It is the type of the marker alone when that is the type of
    the sibling.  It is the type of the sibling when the marker alone would
    be a Roman numeral, is as long as the marker of the sibling, and the
    sibling is Alphabetical or NestedAlphabetical: "c" after "b" is
    Alphabetical.  It is NestedAlphabetical after an Alphabetical sibling
    when the marker alone is NestedAlphabetical.  In no other case is the
    marker given a type.  So siblings have the same type, but for the step
    from Alphabetical to NestedAlphabetical. *)
Theorem classification_follows_context
    (settings : MoreOrderedListsSettings) (m : string)
    (context : ParsedListLine) (t : ListType) :
  (Parser.determineListType settings m (Some context) = Some t
   <-> (Parser.determineIntrinsicListType settings m = Some t
        /\ t = type context)
       \/ (Parser.determineIntrinsicListType settings m = Some Roman
           /\ String.length m = String.length (marker context)
           /\ t = type context
           /\ (t = Alphabetical \/ t = NestedAlphabetical))
       \/ (Parser.determineIntrinsicListType settings m
           = Some NestedAlphabetical
           /\ type context = Alphabetical
           /\ t = NestedAlphabetical))
  /\ (Parser.determineListType settings m (Some context) = Some t ->
      t = type context
      \/ (type context = Alphabetical /\ t = NestedAlphabetical)).
Proof.
  split; [|now apply determine_sibling]. split.
  - intros Htype. pose proof (determine_sibling _ _ _ _ Htype) as Hsib.
    apply determine_cases in Htype.
    destruct Htype
      as [Hi|(c & [= <-] & [(-> & Hi & Hlen & Ht)|(-> & Hc & Hi)])].
    + destruct Hsib as [->|[Hc ->]]; [now left|].
      right; right. auto.
    + right; left. auto.
    + right; right. auto.
  - unfold Parser.determineListType.
    intros [[-> ->]|[(-> & Hlen & -> & Ht)|(-> & Hc & ->)]].
    + replace (ListType_eqb (type context) (type context)) with true
        by (now destruct (type context)).
      reflexivity.
    + apply Nat.eqb_eq in Hlen. rewrite Hlen.
      destruct Ht as [Ht|Ht]; rewrite Ht; reflexivity.
    + rewrite Hc. reflexivity.
Qed.

Lemma classification_follows_context_witness :
  Parser.determineListType DEFAULT_SETTINGS "c"
    (Some (mkLine Alphabetical "" "b" Dot "x")) = Some Alphabetical
  /\ Parser.determineIntrinsicListType DEFAULT_SETTINGS "c" = Some Roman.
Proof.
  split; [|reflexivity].
  apply (proj1 (classification_follows_context DEFAULT_SETTINGS "c"
                  (mkLine Alphabetical "" "b" Dot "x") Alphabetical)).
  right; left. repeat split; auto.
Defined.

Lemma forallb_impl (p q : ascii -> bool) s :
  (forall c, p c = true -> q c = true) ->
  forallb p s = true -> forallb q s = true.
Proof.
  intros Hpq. induction s as [|c s IH]; [reflexivity|]. simpl.
  intros [Hc Hs]%andb_prop. now rewrite (Hpq c Hc), IH.
Qed.

Lemma shape_chars settings m :
  MarkerShape settings m -> forallb (markerChar settings) m = true.
Proof.
  unfold markerChar. intros [Hd _|Ha _|c -> Hc].
  - apply (forallb_impl isDigit); [|exact Hd].
    intros c Hc. now rewrite Hc, orb_true_r.
  - apply (forallb_impl (Parser.alphabetChars settings)); [|exact Ha].
    intros c Hc. now rewrite Hc.
  - simpl. now rewrite Hc.
Qed.

Lemma parseLine_enabled settings text context l :
  (forall c, context = Some c -> typeEnabled settings (type c) = true) ->
  Parser.parseLine settings text context = Some l ->
  typeEnabled settings (type l) = true.
Proof.
  intros Hctx Hparse. apply parseLine_inversion in Hparse.
  destruct Hparse as [ind b t Hind Hb Ht _ Hty ->
                     |ind m sepChar t Hind Hm Hsep Ht _ Hty Hnot _
                     |ind m t Hp Hind Hm Ht _ Hty Hnot _].
  - reflexivity.
  - now apply determine_enabled with m context.
  - now apply determine_enabled with m context.
Qed.

(** X17.  The lists of [parseLists] keep to the configuration.  The type of
    every line is one that the settings enable: Roman only with
    [enableRomanLists], Alphabetical only with [enableAlphabeticalLists],
    NestedAlphabetical only when the nested mode is not disabled.  Its
    separator is the dot unless [enableParentheses] is set, and its marker,
    when it is not a bullet, is made of digits and of letters of the case
    that [caseStyle] allows. *)
Theorem parsed_lists_respect_settings
    (settings : MoreOrderedListsSettings) (doc : Parser.Text)
    (start end_ : Z) (parsedList : list (Z * ParsedListLine))
    (k : Z) (l : ParsedListLine)
    (Hin : In parsedList (Parser.parseLists settings doc start end_))
    (Hentry : In (k, l) parsedList) :
  typeEnabled settings (type l) = true
  /\ (separator l = Dot \/ enableParentheses settings = true)
  /\ (type l <> Unordered ->
      forallb (fun c => Parser.alphabetChars settings c || isDigit c)
              (marker l) = true).
Proof.
  revert Hentry. from_parseList Hin. clear. intros start' Hentry. split.
  - pose proof (Run_all settings doc
                  (fun l => typeEnabled settings (type l) = true)
                  (parseLine_enabled settings) _ _ _
                  (parseList_run settings doc start' end_)
                  (Forall_nil _)) as Hall.
    rewrite Forall_forall in Hall. exact (Hall (k, l) Hentry).
  - destruct (parseList_entry _ _ _ _ _ _ Hentry) as (pre & post & _ & Hrun).
    destruct (Run_context _ _ [] _ _ _ stackOf_nil Hrun
                pre k l post eq_refl) as [Hparse _].
    apply parseLine_inversion in Hparse.
    destruct Hparse as [ind b t Hind Hb Ht _ Hty ->
                       |ind m sepChar t Hind Hm Hsep Ht _ Hty Hnot ->
                       |ind m t Hp Hind Hm Ht _ Hty Hnot ->];
      cbn [type separator marker].
    + split; [now left|congruence].
    + split.
      * destruct (separatorChar_cases settings sepChar Hsep)
          as [[_ ->]|(_ & _ & Hp)]; auto.
      * intros _. apply (shape_chars settings).
        now apply markerPattern_shape.
    + split; [now right|]. intros _. apply (shape_chars settings).
      now apply markerPattern_shape.
Qed.

Lemma parsed_lists_respect_settings_witness :
  typeEnabled (mkSettings true false disabled lower false false) Alphabetical
  = true
  /\ (Dot = Dot
      \/ enableParentheses (mkSettings true false disabled lower false false)
         = true).
Proof.
  pose proof (parsed_lists_respect_settings
                (mkSettings true false disabled lower false false)
                (Parser.mockDoc ["i. x"; "ii) y"]) 1 2
                [(1, mkLine Alphabetical "" "i" Dot "x")]
                1 (mkLine Alphabetical "" "i" Dot "x")
                ltac:(left; reflexivity) ltac:(left; reflexivity))
    as (Htype & Hsep & _).
  split; [exact Htype|exact Hsep].
Defined.

(** X18.  Siblings of a parsed list have the same type.  When
    [findContextInList] finds a context for a line of a list of
    [parseLists], at the level of the line, the line has the type of that
    context; the one exception is a NestedAlphabetical line after an
    Alphabetical one ("aa" after "z").  The separators and the values of the
    two lines are not compared: "b)" after "a." is a sibling. *)
Theorem siblings_share_type
    (settings : MoreOrderedListsSettings) (doc : Parser.Text)
    (start end_ : Z) (parsedList : list (Z * ParsedListLine))
    (k : Z) (l context : ParsedListLine)
    (Hin : In parsedList (Parser.parseLists settings doc start end_))
    (Hentry : In (k, l) parsedList)
    (Hcontext : KeyHandler.findContextInList parsedList k (KeyHandler.level l)
                = Some context) :
  (type l = type context
   \/ (type context = Alphabetical /\ type l = NestedAlphabetical))
  /\ Parser.parseLines DEFAULT_SETTINGS ["a. x"; "b) y"]
     = [[(1, mkLine Alphabetical "" "a" Dot "x");
         (2, mkLine Alphabetical "" "b" Parenthesis "y")]].
Proof.
  split; [|reflexivity].
  revert Hentry Hcontext. from_parseList Hin. clear.
  intros start' Hentry Hcontext.
  destruct (parseList_entry _ _ _ _ _ _ Hentry) as (pre & post & Heq & Hrun).
  rewrite Heq, (Run_findContext _ _ _ _ _ _ _ _ _ Hrun) in Hcontext.
  destruct (Run_context _ _ [] _ _ _ stackOf_nil Hrun pre k l post eq_refl)
    as [Hparse _].
  cbn [app] in Hparse. rewrite Hcontext in Hparse.
  apply parseLine_inversion in Hparse.
  destruct Hparse as [ind b t Hind Hb Ht _ Hty ->
                     |ind m sepChar t Hind Hm Hsep Ht _ Hty Hnot _
                     |ind m t Hp Hind Hm Ht _ Hty Hnot _].
  - now apply determine_sibling with settings (String b "").
  - now apply determine_sibling with settings m.
  - now apply determine_sibling with settings m.
Qed.

Lemma siblings_share_type_witness :
  Alphabetical = type (mkLine Alphabetical "" "h" Dot "x")
  \/ (type (mkLine Alphabetical "" "h" Dot "x") = Alphabetical
      /\ Alphabetical = NestedAlphabetical).
Proof.
  exact (proj1 (siblings_share_type DEFAULT_SETTINGS
                  (Parser.mockDoc ["h. x"; "i. y"]) 1 2
                  [(1, mkLine Alphabetical "" "h" Dot "x");
                   (2, mkLine Alphabetical "" "i" Dot "y")]
                  2 (mkLine Alphabetical "" "i" Dot "y")
                  (mkLine Alphabetical "" "h" Dot "x")
                  ltac:(left; reflexivity) ltac:(right; left; reflexivity)
                  eq_refl)).
Defined.

(** ** Where a list may start (parser.ts) *)

Section ListStart.

Variable settings : MoreOrderedListsSettings.
Variable doc : Parser.Text.

(** The line looks like a list item: [parseLine] without a context returns a
    line. *)
Definition looksLikeItem (n : Z) : Prop :=
  Parser.parseLine settings (Parser.lineText doc n) None <> None.

Lemma findPotentialListStartLoop_spec targetLine count : forall currentLine,
  1 <= targetLine ->
  currentLine = Z.of_nat count -> currentLine <= targetLine ->
  (forall n, currentLine < n <= targetLine -> looksLikeItem n) ->
  let start :=
    Parser.findPotentialListStartLoop settings doc count currentLine
                                      targetLine in
  (start = targetLine /\ ~ looksLikeItem targetLine)
  \/ (1 <= start <= targetLine
      /\ (forall n, start <= n <= targetLine -> looksLikeItem n)
      /\ (start = 1 \/ ~ looksLikeItem (start - 1))).
Proof.
  induction count as [|count IH]; intros currentLine Ht Hcount Hle Hitems;
    cbn [Parser.findPotentialListStartLoop].
  - right. split; [lia|]. split; [|now left].
    intros n Hn. apply Hitems. lia.
  - destruct (Parser.parseLine settings (Parser.lineText doc currentLine) None)
      as [l|] eqn:Eparse.
    + apply IH; [lia|lia|lia|]. intros n Hn.
      destruct (Z.eq_dec n currentLine) as [->|Hne];
        [unfold looksLikeItem; congruence|apply Hitems; lia].
    + assert (Hnot : ~ looksLikeItem currentLine)
        by (unfold looksLikeItem; intros H; now apply H).
      destruct (currentLine =? targetLine) eqn:E; zbool.
      * left. split; [reflexivity|]. now rewrite <- E.
      * right. split; [lia|]. split.
        -- intros n Hn. apply Hitems. lia.
        -- right. now replace (currentLine + 1 - 1) with currentLine by lia.
Qed.

End ListStart.

(** X19.  [findPotentialListStart] scans backward from the target line
    while the lines look like list items.  When the target line itself does
    not look like one, it returns the target line.  Otherwise it returns
    the first line of the block of such lines that ends at the target line:
    every line from there to the target line looks like a list item, and the
    line before it, if there is one, does not. *)
Theorem potential_list_start_spec
    (settings : MoreOrderedListsSettings) (doc : Parser.Text)
    (targetLine : Z) (Htarget : 1 <= targetLine) :
  let start := Parser.findPotentialListStart settings doc targetLine in
  1 <= start <= targetLine
  /\ (~ looksLikeItem settings doc targetLine -> start = targetLine)
  /\ (looksLikeItem settings doc targetLine ->
      (forall n, start <= n <= targetLine -> looksLikeItem settings doc n)
      /\ (start = 1 \/ ~ looksLikeItem settings doc (start - 1))).
Proof.
  unfold Parser.findPotentialListStart.
  destruct (findPotentialListStartLoop_spec settings doc targetLine
              (Z.to_nat targetLine) targetLine Htarget ltac:(lia) ltac:(lia)
              ltac:(intros n Hn; lia))
    as [[Hs Hnot]|(Hrange & Hitems & Hbefore)]; cbv zeta.
  - rewrite Hs. split; [lia|]. split; [reflexivity|]. intros H. contradiction.
  - split; [exact Hrange|]. split; [|auto].
    intros Hnot. exfalso. apply Hnot, Hitems. lia.
Qed.

Lemma potential_list_start_spec_witness :
  1 <= Parser.findPotentialListStart DEFAULT_SETTINGS
         (Parser.mockDoc ["a. x"; "text"; "b. y"; "c. z"]) 4 <= 4.
Proof.
  apply (potential_list_start_spec DEFAULT_SETTINGS
           (Parser.mockDoc ["a. x"; "text"; "b. y"; "c. z"]) 4).
  lia.
Defined.

Lemma findLine_In parsedList targetLine :
  Parser.isSome (Parser.findLine parsedList targetLine) = true
  <-> In targetLine (map fst parsedList).
Proof.
  unfold Parser.findLine.
  induction parsedList as [|[k l] rest IH]; cbn [find map In fst].
  - split; [discriminate|tauto].
  - destruct (k =? targetLine) eqn:E; zbool.
    + split; [now left|reflexivity].
    + rewrite IH. split; [now right|]. intros [H|H]; [contradiction|exact H].
Qed.

(** X20.  [findListForLine] returns the list of the target line.  Of the
    lists that [parseLists] finds from the potential start to the end of the
    document it returns the one that contains the target line, and there is
    no other; it returns the empty list exactly when none of them contains
    the target line. *)
Theorem list_for_line_spec
    (settings : MoreOrderedListsSettings) (doc : Parser.Text)
    (targetLine : Z) :
  let lists :=
    Parser.parseLists settings doc
      (Parser.findPotentialListStart settings doc targetLine)
      (Parser.lines doc) in
  let result := Parser.findListForLine settings doc targetLine in
  (result = []
   /\ forall parsedList, In parsedList lists ->
                         ~ In targetLine (map fst parsedList))
  \/ (In result lists
      /\ In targetLine (map fst result)
      /\ forall parsedList,
           In parsedList lists -> In targetLine (map fst parsedList) ->
           parsedList = result).
Proof.
  intros lists result. subst result. unfold Parser.findListForLine.
  fold lists.
  destruct (find _ lists) as [found|] eqn:Efind.
  - right. apply find_some in Efind as [Hin Hfound].
    apply findLine_In in Hfound. split; [exact Hin|]. split; [exact Hfound|].
    intros parsedList Hin' Htarget.
    destruct (In_nth_error _ _ Hin) as [i Hi].
    destruct (In_nth_error _ _ Hin') as [j Hj].
    destruct (parseListsLoop_chain settings doc
                (Parser.findPotentialListStart settings doc targetLine)
                (Parser.lines doc)
                (Parser.findPotentialListStart settings doc targetLine) []
                (Z.le_refl _)) as [high Hchain].
    fold (Parser.parseLists settings doc
            (Parser.findPotentialListStart settings doc targetLine)
            (Parser.lines doc)) in Hchain. fold lists in Hchain.
    destruct (Nat.lt_total i j) as [Hlt|[Heq|Hgt]].
    + exfalso.
      exact (chain_disjoint _ _ _ Hchain i j _ _ targetLine Hlt Hi Hj
               Hfound Htarget).
    + subst j. congruence.
    + exfalso.
      exact (chain_disjoint _ _ _ Hchain j i _ _ targetLine Hgt Hj Hi
               Htarget Hfound).
  - left. split; [reflexivity|]. intros parsedList Hin Htarget.
    apply (find_none _ _ Efind) in Hin. apply findLine_In in Htarget.
    congruence.
Qed.

Lemma list_for_line_spec_witness :
  In 3 (map fst (Parser.findListForLine DEFAULT_SETTINGS
                   (Parser.mockDoc ["a. x"; "text"; "b. y"; "c. z"]) 3)).
Proof.
  destruct (list_for_line_spec DEFAULT_SETTINGS
              (Parser.mockDoc ["a. x"; "text"; "b. y"; "c. z"]) 3)
    as [[Hnone _]|(_ & Hin & _)]; [discriminate Hnone|exact Hin].
Defined.

(** ** Context and parent of a line in a list (key-handler.ts) *)

Lemma findContextLoop_some reversed N lvl c :
  KeyHandler.findContextLoop reversed N lvl = Some c ->
  exists a k b,
    reversed = (a ++ (k, c) :: b)%list /\ k < N /\ KeyHandler.level c = lvl
    /\ forall e, In e a -> fst e < N -> (lvl < KeyHandler.level (snd e))%nat.
Proof.
  induction reversed as [|[n l] rest IH];
    cbn [KeyHandler.findContextLoop]; [discriminate|].
  destruct (N <=? n) eqn:En; zbool.
  - intros H. destruct (IH H) as (a & k & b & -> & Hk & Hl & Ha).
    exists ((n, l) :: a), k, b. repeat split; auto.
    intros e [<-|He]; [cbn [fst]; lia|now apply Ha].
  - destruct (KeyHandler.level l =? lvl)%nat eqn:El.
    + intros [= <-]. apply Nat.eqb_eq in El.
      exists [], n, rest. repeat split; auto; intros e [].
    + destruct (KeyHandler.level l <? lvl)%nat eqn:Elt; [discriminate|].
      apply Nat.eqb_neq in El. apply Nat.ltb_ge in Elt.
      intros H. destruct (IH H) as (a & k & b & -> & Hk & Hl & Ha).
      exists ((n, l) :: a), k, b. repeat split; auto.
      intros e [<-|He]; [cbn [snd]; lia|now apply Ha].
Qed.

Lemma findContextLoop_none reversed N lvl :
  KeyHandler.findContextLoop reversed N lvl = None ->
  forall a k c b,
    reversed = (a ++ (k, c) :: b)%list -> k < N -> KeyHandler.level c = lvl ->
    exists e, In e a /\ fst e < N /\ (KeyHandler.level (snd e) < lvl)%nat.
Proof.
  induction reversed as [|[n l] rest IH];
    cbn [KeyHandler.findContextLoop]; intros Hnone a k c b Heq Hk Hl.
  - destruct a; discriminate.
  - destruct a as [|e a]; cbn [app] in Heq.
    + injection Heq as -> -> ->.
      destruct (N <=? k) eqn:En; zbool; [lia|].
      rewrite Hl, Nat.eqb_refl in Hnone. discriminate.
    + injection Heq as <- ->.
      destruct (N <=? n) eqn:En; zbool.
      * destruct (IH Hnone a k c b eq_refl Hk Hl) as (e & He & H).
        exists e. split; [now right|exact H].
      * destruct (KeyHandler.level l =? lvl)%nat eqn:El; [discriminate|].
        destruct (KeyHandler.level l <? lvl)%nat eqn:Elt.
        -- apply Nat.ltb_lt in Elt. exists (n, l).
           split; [now left|]. cbn [fst snd]. split; [lia|exact Elt].
        -- destruct (IH Hnone a k c b eq_refl Hk Hl) as (e & He & H).
           exists e. split; [now right|exact H].
Qed.

Lemma findParentLoop_some reversed N lvl p :
  KeyHandler.findParentLoop reversed N lvl = Some p ->
  exists a k b,
    reversed = (a ++ (k, p) :: b)%list /\ k < N /\ KeyHandler.level p = lvl
    /\ forall e, In e a -> fst e < N -> KeyHandler.level (snd e) <> lvl.
Proof.
  induction reversed as [|[n l] rest IH];
    cbn [KeyHandler.findParentLoop]; [discriminate|].
  destruct (N <=? n) eqn:En; zbool.
  - intros H. destruct (IH H) as (a & k & b & -> & Hk & Hl & Ha).
    exists ((n, l) :: a), k, b. repeat split; auto.
    intros e [<-|He]; [cbn [fst]; lia|now apply Ha].
  - destruct (KeyHandler.level l =? lvl)%nat eqn:El.
    + intros [= <-]. apply Nat.eqb_eq in El.
      exists [], n, rest. repeat split; auto; intros e [].
    + apply Nat.eqb_neq in El.
      intros H. destruct (IH H) as (a & k & b & -> & Hk & Hl & Ha).
      exists ((n, l) :: a), k, b. repeat split; auto.
      intros e [<-|He]; [intros _; exact El|now apply Ha].
Qed.

Lemma findParentLoop_none reversed N lvl :
  KeyHandler.findParentLoop reversed N lvl = None ->
  forall e, In e reversed -> fst e < N -> KeyHandler.level (snd e) <> lvl.
Proof.
  induction reversed as [|[n l] rest IH];
    cbn [KeyHandler.findParentLoop]; intros Hnone e He Hlt; [destruct He|].
  destruct (N <=? n) eqn:En; zbool.
  - destruct He as [<-|He]; [cbn [fst] in Hlt; lia|now apply IH].
  - destruct (KeyHandler.level l =? lvl)%nat eqn:El; [discriminate|].
    apply Nat.eqb_neq in El.
    destruct He as [<-|He]; [exact El|now apply IH].
Qed.

Lemma rev_split {A} (l : list A) a x b :
  List.rev l = (a ++ x :: b)%list -> l = (List.rev b ++ x :: List.rev a)%list.
Proof.
  intros H. apply (f_equal (@List.rev A)) in H.
  rewrite List.rev_involutive in H. rewrite H, rev_app_distr. cbn [List.rev].
  now rewrite <- app_assoc.
Qed.

(** X21.  What [findContextInList] and [findParentInList] find, in any
    list.  The context of a target line at a level is the last entry before
    the target line that is at that level or above it, provided it is at
    that level: every entry between it and the target line is nested
    deeper; there is no context when no entry before the target line is at
    the level, or when a later one is at a level above.  The parent is the
    last entry before the target line that is one level up, whatever comes
    between; a line at level 0 has none. *)
Theorem context_and_parent_spec
    (parsedList : list (Z * ParsedListLine)) (targetLineNumber : Z)
    (level : nat) :
  (forall c,
     KeyHandler.findContextInList parsedList targetLineNumber level = Some c ->
     exists pre k post,
       parsedList = (pre ++ (k, c) :: post)%list
       /\ k < targetLineNumber /\ KeyHandler.level c = level
       /\ forall e, In e post -> fst e < targetLineNumber ->
                    (level < KeyHandler.level (snd e))%nat)
  /\ (KeyHandler.findContextInList parsedList targetLineNumber level = None ->
      forall pre k c post,
        parsedList = (pre ++ (k, c) :: post)%list ->
        k < targetLineNumber -> KeyHandler.level c = level ->
        exists e,
          In e post /\ fst e < targetLineNumber
          /\ (KeyHandler.level (snd e) < level)%nat)
  /\ (forall p,
        KeyHandler.findParentInList parsedList targetLineNumber level = Some p ->
        exists pre k post,
          parsedList = (pre ++ (k, p) :: post)%list
          /\ k < targetLineNumber
          /\ (KeyHandler.level p + 1 = level)%nat
          /\ forall e, In e post -> fst e < targetLineNumber ->
                       (KeyHandler.level (snd e) + 1 <> level)%nat)
  /\ (KeyHandler.findParentInList parsedList targetLineNumber level = None ->
      forall e, In e parsedList -> fst e < targetLineNumber ->
                (KeyHandler.level (snd e) + 1 <> level)%nat).
Proof.
  unfold KeyHandler.findContextInList, KeyHandler.findParentInList.
  split; [|split; [|split]].
  - intros c H. apply findContextLoop_some in H
      as (a & k & b & Heq & Hk & Hl & Ha).
    apply rev_split in Heq. exists (List.rev b), k, (List.rev a).
    repeat split; auto. intros e He. apply Ha. now apply in_rev in He.
  - intros H pre k c post Heq Hk Hl.
    assert (Hrev : List.rev parsedList
                   = (List.rev post ++ (k, c) :: List.rev pre)%list).
    { rewrite Heq, rev_app_distr. cbn [List.rev]. now rewrite <- app_assoc. }
    destruct (findContextLoop_none _ _ _ H _ _ _ _ Hrev Hk Hl)
      as (e & He & Hlt & Hlvl).
    exists e. split; [now apply in_rev|auto].
  - intros p H. destruct level as [|parent]; [discriminate|].
    apply findParentLoop_some in H as (a & k & b & Heq & Hk & Hl & Ha).
    apply rev_split in Heq. exists (List.rev b), k, (List.rev a).
    repeat split; auto; [lia|].
    intros e He Hlt. apply in_rev in He. specialize (Ha e He Hlt). lia.
  - intros H e He Hlt. destruct level as [|parent]; [lia|].
    pose proof (findParentLoop_none _ _ _ H e) as Hn.
    rewrite <- in_rev in Hn. specialize (Hn He Hlt). lia.
Qed.

Lemma context_and_parent_spec_witness :
  exists pre k post,
    [(1, mkLine Alphabetical "" "a" Dot "x");
     (2, mkLine Roman (String tab "") "i" Dot "y");
     (3, mkLine Alphabetical "" "b" Dot "z")]
    = (pre ++ (k, mkLine Alphabetical "" "a" Dot "x") :: post)%list
    /\ k < 3 /\ KeyHandler.level (mkLine Alphabetical "" "a" Dot "x") = 0%nat
    /\ forall e, In e post -> fst e < 3 ->
                 (0 < KeyHandler.level (snd e))%nat.
Proof.
  apply (proj1 (context_and_parent_spec
                  [(1, mkLine Alphabetical "" "a" Dot "x");
                   (2, mkLine Roman (String tab "") "i" Dot "y");
                   (3, mkLine Alphabetical "" "b" Dot "z")] 3 0)).
  reflexivity.
Defined.

(** ** The forward walk and the Tab key (key-handler.ts) *)

Section KeyHandlerWalk.

Import CodeMirror.

Variable settings : MoreOrderedListsSettings.
Variable correctNextMarker :
  ParsedListLine -> ParsedListLine -> MoreOrderedListsSettings ->
  ParsedListLine * option Error.








(** The lookups in a list whose entries are all at or after the target. *)
Lemma findContext_first parsedList targetLineNumber lvl :
  (forall e, In e parsedList -> targetLineNumber <= fst e) ->
  KeyHandler.findContextInList parsedList targetLineNumber lvl = None.
Proof.
  intros Hfirst. unfold KeyHandler.findContextInList.
  rewrite <- (app_nil_r (List.rev parsedList)).
  rewrite findContextLoop_skip; [reflexivity|].
  intros e He. apply Hfirst. now apply in_rev.
Qed.

Lemma findParent_first parsedList targetLineNumber lvl :
  (forall e, In e parsedList -> targetLineNumber <= fst e) ->
  KeyHandler.findParentInList parsedList targetLineNumber lvl = None.
Proof.
  intros Hfirst. unfold KeyHandler.findParentInList.
  destruct lvl as [|parent]; [reflexivity|].
  rewrite <- (app_nil_r (List.rev parsedList)).
  rewrite findParentLoop_skip; [reflexivity|].
  intros e He. apply Hfirst. now apply in_rev.
Qed.

(** X23.  The first line of a list cannot be indented or outdented.  When no
    entry of the parsed list comes before the line under the cursor, Tab
    and Shift-Tab find neither a context nor a parent for the new level of
    the line: the handler answers false and dispatches no change. *)
Theorem first_line_keeps_its_level
    (view : EditorView) (currentLine : Line)
    (parsedList : list (Z * ParsedListLine)) (current : ParsedListLine)
    (shift : bool)
    (Hfound : KeyHandler.currentParsedLine settings view
              = Ok (Some (currentLine, parsedList, current)))
    (Hfirst : forall e, In e parsedList -> number currentLine <= fst e) :
  KeyHandler.tabKey settings correctNextMarker view shift = Ok (false, []).
Proof.
  unfold KeyHandler.tabKey. rewrite Hfound. cbn [bind].
  assert (Hupdate : forall line,
            KeyHandler.updateMarkerFromContext settings correctNextMarker
              parsedList (number currentLine) line
            = Throw NoContextOrParent).
  { intros line. unfold KeyHandler.updateMarkerFromContext.
    now rewrite findContext_first, findParent_first by assumption. }
  destruct shift.
  - destruct (decreaseIndentationLevel current) as [line|e]; cbn [bind];
      [|reflexivity].
    now rewrite Hupdate.
  - now rewrite Hupdate.
Qed.

Lemma store_numbers parsedList : forall lineNumber parsedLine,
  map fst (KeyHandler.store parsedList lineNumber parsedLine)
  = map fst parsedList.
Proof.
  induction parsedList as [|[n l] rest IH]; intros lineNumber parsedLine;
    [reflexivity|].
  cbn [KeyHandler.store]. destruct (n =? lineNumber) eqn:E; cbn [map fst].
  - reflexivity.
  - now rewrite IH.
Qed.

Lemma fixFollowing_numbers parsedList modifiedLineNumber parentLine :
  map fst (KeyHandler.fixFollowingLineAfterIndentDecrease settings parsedList
             modifiedLineNumber parentLine)
  = map fst parsedList.
Proof.
  unfold KeyHandler.fixFollowingLineAfterIndentDecrease.
  destruct (Parser.findLine parsedList (modifiedLineNumber + 1))
    as [[n nextLine]|]; [|reflexivity].
  destruct (_ =? _)%nat; [apply store_numbers|reflexivity].
Qed.

Lemma numbers_preserved (l1 l2 : list (Z * ParsedListLine)) :
  map fst l1 = map fst l2 ->
  (forall e, In e l2 -> 1 <= fst e) -> forall e, In e l1 -> 1 <= fst e.
Proof.
  intros Heq H e He. apply (in_map fst) in He. rewrite Heq in He.
  apply in_map_iff in He as (e' & <- & He'). now apply H.
Qed.

(** What a handler dispatches when it updates the line under the cursor. *)
Lemma update_dispatches view currentLine line parsedList :
  (forall e, In e parsedList -> 1 <= fst e) ->
  exists more,
    bind (KeyHandler.updateLineAndReorder settings correctNextMarker view
            currentLine line parsedList) KeyHandler.handled
    = Ok (true,
          Change (from currentLine) (to currentLine) (getLineText line)
          :: more).
Proof.
  intros Hnumbers. unfold KeyHandler.updateLineAndReorder.
  destruct (collectReorderChanges_keeps settings correctNextMarker view
              [Change (from currentLine) (to currentLine) (getLineText line)]
              parsedList (number currentLine) line Hnumbers) as [more ->].
  exists more. reflexivity.
Qed.

(** X24.  What Tab and Shift-Tab do on a line of a list.  The line gets one
    more tab, or loses one level of indentation.  When the list has a
    sibling for it at its new level, its marker is what [correctNextMarker]
    makes of it after that sibling, and the key is not handled when that
    throws.  When it has no sibling there but a parent, the line takes the
    separator of the parent and the first marker of its type.  In both
    cases the first change dispatched replaces the line under the cursor by
    the new text of the line, and what the forward walk adds follows it.
    With neither a sibling nor a parent the key is not handled. *)
Theorem tab_key_outcomes
    (view : EditorView) (currentLine : Line)
    (parsedList : list (Z * ParsedListLine)) (current moved : ParsedListLine)
    (shift : bool)
    (Hfound : KeyHandler.currentParsedLine settings view
              = Ok (Some (currentLine, parsedList, current)))
    (Hnumbers : forall e, In e parsedList -> 1 <= fst e)
    (Hmoved : (if shift then decreaseIndentationLevel current
               else Ok (increaseIndentationLevel current)) = Ok moved) :
  let context :=
    KeyHandler.findContextInList parsedList (number currentLine)
                                 (KeyHandler.level moved) in
  let parent :=
    KeyHandler.findParentInList parsedList (number currentLine)
                                (KeyHandler.level moved) in
  let replaces (line : ParsedListLine) :=
    exists more,
      KeyHandler.tabKey settings correctNextMarker view shift
      = Ok (true,
            Change (from currentLine) (to currentLine) (getLineText line)
            :: more) in
  (forall sibling e,
     context = Some sibling ->
     snd (correctNextMarker moved sibling settings) = Some e ->
     KeyHandler.tabKey settings correctNextMarker view shift = Ok (false, []))
  /\ (forall sibling,
        context = Some sibling ->
        snd (correctNextMarker moved sibling settings) = None ->
        replaces (fst (correctNextMarker moved sibling settings)))
  /\ (forall parentLine,
        context = None -> parent = Some parentLine ->
        replaces (asFirstMarker
                    (setSeparator moved (separator parentLine))
                    (enableJuraOrdering settings)))
  /\ (context = None -> parent = None ->
      KeyHandler.tabKey settings correctNextMarker view shift
      = Ok (false, [])).
Proof.
  intros context parent replaces. subst replaces.
  unfold KeyHandler.tabKey. rewrite Hfound. cbn [bind].
  assert (Hfixed : forall line e,
            In e (KeyHandler.fixFollowingLineAfterIndentDecrease settings
                    parsedList (number currentLine) line) -> 1 <= fst e).
  { intros line. apply numbers_preserved with parsedList;
      [apply fixFollowing_numbers|exact Hnumbers]. }
  destruct shift.
  - rewrite Hmoved. cbn [bind].
    unfold KeyHandler.updateMarkerFromContext. fold context parent.
    split; [|split; [|split]].
    + intros sibling e -> He.
      destruct (correctNextMarker moved sibling settings) as [line err].
      cbn [snd] in He. subst err. reflexivity.
    + intros sibling -> Hok.
      destruct (correctNextMarker moved sibling settings) as [line err].
      cbn [snd fst] in *. subst err. cbn [bind].
      apply update_dispatches, Hfixed.
    + intros parentLine -> ->. cbn [bind].
      apply update_dispatches, Hfixed.
    + intros -> ->. reflexivity.
  - injection Hmoved as <-.
    unfold KeyHandler.updateMarkerFromContext. fold context parent.
    split; [|split; [|split]].
    + intros sibling e -> He.
      destruct (correctNextMarker _ sibling settings) as [line err].
      cbn [snd] in He. subst err. reflexivity.
    + intros sibling -> Hok.
      destruct (correctNextMarker _ sibling settings) as [line err].
      cbn [snd fst] in *. subst err. cbn [bind].
      now apply update_dispatches.
    + intros parentLine -> ->. cbn [bind]. now apply update_dispatches.
    + intros -> ->. reflexivity.
Qed.

(** X25.  What Enter does on a line of a list, at or after the end of the
    marker prefix.  On an item with text it leaves the line as it is and
    inserts, at the cursor, a line break and the next item: the line made
    by [correctNextMarker] from a copy of the current one, without content;
    when [correctNextMarker] throws the key is not handled.  On an item
    without text it outdents the line the way Shift-Tab does and empties its
    content.  With the cursor inside the marker prefix the key is not
    handled. *)
Theorem enter_key_outcomes
    (view : EditorView) (currentLine : Line)
    (parsedList : list (Z * ParsedListLine)) (current : ParsedListLine)
    (Hfound : KeyHandler.currentParsedLine settings view
              = Ok (Some (currentLine, parsedList, current)))
    (Hnumbers : forall e, In e parsedList -> 1 <= fst e)
    (Hz : type current = Alphabetical ->
          exists value,
            getValue current (isRepeated (nestedAlphabeticalMode settings))
            = Ok value
            /\ match value with Some v => v =? 26 | None => false end
               && isDisabled (nestedAlphabeticalMode settings) = false) :
  let prefixLength :=
    Z.of_nat (String.length (getLineText current))
    - Z.of_nat (String.length (content current)) in
  let cursor := head (selection view) in
  let enter := KeyHandler.enterKey settings correctNextMarker view in
  (cursor < from currentLine + prefixLength -> enter = Ok (false, []))
  /\ (from currentLine + prefixLength <= cursor ->
      KeyHandler.hasText (content current) = true ->
      (forall e,
         snd (correctNextMarker current current settings) = Some e ->
         enter = Ok (false, []))
      /\ (snd (correctNextMarker current current settings) = None ->
          exists more,
            enter
            = Ok (true,
                  Change cursor cursor
                    (String "010"
                       (getLineText
                          (setContent
                             (fst (correctNextMarker current current settings))
                             "")))
                  :: more)))
  /\ (from currentLine + prefixLength <= cursor ->
      KeyHandler.hasText (content current) = false ->
      forall outdented updated,
        decreaseIndentationLevel current = Ok outdented ->
        KeyHandler.updateMarkerFromContext settings correctNextMarker
          parsedList (number currentLine) outdented = Ok updated ->
        exists more,
          enter
          = Ok (true,
                Change (from currentLine) (to currentLine)
                  (getLineText (setContent updated ""))
                :: more)).
Proof.
  intros prefixLength cursor enter. subst enter.
  unfold KeyHandler.enterKey. rewrite Hfound. cbn [bind].
  assert (Hafter :
            (if ListType_eqb (type current) Alphabetical
             then bind (getValue current
                          (isRepeated (nestedAlphabeticalMode settings)))
                       (fun value =>
                          Ok (match value with
                              | Some v => v =? 26
                              | None => false
                              end
                              && isDisabled
                                   (nestedAlphabeticalMode settings)))
             else Ok false) = Ok false).
  { destruct (type current) eqn:Et; cbn [ListType_eqb]; try reflexivity.
    destruct (Hz eq_refl) as (value & -> & Hv). cbn [bind].
    now rewrite Hv. }
  rewrite Hafter. cbn [bind]. fold cursor prefixLength.
  split; [|split].
  - intros Hcursor. destruct (cursor <? _) eqn:E; zbool; [reflexivity|lia].
  - intros Hcursor Htext.
    destruct (cursor <? _) eqn:E; zbool; [lia|]. rewrite Htext. split.
    + intros e He.
      destruct (correctNextMarker current current settings) as [line err].
      cbn [snd] in He. subst err. reflexivity.
    + intros Hok.
      destruct (correctNextMarker current current settings) as [line err].
      cbn [snd fst] in *. subst err.
      unfold KeyHandler.insertLineAndReorder. fold cursor.
      destruct (collectReorderChanges_keeps settings correctNextMarker view
                  [Change cursor cursor
                          (String "010" (getLineText (setContent line "")))]
                  parsedList (number currentLine) (setContent line "")
                  Hnumbers) as [more ->].
      exists more. reflexivity.
  - intros Hcursor Htext outdented updated Hdec Hupd.
    destruct (cursor <? _) eqn:E; zbool; [lia|].
    rewrite Htext, Hdec. cbn [bind]. rewrite Hupd. cbn [bind].
    apply update_dispatches.
    apply numbers_preserved with parsedList;
      [apply fixFollowing_numbers|exact Hnumbers].
Qed.

End KeyHandlerWalk.


Lemma first_line_keeps_its_level_witness :
  KeyHandler.tabKey DEFAULT_SETTINGS SpecModel.correctNextMarker
    (CodeMirror.mkView ["a. x"; "c. y"] (CodeMirror.mkSelection true 1 2))
    false
  = Ok (false, []).
Proof.
  apply (first_line_keeps_its_level DEFAULT_SETTINGS
           SpecModel.correctNextMarker
           (CodeMirror.mkView ["a. x"; "c. y"]
              (CodeMirror.mkSelection true 1 2))
           (CodeMirror.mkCMLine 1 0 4 "a. x")
           [(1, mkLine Alphabetical "" "a" Dot "x");
            (2, mkLine Alphabetical "" "c" Dot "y")]
           (mkLine Alphabetical "" "a" Dot "x") false eq_refl).
  intros e [<-|[<-|[]]]; simpl; lia.
Defined.

Lemma tab_key_outcomes_witness :
  exists more,
    KeyHandler.tabKey DEFAULT_SETTINGS SpecModel.correctNextMarker
      (CodeMirror.mkView ["a. x"; "c. y"] (CodeMirror.mkSelection true 1 9))
      false
    = Ok (true,
          CodeMirror.Change 5 9
            (getLineText (mkLine Alphabetical (String tab "") "a" Dot "y"))
          :: more).
Proof.
  assert (Hnumbers : forall e : Z * ParsedListLine,
            In e [(1, mkLine Alphabetical "" "a" Dot "x");
                  (2, mkLine Alphabetical "" "c" Dot "y")] -> 1 <= fst e)
    by (intros e [<-|[<-|[]]]; simpl; lia).
  destruct (tab_key_outcomes DEFAULT_SETTINGS SpecModel.correctNextMarker
              (CodeMirror.mkView ["a. x"; "c. y"]
                 (CodeMirror.mkSelection true 1 9))
              (CodeMirror.mkCMLine 2 5 9 "c. y")
              [(1, mkLine Alphabetical "" "a" Dot "x");
               (2, mkLine Alphabetical "" "c" Dot "y")]
              (mkLine Alphabetical "" "c" Dot "y")
              (mkLine Alphabetical (String tab "") "c" Dot "y")
              false eq_refl Hnumbers eq_refl)
    as (_ & _ & Hparent & _).
  exact (Hparent (mkLine Alphabetical "" "a" Dot "x") eq_refl eq_refl).
Defined.

Lemma enter_key_outcomes_witness :
  exists more,
    KeyHandler.enterKey DEFAULT_SETTINGS SpecModel.correctNextMarker
      (CodeMirror.mkView ["a. x"; "c. y"] (CodeMirror.mkSelection true 1 4))
    = Ok (true, CodeMirror.Change 4 4 (String "010" "b.") :: more).
Proof.
  assert (Hnumbers : forall e : Z * ParsedListLine,
            In e [(1, mkLine Alphabetical "" "a" Dot "x");
                  (2, mkLine Alphabetical "" "c" Dot "y")] -> 1 <= fst e)
    by (intros e [<-|[<-|[]]]; simpl; lia).
  assert (Hz : type (mkLine Alphabetical "" "a" Dot "x") = Alphabetical ->
               exists value,
                 getValue (mkLine Alphabetical "" "a" Dot "x")
                   (isRepeated (nestedAlphabeticalMode DEFAULT_SETTINGS))
                 = Ok value
                 /\ match value with Some v => v =? 26 | None => false end
                    && isDisabled (nestedAlphabeticalMode DEFAULT_SETTINGS)
                    = false)
    by (intros _; exists (Some 1); split; reflexivity).
  destruct (enter_key_outcomes DEFAULT_SETTINGS SpecModel.correctNextMarker
              (CodeMirror.mkView ["a. x"; "c. y"]
                 (CodeMirror.mkSelection true 1 4))
              (CodeMirror.mkCMLine 1 0 4 "a. x")
              [(1, mkLine Alphabetical "" "a" Dot "x");
               (2, mkLine Alphabetical "" "c" Dot "y")]
              (mkLine Alphabetical "" "a" Dot "x")
              eq_refl Hnumbers Hz)
    as (_ & Htext & _).
  assert (Hcursor : 0 + (3 - 1) <= 4) by lia.
  destruct (Htext Hcursor eq_refl) as (_ & Hinsert).
  exact (Hinsert eq_refl).
Defined.

(** ** The parser that corrects markers (part_001) *)

Lemma toUpperChar_lower c :
  isLower c = true -> toLowerChar (toUpperChar c) = c.
Proof.
  intros Hc. unfold toUpperChar. rewrite Hc. cbn [orb].
  pose proof (charCode_fromCharCode (charCode c - 32)) as Hcode.
  unfold toLowerChar, isLower, isUpper, inRange in *.
  apply andb_prop in Hc as [H1 H2]. zbool.
  rewrite Hcode by lia.
  replace ((65 <=? charCode c - 32) && (charCode c - 32 <=? 90)) with true
    by (symmetry; apply andb_true_iff; split; apply Z.leb_le; lia).
  cbn [orb]. replace (charCode c - 32 + 32) with (charCode c) by lia.
  apply fromCharCode_charCode.
Qed.

Lemma toLowerCase_toUpperCase m :
  forallb isLower m = true -> toLowerCase (toUpperCase m) = m.
Proof.
  induction m as [|c m IH]; simpl; [reflexivity|].
  intros [Hc Hm]%andb_prop. now rewrite toUpperChar_lower, IH.
Qed.

(** The case style of the context does not change what a marker denotes. *)
Lemma applyCaseStyle_lower context m :
  forallb isLower m = true -> toLowerCase (applyCaseStyle context m) = m.
Proof.
  intros Hm. unfold applyCaseStyle.
  destruct (String.eqb _ _); [now apply toLowerCase_toUpperCase|].
  destruct (String.eqb _ _); [|now apply toLowerCase_lower].
  rewrite toLowerCase_idempotent. now apply toLowerCase_lower.
Qed.

Lemma forallb_repeat p c n : p c = true -> forallb p (repeat c n) = true.
Proof.
  intros Hc. induction n as [|n IH]; [reflexivity|]. simpl. now rewrite Hc, IH.
Qed.

Lemma roman_marker v :
  1 <= v ->
  exists m,
    generateRomanMarker v = Ok m
    /\ forallb isLower m = true
    /\ calculateRomanValue m = Ok v.
Proof.
  intros Hv. destruct (roman_roundtrip v Hv) as (m & Hgen & _ & Hdec).
  exists m. split; [exact Hgen|]. split; [|exact Hdec].
  rewrite generateRomanMarker_split in Hgen by exact Hv.
  injection Hgen as <-.
  pose proof (Z.mod_pos_bound v 1000 ltac:(lia)) as Hmod.
  destruct (romanBelow1000_decodes (v mod 1000) Hmod) as [Hlow _].
  rewrite forallb_app, Hlow, andb_true_r.
  now apply forallb_repeat.
Qed.

Lemma standard_marker v :
  1 <= v <= MAX_SAFE_INTEGER ->
  exists m,
    generateStandardAlphabeticalMarker v = Ok m
    /\ forallb isLower m = true
    /\ calculateBijectiveBase26Value m = Ok v.
Proof.
  unfold MAX_SAFE_INTEGER. intros Hv.
  unfold generateStandardAlphabeticalMarker.
  destruct (v <? 1) eqn:E; zbool; [lia|].
  eexists; split; [reflexivity|].
  destruct (standardLoop_spec v ltac:(lia) "" eq_refl) as [Hlow Hsum].
  cbn [String.length letterSum] in Hsum.
  change (26 ^ Z.of_nat 0) with 1 in Hsum.
  split; [exact Hlow|].
  unfold calculateBijectiveBase26Value.
  rewrite (toLowerCase_lower _ Hlow), (bijectiveLoop_letters _ _ Hlow) by lia.
  rewrite Hsum. cbn [bind]. replace (0 + (v * 1 + 0)) with v by lia.
  destruct (v =? 0) eqn:E0; zbool; [lia|reflexivity].
Qed.

Lemma bijective_letter d :
  isLower d = true ->
  calculateBijectiveBase26Value (String d "") = Ok (charCode d - 96).
Proof.
  intros Hd. pose proof (proj1 (isLower_code d) Hd) as Hcode.
  unfold calculateBijectiveBase26Value. cbn [toLowerCase].
  rewrite (toLowerChar_lower d Hd).
  rewrite (bijectiveLoop_letters (String d "") 0);
    cbn [forallb letterSum String.length];
    change (26 ^ Z.of_nat 0) with 1; try lia;
    [|now rewrite Hd].
  cbn [bind].
  replace (0 + ((charCode d - 96) * 1 + 0)) with (charCode d - 96) by lia.
  destruct (_ =? 0) eqn:E0; zbool; [lia|reflexivity].
Qed.

Section Correcting.

Variable settings : MoreOrderedListsSettings.

(** Decoding does not see the case of the marker. *)
Lemma getValue_marker listType ind m m' sep txt mode :
  listType <> Numbered ->
  toLowerCase m = toLowerCase m' ->
  getValue (mkLine listType ind m sep txt) mode
  = getValue (mkLine listType ind m' sep txt) mode.
Proof.
  intros Hnum Hlow.
  unfold getValue, calculateAlphabeticalValue, calculateRomanValue,
    calculateRepeatedLettersValue, calculateBijectiveBase26Value.
  cbn [type marker]. rewrite Hlow. destruct listType; congruence.
Qed.

Lemma successor_value listType context generated ind sep txt mode v :
  listType <> Numbered ->
  forallb isLower generated = true ->
  getValue (mkLine listType ind generated sep txt) mode = Ok (Some v) ->
  getValue (mkLine listType ind (applyCaseStyle context generated) sep txt)
           mode
  = Ok (Some v).
Proof.
  intros Hnum Hlow <-. apply getValue_marker; [exact Hnum|].
  rewrite applyCaseStyle_lower by exact Hlow.
  symmetry. now apply toLowerCase_lower.
Qed.

Lemma correctMarker_successor
    (listType : ListType) (context : ParsedListLine) (v : Z)
    (ind txt : string) (sep : ListSeparator)
    (Hvalue : getValue context (isRepeated (nestedAlphabeticalMode settings))
              = Ok (Some v))
    (Hv : 0 <= v)
    (Hlettered : listType = Roman \/ listType = Alphabetical
                 \/ listType = NestedAlphabetical)
    (Hrange : isRepeated (nestedAlphabeticalMode settings) = true ->
              listType <> Roman ->
              v < 260 /\ (listType = Alphabetical -> v < 27))
    (Hexact : v < match listType with
                  | Roman => 1000000000
                  | _ => MAX_SAFE_INTEGER
                  end) :
  exists generated,
    CorrectingParser.correctMarker settings listType context
    = Ok (applyCaseStyle context generated)
    /\ forallb isLower generated = true
    /\ getValue (mkLine listType ind (applyCaseStyle context generated)
                        sep txt)
                (isRepeated (nestedAlphabeticalMode settings))
       = Ok (Some (v + 1)).
Proof.
  unfold CorrectingParser.correctMarker. rewrite Hvalue.
  cbn [bind option_map].
  assert (Hsafe : v < MAX_SAFE_INTEGER)
    by (unfold MAX_SAFE_INTEGER in *; destruct listType; lia).
  rewrite fl_small by (unfold MAX_SAFE_INTEGER in Hsafe; lia).
  set (mode := isRepeated (nestedAlphabeticalMode settings)) in *.
  assert (Hroman : listType = Roman ->
            exists generated,
              bind (generateRomanMarker (v + 1))
                   (fun g => Ok (applyCaseStyle context g))
              = Ok (applyCaseStyle context generated)
              /\ forallb isLower generated = true
              /\ getValue (mkLine listType ind
                             (applyCaseStyle context generated) sep txt) mode
                 = Ok (Some (v + 1))).
  { intros ->. destruct (roman_marker (v + 1) ltac:(lia))
      as (m & -> & Hlow & Hdec).
    exists m. split; [reflexivity|]. split; [exact Hlow|].
    apply successor_value; [discriminate|exact Hlow|].
    unfold getValue. cbn [type marker]. now rewrite Hdec. }
  assert (Halpha : listType = Alphabetical \/ listType = NestedAlphabetical ->
            exists generated,
              bind (generateAlphabeticalMarker settings (v + 1))
                   (fun g => Ok (applyCaseStyle context g))
              = Ok (applyCaseStyle context generated)
              /\ forallb isLower generated = true
              /\ getValue (mkLine listType ind
                             (applyCaseStyle context generated) sep txt) mode
                 = Ok (Some (v + 1))).
  { intros Ht. unfold generateAlphabeticalMarker.
    destruct (v + 1 <? 1) eqn:E1; zbool; [lia|]. fold mode.
    destruct mode eqn:Emode.
    - (* repeated letters *)
      destruct (Hrange eq_refl ltac:(destruct Ht; congruence)) as [H260 H27].
      rewrite repeatedMarker_run by lia. cbn [bind].
      pose proof (Z.div_mod (v + 1 - 1) 26 ltac:(lia)) as Hdiv.
      pose proof (Z.mod_pos_bound (v + 1 - 1) 26 ltac:(lia)) as Hmod.
      assert (Hq : 0 <= (v + 1 - 1) / 26 < 10).
      { split; [apply Z.div_pos; lia|apply Z.div_lt_upper_bound; lia]. }
      set (d := fromCharCode (96 + ((v + 1 - 1) mod 26 + 1))) in *.
      remember (Z.to_nat ((v + 1 - 1) / 26 + 1)) as run eqn:Erun.
      assert (Hcode : charCode d = 96 + ((v + 1 - 1) mod 26 + 1))
        by (apply charCode_fromCharCode; lia).
      assert (Hd : isLower d = true) by (apply isLower_code; lia).
      assert (Hlow : forallb isLower (repeat d run) = true)
        by now apply forallb_repeat.
      exists (repeat d run). split; [reflexivity|]. split; [exact Hlow|].
      apply successor_value;
        [destruct Ht; congruence|exact Hlow|].
      unfold getValue, calculateAlphabeticalValue. cbn [type marker].
      rewrite toLowerCase_repeat, (toLowerChar_lower d Hd), repeat_length.
      assert (Hrepeated :
        calculateRepeatedLettersValue (repeat d run) = Ok (v + 1)).
      { rewrite repeatedValue_run; [|now rewrite Hd|lia].
        rewrite (toLowerChar_lower d Hd), Hcode. f_equal. lia. }
      assert (Hsingle : run = 1%nat ->
        calculateBijectiveBase26Value (repeat d run) = Ok (v + 1)).
      { intros H1. rewrite H1. cbn [repeat].
        rewrite (bijective_letter d Hd), Hcode. f_equal. lia. }
      destruct Ht as [-> | ->]; cbn [ListType_eqb andb bind].
      + (* still Alphabetical: one letter, or "aa" *)
        specialize (H27 eq_refl).
        destruct (Z.eq_dec v 26) as [Hv26|Hne].
        * subst v. subst run d. vm_compute. reflexivity.
        * assert (Hq0 : (v + 1 - 1) / 26 = 0) by (apply Z.div_small; lia).
          rewrite Hsingle; [reflexivity|lia].
      + destruct (1 <? run)%nat eqn:Elen.
        * now rewrite Hrepeated.
        * apply Nat.ltb_ge in Elen. rewrite Hsingle; [reflexivity|lia].
    - (* bijective *)
      destruct (standard_marker (v + 1) ltac:(lia)) as (m & -> & Hlow & Hdec).
      cbn [bind]. exists m. split; [reflexivity|]. split; [exact Hlow|].
      apply successor_value;
        [destruct Ht; congruence|exact Hlow|].
      unfold getValue, calculateAlphabeticalValue. cbn [type marker andb].
      destruct Ht as [-> | ->]; cbn [bind]; now rewrite Hdec. }
  destruct Hlettered as [->|Ht]; [now apply Hroman|].
  destruct (Halpha Ht) as (g & Hg & H). exists g.
  destruct Ht as [-> | ->]; now split.
Qed.

(** X26.  [correctMarker] yields the successor.  For a context whose value
    is [v] and a line of a lettered type, Roman, Alphabetical or
    NestedAlphabetical, the marker that [correctMarker] returns denotes
    [v + 1] on a line of that type, in the mode of the settings, and it is
    in the case of the context's marker.  This holds where the numbers are
    exact and the marker is a string of moderate length: for [v] below
    [Number.MAX_SAFE_INTEGER], and below a thousand million on a Roman line.
    In repeated-letters mode it holds up to the range of that codec:
    [v + 1] at most 260, and at most 27 ("aa") on a line that is still
    Alphabetical. *)
Theorem corrected_marker_is_successor
    (listType : ListType) (context : ParsedListLine) (v : Z)
    (ind txt : string) (sep : ListSeparator)
    (Hvalue : getValue context (isRepeated (nestedAlphabeticalMode settings))
              = Ok (Some v))
    (Hv : 0 <= v)
    (Hlettered : listType = Roman \/ listType = Alphabetical
                 \/ listType = NestedAlphabetical)
    (Hrange : isRepeated (nestedAlphabeticalMode settings) = true ->
              listType <> Roman ->
              v < 260 /\ (listType = Alphabetical -> v < 27))
    (Hexact : v < match listType with
                  | Roman => 1000000000
                  | _ => MAX_SAFE_INTEGER
                  end) :
  exists generated,
    CorrectingParser.correctMarker settings listType context
    = Ok (applyCaseStyle context generated)
    /\ forallb isLower generated = true
    /\ getValue (mkLine listType ind (applyCaseStyle context generated)
                        sep txt)
                (isRepeated (nestedAlphabeticalMode settings))
       = Ok (Some (v + 1)).
Proof.
  now apply correctMarker_successor.
Qed.

End Correcting.

Lemma corrected_marker_is_successor_witness :
  exists generated,
    CorrectingParser.correctMarker DEFAULT_SETTINGS Roman
      (mkLine Roman "" "XIV" Dot " x")
    = Ok (applyCaseStyle (mkLine Roman "" "XIV" Dot " x") generated)
    /\ forallb isLower generated = true
    /\ getValue (mkLine Roman "" (applyCaseStyle
                                    (mkLine Roman "" "XIV" Dot " x") generated)
                        Dot " y")
                (isRepeated (nestedAlphabeticalMode DEFAULT_SETTINGS))
       = Ok (Some (14 + 1)).
Proof.
  apply (corrected_marker_is_successor DEFAULT_SETTINGS Roman
           (mkLine Roman "" "XIV" Dot " x") 14 "" " y" Dot).
  - reflexivity.
  - lia.
  - now left.
  - discriminate.
  - lia.
Defined.

Section CorrectingLine.

Variable settings : MoreOrderedListsSettings.

(** The two ways a text is matched by the patterns. *)
Lemma correcting_parseLine_cases text context :
  (exists ind m sepChar t,
     forallb isSpace ind = true
     /\ Lang (Parser.buildMarkerPattern settings) m
     /\ Parser.buildSeparatorPattern settings sepChar = true
     /\ forallb anyChar t = true
     /\ text = ind ++ m ++ String sepChar (String " " t)
     /\ CorrectingParser.parseLine settings text context
        = CorrectingParser.createResult settings ind m
            (Parser.asListSeparator (String sepChar "")) t context)
  \/ (enableParentheses settings = true
      /\ exists ind m t,
           forallb isSpace ind = true
           /\ Lang (Parser.buildMarkerPattern settings) m
           /\ forallb anyChar t = true
           /\ text = ind ++ String "(" (m ++ String ")" (String " " t))
           /\ CorrectingParser.parseLine settings text context
              = CorrectingParser.createResult settings ind m Parentheses t
                  context)
  \/ CorrectingParser.parseLine settings text context = Ok None.
Proof.
  unfold CorrectingParser.parseLine.
  destruct (exec (Parser.standardRegex settings) text) as [caps|] eqn:Es.
  { left. apply exec_standard in Es
      as (ind & m & sepChar & t & Hind & Hm & Hsep & Ht & -> & ->).
    exists ind, m, sepChar, t. unfold group; cbn [nth].
    repeat (split; [assumption|]). split; reflexivity. }
  destruct (enableParentheses settings) eqn:Ep; [|now right; right].
  destruct (exec (Parser.parenthesesPattern settings) text) as [caps|] eqn:Epp;
    [|now right; right].
  right; left. split; [reflexivity|].
  apply exec_parentheses in Epp as (ind & m & t & Hind & Hm & Ht & -> & ->).
  exists ind, m, t. unfold group; cbn [nth].
  repeat (split; [assumption|]). split; reflexivity.
Qed.

Lemma correcting_parseLine_context text context l :
  CorrectingParser.parseLine settings text (Some context) = Ok (Some l) ->
  separator l = separator context
  /\ CorrectingParser.correctMarker settings (type l) context
     = Ok (marker l)
  /\ exists m sep,
       getLineText (mkLine (type l) (indentation l) m sep (Types.content l))
       = text.
Proof.
  assert (Hcreate : forall ind m sep t,
    CorrectingParser.createResult settings ind m sep t (Some context)
    = Ok (Some l) ->
    separator l = separator context
    /\ CorrectingParser.correctMarker settings (type l) context
       = Ok (marker l)
    /\ indentation l = ind /\ Types.content l = String " " t).
  { intros ind m sep t. unfold CorrectingParser.createResult.
    destruct (CorrectingParser.determineListType settings m (Some context))
      as [[ty|]|e]; cbn [bind]; try discriminate.
    destruct (CorrectingParser.correctMarker settings ty context)
      as [m'|e] eqn:Ec; cbn [bind]; [|discriminate].
    intros [= <-]. cbn [type marker separator indentation Types.content].
    auto. }
  destruct (correcting_parseLine_cases text (Some context))
    as [(ind & m & sepChar & t & Hind & Hm & Hsep & Ht & -> & ->)
       |[(Hp & ind & m & t & Hind & Hm & Ht & -> & ->)| ->]];
    [| |discriminate]; intros Hl;
    destruct (Hcreate _ _ _ _ Hl) as (Hs & Hc & Hi & Ht');
    (split; [exact Hs|]); (split; [exact Hc|]); rewrite Hi, Ht'.
  - destruct (separatorChar_cases settings sepChar Hsep)
      as [[-> _]|(-> & _ & _)].
    + exists m, Dot. reflexivity.
    + exists m, Parenthesis. reflexivity.
  - exists m, Parentheses. reflexivity.
Qed.

(** X27.  In the parser of part_001, with the [ParsedListLine] of main.ts,
    parsing and rendering are inverse to each other on lines without a
    context.  The line that [parseLine] returns for a text renders, with
    [getLineText], to that text; and a well-formed line whose type is the
    type of its marker is what [parseLine] returns for its rendered text.
    With a context the parser keeps the indentation and the content of the
    text and takes the separator of the context and the marker that
    [correctMarker] computes, so the rendered line can differ from the
    text. *)
Theorem correcting_parser_roundtrip
    (text : string) (context self l : ParsedListLine) (content : string) :
  (CorrectingParser.parseLine settings text None = Ok (Some l) ->
   getLineText l = text)
  /\ (wellFormed settings self content ->
      CorrectingParser.typeOfMarker settings (marker self)
      = Some (type self) ->
      CorrectingParser.parseLine settings (getLineText self) None
      = Ok (Some self))
  /\ (CorrectingParser.parseLine settings text (Some context) = Ok (Some l) ->
      separator l = separator context
      /\ CorrectingParser.correctMarker settings (type l) context
         = Ok (marker l)
      /\ exists m sep,
           getLineText (mkLine (type l) (indentation l) m sep (Types.content l))
           = text).
Proof.
  split; [|split].
  - destruct (correcting_parseLine_cases text None)
      as [(ind & m & sepChar & t & Hind & Hm & Hsep & Ht & -> & ->)
         |[(Hp & ind & m & t & Hind & Hm & Ht & -> & ->)| ->]];
      [| |discriminate];
      unfold CorrectingParser.createResult, CorrectingParser.determineListType;
      cbn [bind];
      (destruct (CorrectingParser.typeOfMarker settings m) as [ty|];
       [|discriminate]); cbn [bind]; intros [= <-].
    + unfold getLineText. cbn [separator indentation marker Types.content].
      destruct (separatorChar_cases settings sepChar Hsep)
        as [[-> ->]|(-> & -> & _)]; reflexivity.
    + reflexivity.
  - intros [Hind Hmarker Hsep Hcontent Htext] Htype.
    apply test_sound in Hmarker.
    destruct self as [ty ind m sep txt].
    cbn [type indentation marker separator Types.content] in *. subst txt.
    unfold CorrectingParser.parseLine, getLineText.
    cbn [separator indentation marker Types.content].
    destruct sep.
    + cbn [separatorText append].
      rewrite (standard_some settings ind m "." content); auto.
      * unfold CorrectingParser.createResult,
          CorrectingParser.determineListType, group; cbn [nth bind].
        now rewrite Htype.
      * now apply separator_not_markerChar.
    + destruct Hsep as [Hsep|Hsep]; [discriminate|].
      cbn [separatorText append].
      assert (Hpat : Parser.buildSeparatorPattern settings ")" = true)
        by (unfold Parser.buildSeparatorPattern; now rewrite Hsep).
      rewrite (standard_some settings ind m ")" content); auto.
      * unfold CorrectingParser.createResult,
          CorrectingParser.determineListType, group; cbn [nth bind].
        now rewrite Htype.
      * now apply separator_not_markerChar.
    + destruct Hsep as [Hsep|Hsep]; [discriminate|].
      change ("(" ++ m ++ ")" ++ String " " content)
        with (String "(" (m ++ String ")" (String " " content))).
      rewrite (standard_none settings); auto; [|reflexivity|].
      * rewrite Hsep, (parens_some settings); auto.
        unfold CorrectingParser.createResult,
          CorrectingParser.determineListType, group; cbn [nth bind].
        now rewrite Htype.
      * unfold headFails, markerChar.
        destruct (Parser.alphabetChars settings "(") eqn:E; [|reflexivity].
        apply alphabetChars_letter in E. discriminate E.
  - apply correcting_parseLine_context.
Qed.

End CorrectingLine.

Lemma correcting_parser_roundtrip_witness :
  CorrectingParser.parseLine DEFAULT_SETTINGS
    (getLineText (mkLine Roman "  " "iv" Parentheses " four")) None
  = Ok (Some (mkLine Roman "  " "iv" Parentheses " four")).
Proof.
  refine (proj1 (proj2 (correcting_parser_roundtrip DEFAULT_SETTINGS ""
                          (mkLine Roman "" "i" Dot "")
                          (mkLine Roman "  " "iv" Parentheses " four")
                          (mkLine Roman "" "i" Dot "") "four")) _ _).
  - split; try reflexivity. right; reflexivity.
  - reflexivity.
Defined.

Section CorrectingList.

Variable settings : MoreOrderedListsSettings.
Variable doc : Parser.Text.

Lemma correcting_createResult_fields ind m sep t context l :
  CorrectingParser.createResult settings ind m sep t context = Ok (Some l) ->
  indentation l = ind /\ content l = String " " t.
Proof.
  unfold CorrectingParser.createResult.
  destruct (CorrectingParser.determineListType settings m context)
    as [[ty|]|e]; cbn [bind]; try discriminate.
  destruct context as [c|]; cbn [bind].
  - destruct (CorrectingParser.correctMarker settings ty c) as [m'|e];
      cbn [bind]; [|discriminate].
    intros [= <-]. now split.
  - intros [= <-]. now split.
Qed.

Lemma correcting_parser_level text context l :
  CorrectingParser.parseLine settings text context = Ok (Some l) ->
  Parser.getIndentationLevel text = getIndentationLevel (indentation l).
Proof.
  intros Hl. unfold Parser.getIndentationLevel.
  destruct (correcting_parseLine_cases settings text context)
    as [(ind & m & sepChar & t & Hind & Hm & Hsep & Ht & -> & Heq)
       |[(Hp & ind & m & t & Hind & Hm & Ht & -> & Heq)|Heq]];
    rewrite Heq in Hl; [| |discriminate];
    apply correcting_createResult_fields in Hl as [-> _].
  - destruct (shape_head settings m (markerPattern_shape settings m Hm))
      as (c & m' & -> & Hc).
    rewrite execPrefix_spaces; auto.
    simpl. now apply markerChar_not_space with settings.
  - rewrite execPrefix_spaces; auto. reflexivity.
Qed.

(** The second loop of [parseList] parses each line against the context
    that [findContext] finds in the lines parsed before it. *)
Lemma correcting_loop count : forall n parsedLines result,
  CorrectingParser.parseListLoop settings doc count n parsedLines = Ok result ->
  exists more,
    result = (parsedLines ++ more)%list
    /\ forall pre k l post,
         more = (pre ++ (k, l) :: post)%list ->
         CorrectingParser.parseLine settings (Parser.lineText doc k)
           (CorrectingParser.findContext
              (getIndentationLevel (indentation l)) (parsedLines ++ pre))
         = Ok (Some l).
Proof.
  induction count as [|count IH]; intros n parsedLines result;
    cbn [CorrectingParser.parseListLoop].
  - intros [= <-]. exists []. split; [now rewrite app_nil_r|].
    intros [|? ?] ? ? ?; discriminate.
  - set (text := Parser.lineText doc n).
    set (lvl := Parser.getIndentationLevel text).
    destruct (CorrectingParser.parseLine settings text
                (CorrectingParser.findContext lvl parsedLines))
      as [[cur|]|e] eqn:Eparse; cbn [bind]; [| |discriminate].
    + assert (Hstop : Ok parsedLines = Ok result ->
                exists more,
                  result = (parsedLines ++ more)%list
                  /\ forall pre k l post,
                       more = (pre ++ (k, l) :: post)%list ->
                       CorrectingParser.parseLine settings
                         (Parser.lineText doc k)
                         (CorrectingParser.findContext
                            (getIndentationLevel (indentation l))
                            (parsedLines ++ pre))
                       = Ok (Some l)).
      { intros [= <-]. exists []. split; [now rewrite app_nil_r|].
        intros [|? ?] ? ? ?; discriminate. }
      destruct (negb _ && negb _ && _); [exact Hstop|].
      destruct (_ && _ && _ && _ && _); [exact Hstop|].
      intros Hloop. apply IH in Hloop as (more & -> & Hmore).
      exists ((n, cur) :: more). split; [now rewrite <- app_assoc|].
      intros pre k l post Heq. destruct pre as [|e pre]; cbn [app] in Heq.
      * injection Heq as <- <- <-. rewrite app_nil_r.
        pose proof (correcting_parser_level _ _ _ Eparse) as Hlvl.
        fold lvl in Hlvl. now rewrite <- Hlvl.
      * injection Heq as <- ->.
        specialize (Hmore pre k l post eq_refl).
        now rewrite <- app_assoc in Hmore.
    + intros [= <-]. exists []. split; [now rewrite app_nil_r|].
      intros [|? ?] ? ? ?; discriminate.
Qed.

(** X28.  The lists of the parser of part_001 are in sequence.  Every line
    of a list that [parseList] returns was parsed against the context that
    [findContext] finds for its level in the lines before it; when there is
    one, the line has the separator of that context and the marker that
    [correctMarker] computes from it, whatever marker the text has.  So for
    a context of value [v] a line of a lettered type has the value [v + 1],
    where the numbers are exact ([v] below [Number.MAX_SAFE_INTEGER], and
    below a thousand million on a Roman line) and within the range of the
    repeated-letters codec when that mode is set. *)
Theorem correcting_list_is_sequenced
    (start end_ : Z) (parsedList pre post : list (Z * ParsedListLine))
    (k : Z) (l context : ParsedListLine)
    (Hparse : CorrectingParser.parseList settings doc start end_
              = Ok parsedList)
    (Hentry : parsedList = (pre ++ (k, l) :: post)%list)
    (Hcontext : CorrectingParser.findContext
                  (getIndentationLevel (indentation l)) pre
                = Some context) :
  separator l = separator context
  /\ CorrectingParser.correctMarker settings (type l) context = Ok (marker l)
  /\ forall v,
       getValue context (isRepeated (nestedAlphabeticalMode settings))
       = Ok (Some v) ->
       0 <= v ->
       type l = Roman \/ type l = Alphabetical
       \/ type l = NestedAlphabetical ->
       (isRepeated (nestedAlphabeticalMode settings) = true ->
        type l <> Roman ->
        v < 260 /\ (type l = Alphabetical -> v < 27)) ->
       v < match type l with
           | Roman => 1000000000
           | _ => MAX_SAFE_INTEGER
           end ->
       getValue l (isRepeated (nestedAlphabeticalMode settings))
       = Ok (Some (v + 1)).
Proof.
  assert (Hline : CorrectingParser.parseLine settings (Parser.lineText doc k)
                    (Some context) = Ok (Some l)).
  { unfold CorrectingParser.parseList in Hparse.
    destruct (CorrectingParser.listStartLoop settings doc _ _ _)
      as [[listStart|]|e]; cbn [bind] in Hparse; try discriminate;
      [|injection Hparse as <-; destruct pre; discriminate].
    destruct (CorrectingParser.parseListLoop settings doc _ _ [])
      as [parsedLines|e] eqn:Eloop; cbn [bind] in Hparse; [|discriminate].
    assert (Hsame : parsedList = parsedLines).
    { destruct (List.rev parsedLines) as [|[lastLineNumber lastLine] rest];
        [congruence|].
      destruct (lastLineNumber <? start); [|congruence].
      injection Hparse as <-. destruct pre; discriminate. }
    subst parsedLines.
    apply correcting_loop in Eloop as (more & Heq & Hmore).
    cbn [app] in Heq. subst more.
    specialize (Hmore pre k l post Hentry). cbn [app] in Hmore.
    now rewrite Hcontext in Hmore. }
  destruct (correcting_parseLine_context settings _ _ _ Hline)
    as (Hsep & Hmarker & _).
  split; [exact Hsep|]. split; [exact Hmarker|].
  intros v Hvalue Hv Hlettered Hrange Hexact.
  destruct (correctMarker_successor settings (type l) context v
              (indentation l) (content l) (separator l)
              Hvalue Hv Hlettered Hrange Hexact)
    as (generated & Hg & _ & Hval).
  rewrite Hmarker in Hg. injection Hg as Hg. rewrite <- Hg in Hval.
  now destruct l.
Qed.

End CorrectingList.

Lemma correcting_list_is_sequenced_witness :
  separator (mkLine Alphabetical "" "b" Dot " y") = Dot
  /\ CorrectingParser.correctMarker DEFAULT_SETTINGS Alphabetical
       (mkLine Alphabetical "" "a" Dot " x") = Ok "b".
Proof.
  destruct (correcting_list_is_sequenced DEFAULT_SETTINGS
              (Parser.mockDoc ["a. x"; "a. y"; "z. w"]) 1 3
              [(1, mkLine Alphabetical "" "a" Dot " x");
               (2, mkLine Alphabetical "" "b" Dot " y");
               (3, mkLine Alphabetical "" "c" Dot " w")]
              [(1, mkLine Alphabetical "" "a" Dot " x")]
              [(3, mkLine Alphabetical "" "c" Dot " w")]
              2 (mkLine Alphabetical "" "b" Dot " y")
              (mkLine Alphabetical "" "a" Dot " x")
              eq_refl eq_refl eq_refl) as (Hsep & Hmarker & _).
  split; [exact Hsep|exact Hmarker].
Defined.
